(** * nel: a Node.js evaluation session (lib/nel.js)

    A shallow embedding of the session coordinator of [lib/nel.js]:
    the expression parser ([parseExpression]), the completion filter
    of [Session.prototype.complete], the task scheduler
    ([_run], [_runNow], [_runLater]), the message router
    ([_onMessage]) and the life-cycle operations ([kill], [restart]).

    Conventions of the embedding
    - a JavaScript string is the list of its UTF-16 code units;
    - an exception is an explicit outcome ([Throw]) of a computation;
    - a JavaScript object that is compared with [===] carries the
      identity it was allocated with ([task_ref]);
    - the session's fields are threaded through a state monad that also
      collects what the session does to the outside world (messages sent
      to the server, user callbacks invoked) as a list of events;
    - user callbacks are observers: invoking one is recorded as an event,
      and the callback itself does not call back into the session. *)

From Stdlib Require Import ZArith NArith List String Ascii Bool Lia.
From stdpp Require Import base option list gmap.
Import ListNotations.

Local Open Scope Z_scope.

(** ** JavaScript strings *)

Module JsString.

(** A UTF-16 code unit, and a string of them. *)
Abbreviation jschar := N (only parsing).

Abbreviation jsstring := (list N) (only parsing).

(** A string literal of the source, ASCII only. *)
Definition js (s : string) : jsstring :=
  List.map N_of_ascii (list_ascii_of_string s).

Definition char_eqb (a b : jschar) : bool := N.eqb a b.

Fixpoint str_eqb (a b : jsstring) : bool :=
  match a, b with
  | [], [] => true
  | x :: a', y :: b' => char_eqb x y && str_eqb a' b'
  | _, _ => false
  end.

(** [s.length] *)
Definition len (s : jsstring) : Z := Z.of_nat (length s).

(** Truthiness of a string: every string but the empty one. *)
Definition truthy (s : jsstring) : bool :=
  match s with [] => false | _ :: _ => true end.

(** Truthiness of a property that is absent ([undefined]) or a string. *)
Definition truthy_opt (o : option jsstring) : bool :=
  match o with Some s => truthy s | None => false end.

(** The relative index of [String.prototype.slice]: a negative index
    counts from the end, and the result is clamped to [0, len]. *)
Definition rel_index (l i : Z) : Z :=
  if i <? 0 then Z.max (l + i) 0 else Z.min i l.

(** [s.slice(start, end)] *)
Definition slice (s : jsstring) (start end_ : Z) : jsstring :=
  let from := rel_index (len s) start in
  let to := rel_index (len s) end_ in
  take (Z.to_nat (to - from)) (drop (Z.to_nat from) s).

(** [s[i]]: the one-character string at index [i], [undefined] (here
    [None]) outside the string. *)
Definition char_at (s : jsstring) (i : Z) : option jschar :=
  if i <? 0 then None else s !! Z.to_nat i.

(** [s[i] === 'c'] *)
Definition char_at_is (s : jsstring) (i : Z) (c : jschar) : bool :=
  match char_at s i with
  | Some x => char_eqb x c
  | None => false
  end.

(** [s.charAt(i)]: the empty string outside the string. *)
Definition charAt (s : jsstring) (i : Z) : jsstring :=
  match char_at s i with Some c => [c] | None => [] end.

(** [e] starts with [p]. *)
Fixpoint starts_with (p e : jsstring) : bool :=
  match p, e with
  | [], _ => true
  | x :: p', y :: e' => char_eqb x y && starts_with p' e'
  | _ :: _, [] => false
  end.

(** [e.lastIndexOf(p, 0)]: the search runs backwards from index 0, so
    the only candidate position is 0. *)
Definition lastIndexOf_0 (e p : jsstring) : Z :=
  if starts_with p e then 0 else -1.

(** [s.indexOf(p)]: the first position at which [p] occurs, or -1. *)
Fixpoint indexOf_from (s p : jsstring) (i : Z) : Z :=
  if starts_with p s then i
  else match s with
       | [] => -1
       | _ :: s' => indexOf_from s' p (i + 1)
       end.

Definition indexOf (s p : jsstring) : Z := indexOf_from s p 0.

(** [s.split("\n")] *)
Fixpoint split_lines_acc (s cur : jsstring) : list jsstring :=
  match s with
  | [] => [rev cur]
  | c :: s' =>
      if char_eqb c 10%N then rev cur :: split_lines_acc s' []
      else split_lines_acc s' (c :: cur)
  end.

Definition split_lines (s : jsstring) : list jsstring := split_lines_acc s [].

End JsString.

Export JsString.

(** ** Outcomes of a JavaScript computation *)

Inductive JsError :=
| TypeError
| ReferenceError (name : string).

(** A computation returns normally, throws, or (in the model only) has
    used up the recursion budget it was given. *)
Inductive completion (A : Type) :=
| Normal (a : A)
| Throw (e : JsError)
| OutOfFuel.

Arguments Normal {A} a.
Arguments Throw {A} e.
Arguments OutOfFuel {A}.

Definition cbind {A B} (m : completion A) (k : A -> completion B) : completion B :=
  match m with
  | Normal a => k a
  | Throw e => Throw e
  | OutOfFuel => OutOfFuel
  end.

Notation "'let!' x ':=' m 'in' k" := (cbind m (fun x => k))
  (at level 10, x pattern, m at level 100, k at level 200).

(** ** Regular expressions *)

Module RegExp.

(** The fragment of the regular-expression language the source uses:
    character classes, sequence, alternative and [*]. *)
Inductive pattern :=
| PNever
| PEmpty
| PClass (p : jschar -> bool)
| PSeq (a b : pattern)
| PAlt (a b : pattern)
| PStar (a : pattern).

Fixpoint nullable (r : pattern) : bool :=
  match r with
  | PNever => false
  | PEmpty => true
  | PClass _ => false
  | PSeq a b => nullable a && nullable b
  | PAlt a b => nullable a || nullable b
  | PStar _ => true
  end.

(** What is left of [r] to match once [c] has been read. *)
Fixpoint after (c : jschar) (r : pattern) : pattern :=
  match r with
  | PNever => PNever
  | PEmpty => PNever
  | PClass p => if p c then PEmpty else PNever
  | PSeq a b =>
      if nullable a then PAlt (PSeq (after c a) b) (after c b)
      else PSeq (after c a) b
  | PAlt a b => PAlt (after c a) (after c b)
  | PStar a => PSeq (after c a) (PStar a)
  end.

(** The whole of [s] matches [r]. *)
Fixpoint matches (r : pattern) (s : jsstring) : bool :=
  match s with
  | [] => nullable r
  | c :: s' => matches (after c r) s'
  end.

(** The match object of [exec]: [re.index] and [re[0]]. *)
Record MatchObject := { index : Z; matched : jsstring }.

(** [/r$/.exec(s)] for a pattern that ends in [$]: the engine tries the
    start positions from left to right, and a match from position [i]
    has to reach the end of the input, so [re[0]] is the suffix of [s]
    from [i]. [None] is [null]. *)
Fixpoint exec_from (r : pattern) (s : jsstring) (i : Z) : option MatchObject :=
  if matches r s then Some {| index := i; matched := s |}
  else match s with
       | [] => None
       | _ :: s' => exec_from r s' (i + 1)
       end.

Definition exec_end (r : pattern) (s : jsstring) : option MatchObject :=
  exec_from r s 0.

(** [re[0]] and [re.index]; reading a property of [null] throws. *)
Definition get_0 (re : option MatchObject) : completion jsstring :=
  match re with Some m => Normal (matched m) | None => Throw TypeError end.

Definition get_index (re : option MatchObject) : completion Z :=
  match re with Some m => Normal (index m) | None => Throw TypeError end.

Definition in_range (lo hi : N) (c : jschar) : bool :=
  (N.leb lo c && N.leb c hi)%bool.

Definition is_char (s : string) (c : jschar) : bool :=
  match js s with
  | [x] => char_eqb x c
  | _ => false
  end.

Definition PChar (s : string) : pattern := PClass (is_char s).

(** [[_$a-zA-Z]] *)
Definition identifier_start (c : jschar) : bool :=
  is_char "_" c || is_char "$" c || in_range 97 122 c || in_range 65 90 c.

(** [[_$a-zA-Z0-9]] *)
Definition identifier_part (c : jschar) : bool :=
  identifier_start c || in_range 48 57 c.

(** [.]: any code unit but a line terminator. *)
Definition dot (c : jschar) : bool :=
  negb (N.eqb c 10 || N.eqb c 13 || N.eqb c 8232 || N.eqb c 8233).

(** [\s]: white space and line terminators. *)
Definition space (c : jschar) : bool :=
  in_range 9 13 c || N.eqb c 32 || N.eqb c 160 || N.eqb c 5760
  || in_range 8192 8202 c || N.eqb c 8232 || N.eqb c 8233
  || N.eqb c 8239 || N.eqb c 8287 || N.eqb c 12288 || N.eqb c 65279.

(** [[a-zA-Z]] *)
Definition letter (c : jschar) : bool :=
  in_range 97 122 c || in_range 65 90 c.

End RegExp.

Import RegExp.

(** [whitespaceRE.test(x)] for [x] a one-character string or
    [undefined]; [undefined] is tested as the text "undefined", which
    has no white space. *)
Definition whitespaceRE_test (x : option jschar) : bool :=
  match x with
  | Some c => space c
  | None => false
  end.

(** [[_$a-zA-Z][_$a-zA-Z0-9]*] *)
Definition identifierP : pattern :=
  PSeq (PClass identifier_start) (PStar (PClass identifier_part)).

(** [/[_$a-zA-Z][_$a-zA-Z0-9]*$/] *)
Definition simpleIdentifierRE : pattern := identifierP.

(** [\[".*"\]] and [\['.*'\]] *)
Definition bracketP (quote : string) : pattern :=
  PSeq (PChar "[") (PSeq (PChar quote) (PSeq (PStar (PClass dot))
    (PSeq (PChar quote) (PChar "]")))).

Definition double_quote : string := String (ascii_of_nat 34) EmptyString.

(** [/[_$a-zA-Z][_$a-zA-Z0-9]*(?:[_$a-zA-Z][_$a-zA-Z0-9]*|\.[_$a-zA-Z][_$a-zA-Z0-9]*|\[".*"\]|\['.*'\])*$/] *)
Definition complexIdentifierRE : pattern :=
  PSeq identifierP
    (PStar (PAlt identifierP
           (PAlt (PSeq (PChar ".") identifierP)
           (PAlt (bracketP double_quote) (bracketP "'"))))).

(** ** parseExpression *)

Record Expression := {
  matchedText : jsstring;
  scope : jsstring;
  leftOp : jsstring;
  selector : jsstring;
  rightOp : jsstring
}.

(** [null] is [None]. *)
Definition parseExpression (code : jsstring) (cursorPos : Z)
  : completion (option Expression) :=
  let expression := slice code 0 cursorPos in
  if negb (truthy expression)
     || whitespaceRE_test (char_at expression (len expression - 1))
  then
    Normal (Some {| matchedText := []; scope := []; leftOp := [];
                    selector := []; rightOp := [] |})
  else
    let re := exec_end simpleIdentifierRE expression in
    let! (selector, expression) :=
      match re with
      | None => Normal ([], expression)
      | Some _ =>
          let! selector := get_0 re in
          let! idx := get_index re in
          Normal (selector, slice expression 0 idx)
      end in
    let ops :=
      if char_at_is expression (len expression - 1) 46%N then
        Some (js ".", js "", slice expression 0 (len expression - 1))
      else if char_at_is expression (len expression - 2) 91%N
              && char_at_is expression (len expression - 1) 34%N then
        Some (91%N :: [34%N], 34%N :: [93%N],
              slice expression 0 (len expression - 2))
      else if char_at_is expression (len expression - 2) 91%N
              && char_at_is expression (len expression - 1) 39%N then
        Some (js "['", js "']", slice expression 0 (len expression - 2))
      else None in
    match ops with
    | None =>
        Normal (Some {| matchedText := slice code (len expression) cursorPos;
                        scope := []; leftOp := [];
                        selector := selector; rightOp := [] |})
    | Some (leftOp, rightOp, expression) =>
        let re := exec_end complexIdentifierRE expression in
        match re with
        | Some _ =>
            let! scope := get_0 re in
            let! idx := get_index re in
            Normal (Some {| matchedText := slice code idx cursorPos;
                            scope := scope; leftOp := leftOp;
                            selector := selector; rightOp := rightOp |})
        | None =>
            if negb (truthy leftOp) then
              Normal (Some {| matchedText := slice code (len expression) cursorPos;
                              scope := []; leftOp := leftOp;
                              selector := selector; rightOp := rightOp |})
            else Normal None
        end
    end.



(** ** The completion filter of [Session.prototype.complete] *)

(** List of Javascript reserved words (ecma-262). *)
Definition javascriptKeywords : list jsstring :=
  List.map js
    [ "break"; "case"; "catch"; "continue"; "debugger"; "default";
      "delete"; "do"; "else"; "finally"; "for"; "function"; "if";
      "in"; "instanceof"; "new"; "return"; "switch"; "this";
      "throw"; "try"; "typeof"; "var"; "void"; "while"; "with";
      "class"; "const"; "enum"; "export"; "extends"; "import";
      "super";
      "implements"; "interface"; "let"; "package"; "private";
      "protected"; "public"; "static"; "yield";
      "null";
      "true"; "false" ]%string.

(** An element of the array [matchList]: a string, or [undefined]
    ([None]) when the result had no [names] to concatenate. *)
Abbreviation JsElem := (option jsstring) (only parsing).

(** The [completion] object handed to [callbacks.onSuccess]. *)
Record Completion := {
  list_ : list JsElem;
  code_ : jsstring;
  cursorPos_ : Z;
  matchedText_ : jsstring;
  cursorStart : Z;
  cursorEnd : Z
}.

(** [[].concat(x)]: the elements of an array, or the value itself. *)
Definition concat_arg (names : option (list jsstring)) : list JsElem :=
  match names with
  | Some l => List.map Some l
  | None => [None]
  end.

(** [matchList.filter(function(e) { return e.lastIndexOf(selector, 0) === 0; })];
    calling a method of [undefined] throws. *)
Fixpoint filter_selector (selector : jsstring) (l : list JsElem)
  : completion (list JsElem) :=
  match l with
  | [] => Normal []
  | None :: _ => Throw TypeError
  | Some e :: l' =>
      if lastIndexOf_0 e selector =? 0 then
        let! r := filter_selector selector l' in Normal (Some e :: r)
      else filter_selector selector l'
  end.

(** [left + e + right]; [undefined] is concatenated as the text "undefined". *)
Definition wrap (left right : jsstring) (e : JsElem) : JsElem :=
  Some (left ++ default (js "undefined") e ++ right).

(** [matchList.reduce(function(p, c) { return p.length <= c.length ? p : c; })]
    on the array [p :: l]; reading [length] of [undefined] throws. *)
Fixpoint reduce_shortest (p : JsElem) (l : list JsElem) : completion JsElem :=
  match l with
  | [] => Normal p
  | c :: l' =>
      match p, c with
      | Some ps, Some cs =>
          reduce_shortest (if len ps <=? len cs then p else c) l'
      | _, _ => Throw TypeError
      end
  end.

(** The loop
    [for (var i = 0; i < ml && cursorEnd < cl; i++, cursorEnd++)
       if (shortestMatch.charAt(i) !== code.charAt(cursorEnd)) break;]
    where [rest] is what is left of [shortestMatch] from index [i]. *)
Fixpoint scan_match (rest code : jsstring) (cursorEnd : Z) : Z :=
  match rest with
  | [] => cursorEnd
  | c :: rest' =>
      if cursorEnd <? len code then
        if negb (str_eqb [c] (charAt code cursorEnd)) then cursorEnd
        else scan_match rest' code (cursorEnd + 1)
      else cursorEnd
  end.

(** The body of [task.onSuccess] in [complete], up to the call of the
    user's callback: from the captured variable [matchList] and
    [result.names] to the new value of [matchList] and the completion to
    deliver. An assignment to [matchList] made before an exception is
    kept. *)
Definition completeOnSuccess (expression : Expression) (code : jsstring)
    (cursorPos : Z) (matchList : list JsElem) (names : option (list jsstring))
  : list JsElem * completion Completion :=
  let matchList := matchList ++ concat_arg names in
  let matchList :=
    if negb (truthy (scope expression))
    then matchList ++ List.map Some javascriptKeywords else matchList in
  let filtered :=
    if truthy (selector expression)
    then filter_selector (selector expression) matchList
    else Normal matchList in
  match filtered with
  | Throw e => (matchList, Throw e)
  | OutOfFuel => (matchList, OutOfFuel)
  | Normal matchList =>
      let left := scope expression ++ leftOp expression in
      let right := rightOp expression in
      let matchList :=
        if truthy left || truthy right
        then List.map (wrap left right) matchList else matchList in
      let range :=
        match matchList with
        | p :: l =>
            let! shortestMatch := reduce_shortest p l in
            let cursorStart := indexOf code (matchedText expression) in
            match shortestMatch with
            | Some shortestMatch =>
                Normal (cursorStart, scan_match shortestMatch code cursorStart)
            | None => Throw TypeError
            end
        | [] => Normal (cursorPos, cursorPos)
        end in
      (matchList,
       let! (cursorStart, cursorEnd) := range in
       Normal {| list_ := matchList; code_ := code; cursorPos_ := cursorPos;
                 matchedText_ := matchedText expression;
                 cursorStart := cursorStart; cursorEnd := cursorEnd |})
  end.



(** ** Tasks, messages and events *)

(** [task.action] *)
Inductive Action :=
| Action_run
| Action_getAllPropertyNames
| Action_inspect.

Definition Action_eqb (a b : Action) : bool :=
  match a, b with
  | Action_run, Action_run => true
  | Action_getAllPropertyNames, Action_getAllPropertyNames => true
  | Action_inspect, Action_inspect => true
  | _, _ => false
  end.

(** A function of the user of the API, known by a name only. *)
Definition UserFn := nat.

(** The [callbacks] argument of [execute], [complete] and [inspect]; a
    field is [None] when the property is absent. *)
Record Callbacks := {
  cb_onSuccess : option UserFn;
  cb_onError : option UserFn;
  cb_beforeRun : option UserFn;
  cb_afterRun : option UserFn;
  cb_onStdout : option UserFn;
  cb_onStderr : option UserFn
}.

(** [error.traceback]: the lines of the stack, or the empty text that
    [_runNow] puts there for a thrown value without a stack. *)
Inductive Traceback :=
| TracebackLines (lines : list jsstring)
| TracebackText (text : jsstring).

Record ErrorResult := {
  ename : jsstring;
  evalue : jsstring;
  traceback : Traceback
}.

Record Inspection := {
  insp_code : option jsstring;
  insp_cursorPos : option Z;
  insp_matchedText : option jsstring;
  insp_string : jsstring;
  insp_type : jsstring;
  constructorList : option (list jsstring);
  insp_length : option Z
}.

Record Documentation := {
  description : jsstring;
  usage : option jsstring;
  url : jsstring
}.

(** A message of the session server. The router tells the kinds of
    message apart by the properties that are there, so the record has
    one optional field per property. [msg_end] is the truthiness of
    [message.end]. *)
Record Message := {
  msg_id : option Z;
  msg_end : bool;
  msg_log : option jsstring;
  msg_stdout : option jsstring;
  msg_stderr : option jsstring;
  msg_error : option ErrorResult;
  msg_mime : option (list (jsstring * jsstring));
  msg_names : option (list jsstring);
  msg_inspection : option Inspection;
  msg_doc : option Documentation
}.

Definition empty_message : Message :=
  {| msg_id := None; msg_end := false; msg_log := None; msg_stdout := None;
     msg_stderr := None; msg_error := None; msg_mime := None;
     msg_names := None; msg_inspection := None; msg_doc := None |}.

(** [delete message.id; delete message.end] *)
Definition delete_id_end (m : Message) : Message :=
  {| msg_id := None; msg_end := false; msg_log := msg_log m;
     msg_stdout := msg_stdout m; msg_stderr := msg_stderr m;
     msg_error := msg_error m; msg_mime := msg_mime m;
     msg_names := msg_names m; msg_inspection := msg_inspection m;
     msg_doc := msg_doc m |}.

(** [inspectionResult.doc = doc] *)
Definition set_doc (m : Message) (d : Documentation) : Message :=
  {| msg_id := msg_id m; msg_end := msg_end m; msg_log := msg_log m;
     msg_stdout := msg_stdout m; msg_stderr := msg_stderr m;
     msg_error := msg_error m; msg_mime := msg_mime m;
     msg_names := msg_names m; msg_inspection := msg_inspection m;
     msg_doc := Some d |}.

Definition set_inspection (m : Message) (i : Inspection) : Message :=
  {| msg_id := msg_id m; msg_end := msg_end m; msg_log := msg_log m;
     msg_stdout := msg_stdout m; msg_stderr := msg_stderr m;
     msg_error := msg_error m; msg_mime := msg_mime m;
     msg_names := msg_names m; msg_inspection := Some i;
     msg_doc := msg_doc m |}.

(** [task.onSuccess]: the user's callback itself ([execute]) or one of
    the closures that [complete] and [inspect] build. A closure is given
    by the variables it captures; [cell] names its captured mutable
    variable ([matchList], [inspectionResult]). *)
Inductive SuccessHandler :=
| OnSuccess_user (f : UserFn)
| OnSuccess_complete (cell : nat) (expression : Expression)
    (code : jsstring) (cursorPos : Z) (callbacks : option Callbacks)
| OnSuccess_inspect (cell : nat) (expression : Expression)
    (code : jsstring) (cursorPos : Z) (callbacks : option Callbacks)
| OnSuccess_inspect_scope (cell : nat) (expression : Expression)
    (callbacks : option Callbacks).

Record Task := {
  task_ref : nat;
  action : Action;
  code : jsstring;
  onSuccess : option SuccessHandler;
  onError : option UserFn;
  beforeRun : option UserFn;
  afterRun : option UserFn;
  onStdout : option UserFn;
  onStderr : option UserFn
}.

(** [task.code = c] *)
Definition set_code (t : Task) (c : jsstring) : Task :=
  {| task_ref := task_ref t; action := action t; code := c;
     onSuccess := onSuccess t; onError := onError t;
     beforeRun := beforeRun t; afterRun := afterRun t;
     onStdout := onStdout t; onStderr := onStderr t |}.

(** [a === b] on task objects. *)
Definition same_task (a b : Task) : bool := Nat.eqb (task_ref a) (task_ref b).

(** [task === this._currentTask] *)
Definition is_current (task : Task) (current : option Task) : bool :=
  match current with
  | Some c => same_task task c
  | None => false
  end.

(** What a transpiler does with the code it is given. *)
Inductive Thrown :=
| Thrown_undefined
| Thrown_null
| Thrown_boolean (b : bool)
| Thrown_number (n : Z)
| Thrown_string (s : jsstring)
| Thrown_object (name message stack : option jsstring).

Inductive Transpiled :=
| Returns (code : jsstring)
| Throws (error : Thrown).

Definition Transpiler := jsstring -> Transpiled.

(** The argument of [new Session(nelConfig)]. *)
Record NelConfig := {
  nel_cwd : option jsstring;
  nel_transpile : option Transpiler
}.

(** The object stored in [this._config]: [cwd] and [stdio]. *)
Record Config := {
  cwd : option jsstring;
  stdio_debug : bool
}.

(** [Session.call(this, this._config)] reads [cwd] and [transpile] of
    the object in [_config]; that object has no property [transpile]. *)
Definition Config_as_nelConfig (c : Config) : NelConfig :=
  {| nel_cwd := cwd c; nel_transpile := None |}.

(** The callback of [kill]: a function of the user, or the closure that
    [restart] builds around [restartCB]. *)
Inductive KillCB :=
| KillCB_user (f : UserFn)
| KillCB_restart (restartCB : option UserFn).

(** The child process behind [this._server], as far as the session sees
    it: the options it was forked with and the listeners on it. *)
Record Server := {
  srv_options : Config;
  srv_on_message : bool;
  srv_on_exit : list (option KillCB)
}.

(** The property a callback was read from when it was called. *)
Inductive Property :=
| onSuccess_
| onError_
| beforeRun_
| afterRun_
| onStdout_
| onStderr_
| killCB_
| restartCB_.

Inductive Argument :=
| Arg_none
| Arg_data (s : jsstring)
| Arg_message (m : Message)
| Arg_completion (c : Completion)
| Arg_exit (code : option Z) (signal : option jsstring).

(** What the session does that can be seen from outside, in order.
    [Submitted] and [Ended] stand at the calls of [log] in [_run] and
    [_onMessage]; [Dispatched] stands at the assignment to
    [this._contextTable[this._lastContextId]] in [_runNow]. *)
Inductive Event :=
| Forked (options : Config)
| Sent (a : Action) (c : jsstring) (contextId : Z)
| Signalled (signal : jsstring)
| Called (p : Property) (f : UserFn) (arg : Argument)
| Submitted (task : nat)
| Dispatched (contextId : Z) (task : nat)
| Ended (contextId : option Z).

(** ** The session *)

Record Session := {
  transpile : option Transpiler;
  _tasks : list Task;
  _currentTask : option Task;
  _contextTable : gmap Z Task;
  _lastContextId : Z;
  _lastTask : option Task;
  _config : Config;
  _server : Server;
  _killed : bool;
  (* outside the session object: the allocator of object identities
     and the captured variables of the closures *)
  heap_next : nat;
  heap_matchList : gmap nat (list JsElem);
  heap_inspectionResult : gmap nat Message
}.

Definition set_tasks (v : list Task) (s : Session) : Session :=
  {| transpile := transpile s; _tasks := v; _currentTask := _currentTask s;
     _contextTable := _contextTable s; _lastContextId := _lastContextId s;
     _lastTask := _lastTask s; _config := _config s; _server := _server s;
     _killed := _killed s; heap_next := heap_next s;
     heap_matchList := heap_matchList s;
     heap_inspectionResult := heap_inspectionResult s |}.

Definition set_currentTask (v : option Task) (s : Session) : Session :=
  {| transpile := transpile s; _tasks := _tasks s; _currentTask := v;
     _contextTable := _contextTable s; _lastContextId := _lastContextId s;
     _lastTask := _lastTask s; _config := _config s; _server := _server s;
     _killed := _killed s; heap_next := heap_next s;
     heap_matchList := heap_matchList s;
     heap_inspectionResult := heap_inspectionResult s |}.

Definition set_contextTable (v : gmap Z Task) (s : Session) : Session :=
  {| transpile := transpile s; _tasks := _tasks s;
     _currentTask := _currentTask s;
     _contextTable := v; _lastContextId := _lastContextId s;
     _lastTask := _lastTask s; _config := _config s; _server := _server s;
     _killed := _killed s; heap_next := heap_next s;
     heap_matchList := heap_matchList s;
     heap_inspectionResult := heap_inspectionResult s |}.

Definition set_lastContextId (v : Z) (s : Session) : Session :=
  {| transpile := transpile s; _tasks := _tasks s;
     _currentTask := _currentTask s;
     _contextTable := _contextTable s; _lastContextId := v;
     _lastTask := _lastTask s; _config := _config s; _server := _server s;
     _killed := _killed s; heap_next := heap_next s;
     heap_matchList := heap_matchList s;
     heap_inspectionResult := heap_inspectionResult s |}.

Definition set_lastTask (v : option Task) (s : Session) : Session :=
  {| transpile := transpile s; _tasks := _tasks s;
     _currentTask := _currentTask s;
     _contextTable := _contextTable s; _lastContextId := _lastContextId s;
     _lastTask := v; _config := _config s; _server := _server s;
     _killed := _killed s; heap_next := heap_next s;
     heap_matchList := heap_matchList s;
     heap_inspectionResult := heap_inspectionResult s |}.

Definition set_server (v : Server) (s : Session) : Session :=
  {| transpile := transpile s; _tasks := _tasks s;
     _currentTask := _currentTask s;
     _contextTable := _contextTable s; _lastContextId := _lastContextId s;
     _lastTask := _lastTask s; _config := _config s; _server := v;
     _killed := _killed s; heap_next := heap_next s;
     heap_matchList := heap_matchList s;
     heap_inspectionResult := heap_inspectionResult s |}.

Definition set_killed (v : bool) (s : Session) : Session :=
  {| transpile := transpile s; _tasks := _tasks s;
     _currentTask := _currentTask s;
     _contextTable := _contextTable s; _lastContextId := _lastContextId s;
     _lastTask := _lastTask s; _config := _config s; _server := _server s;
     _killed := v; heap_next := heap_next s;
     heap_matchList := heap_matchList s;
     heap_inspectionResult := heap_inspectionResult s |}.

Definition set_heap_next (v : nat) (s : Session) : Session :=
  {| transpile := transpile s; _tasks := _tasks s;
     _currentTask := _currentTask s;
     _contextTable := _contextTable s; _lastContextId := _lastContextId s;
     _lastTask := _lastTask s; _config := _config s; _server := _server s;
     _killed := _killed s; heap_next := v;
     heap_matchList := heap_matchList s;
     heap_inspectionResult := heap_inspectionResult s |}.

Definition set_heap_matchList (v : gmap nat (list JsElem)) (s : Session) : Session :=
  {| transpile := transpile s; _tasks := _tasks s;
     _currentTask := _currentTask s;
     _contextTable := _contextTable s; _lastContextId := _lastContextId s;
     _lastTask := _lastTask s; _config := _config s; _server := _server s;
     _killed := _killed s; heap_next := heap_next s;
     heap_matchList := v;
     heap_inspectionResult := heap_inspectionResult s |}.

Definition set_heap_inspectionResult (v : gmap nat Message) (s : Session) : Session :=
  {| transpile := transpile s; _tasks := _tasks s;
     _currentTask := _currentTask s;
     _contextTable := _contextTable s; _lastContextId := _lastContextId s;
     _lastTask := _lastTask s; _config := _config s; _server := _server s;
     _killed := _killed s; heap_next := heap_next s;
     heap_matchList := heap_matchList s;
     heap_inspectionResult := v |}.

(** ** The monad of the session's methods

    A method reads and writes the session, emits events, and returns,
    throws or runs out of fuel. The state and the events of a method
    that throws are those at the point of the exception. *)

Definition M (A : Type) : Type := Session -> Session * list Event * completion A.

Definition ret {A} (a : A) : M A := fun s => (s, [], Normal a).

Definition bind {A B} (m : M A) (k : A -> M B) : M B :=
  fun s =>
    match m s with
    | (s1, ev1, Normal a) =>
        match k a s1 with
        | (s2, ev2, r) => (s2, ev1 ++ ev2, r)
        end
    | (s1, ev1, Throw e) => (s1, ev1, Throw e)
    | (s1, ev1, OutOfFuel) => (s1, ev1, OutOfFuel)
    end.

Notation "x <- m ;; k" := (bind m (fun x => k))
  (at level 20, m at level 99, k at level 200, only parsing).
Notation "m ;; k" := (bind m (fun _ => k))
  (at level 100, k at level 200, right associativity, only parsing).

Definition get : M Session := fun s => (s, [], Normal s).
Definition modify (f : Session -> Session) : M unit := fun s => (f s, [], Normal tt).
Definition emit (e : Event) : M unit := fun s => (s, [e], Normal tt).
Definition throw {A} (e : JsError) : M A := fun s => (s, [], Throw e).
Definition out_of_fuel {A} : M A := fun s => (s, [], OutOfFuel).
Definition lift {A} (c : completion A) : M A := fun s => (s, [], c).

(** [if (f) { f(arg); }] for a callback of the user. *)
Definition call_if_present (p : Property) (f : option UserFn) (arg : Argument)
  : M unit :=
  match f with
  | Some f => emit (Called p f arg)
  | None => ret tt
  end.

(** A new object: its identity. *)
Definition fresh : M nat :=
  s <- get ;;
  modify (set_heap_next (S (heap_next s))) ;;
  ret (heap_next s).

(** [callbacks && callbacks.f] *)
Definition cb (callbacks : option Callbacks) (f : Callbacks -> option UserFn)
  : option UserFn :=
  match callbacks with
  | Some c => f c
  | None => None
  end.

(** ** Documentation lookup *)

(** [name.replace(/^[a-zA-Z]+family./, replacement)]: the letters are
    taken greedily, and the engine gives them back one at a time until
    [family] and one more character follow. [k] is the number of letters
    still held. *)
Definition family_follows (family rest : jsstring) : bool :=
  starts_with family rest &&
  match drop (length family) rest with
  | c :: _ => dot c
  | [] => false
  end.

Fixpoint count_letters (s : jsstring) : nat :=
  match s with
  | c :: s' => if letter c then S (count_letters s') else O
  | [] => O
  end.

Fixpoint give_back (k : nat) (family name : jsstring) : option nat :=
  match k with
  | O => None
  | S k' =>
      if family_follows family (drop k name) then Some k
      else give_back k' family name
  end.

Definition replace_family (family replacement name : jsstring) : jsstring :=
  match give_back (count_letters name) family name with
  | Some k => replacement ++ drop (k + length family + 1) name
  | None => name
  end.

Section Session.

(** The dictionary of [require("./mdn.js")]: [doc name] is [doc[name]]
    when [name in doc]. *)
Variable doc : jsstring -> option Documentation.

Definition getDocumentation (name : jsstring) : option Documentation :=
  match doc name with
  | Some d => Some d
  | None =>
      match doc (replace_family (js "Error") (js "Error.") name) with
      | Some d => Some d
      | None =>
          match doc (replace_family (js "Array") (js "TypedArray.") name) with
          | Some d => Some d
          | None => None
          end
      end
  end.

(** The loop over [constructorList] in the second closure of [inspect]. *)
Fixpoint find_member_doc (constructorList : list jsstring) (selector : jsstring)
  : option Documentation :=
  match constructorList with
  | [] => None
  | constructorName :: rest =>
      match getDocumentation (constructorName ++ js ".prototype." ++ selector) with
      | Some d => Some d
      | None => find_member_doc rest selector
      end
  end.

(** ** Scheduling: [_run], [_runLater] *)

Definition _runLater (task : Task) : M unit :=
  s <- get ;;
  modify (set_tasks (_tasks s ++ [task])).

(** [_run], given [_runNow]. *)
Definition run_with (runNow : Task -> M unit) (task : Task) : M unit :=
  s <- get ;;
  if _killed s then ret tt
  else
    emit (Submitted (task_ref task)) ;;
    match _currentTask s with
    | None => runNow task
    | Some _ => _runLater task
    end.

(** ** The closures installed as [task.onSuccess] *)

(** [getDocumentationAndInvokeCallbacks] of [inspect]. *)
Definition getDocumentationAndInvokeCallbacks (runNow : Task -> M unit)
    (cell : nat) (expression : Expression) (callbacks : option Callbacks)
    (inspectionResult : Message) : M unit :=
  if negb (truthy (scope expression)) then
    let inspectionResult :=
      match getDocumentation (matchedText expression) with
      | Some d => set_doc inspectionResult d
      | None => inspectionResult
      end in
    modify (fun s => set_heap_inspectionResult
                       (<[cell := inspectionResult]> (heap_inspectionResult s)) s) ;;
    call_if_present onSuccess_ (cb callbacks cb_onSuccess) (Arg_message inspectionResult) ;;
    call_if_present afterRun_ (cb callbacks cb_afterRun) Arg_none
  else
    r <- fresh ;;
    run_with runNow
      {| task_ref := r; action := Action_inspect; code := scope expression;
         onSuccess := Some (OnSuccess_inspect_scope cell expression callbacks);
         onError := cb callbacks cb_onError;
         beforeRun := None;
         afterRun := cb callbacks cb_afterRun;
         onStdout := cb callbacks cb_onStdout;
         onStderr := cb callbacks cb_onStderr |}.

(** [task.onSuccess(result)] *)
Definition call_onSuccess (runNow : Task -> M unit) (h : SuccessHandler)
    (result : Message) : M unit :=
  match h with
  | OnSuccess_user f => emit (Called onSuccess_ f (Arg_message result))
  | OnSuccess_complete cell expression code cursorPos callbacks =>
      s <- get ;;
      let '(matchList, completion) :=
        completeOnSuccess expression code cursorPos
          (default [] (heap_matchList s !! cell)) (msg_names result) in
      modify (set_heap_matchList (<[cell := matchList]> (heap_matchList s))) ;;
      completion <- lift completion ;;
      call_if_present onSuccess_ (cb callbacks cb_onSuccess) (Arg_completion completion)
  | OnSuccess_inspect cell expression code cursorPos callbacks =>
      modify (fun s => set_heap_inspectionResult
                         (<[cell := result]> (heap_inspectionResult s)) s) ;;
      match msg_inspection result with
      | None => throw TypeError
      | Some i =>
          let inspectionResult :=
            set_inspection result
              {| insp_code := Some code; insp_cursorPos := Some cursorPos;
                 insp_matchedText := Some (matchedText expression);
                 insp_string := insp_string i; insp_type := insp_type i;
                 constructorList := constructorList i;
                 insp_length := insp_length i |} in
          modify (fun s => set_heap_inspectionResult
                             (<[cell := inspectionResult]> (heap_inspectionResult s)) s) ;;
          getDocumentationAndInvokeCallbacks runNow cell expression callbacks
            inspectionResult
      end
  | OnSuccess_inspect_scope cell expression callbacks =>
      match msg_inspection result with
      | None => throw TypeError
      | Some i =>
          s <- get ;;
          let found :=
            match constructorList i with
            | Some l => find_member_doc l (selector expression)
            | None => None
            end in
          match heap_inspectionResult s !! cell, found with
          | None, Some _ => throw TypeError
          | None, None =>
              call_if_present onSuccess_ (cb callbacks cb_onSuccess) Arg_none
          | Some inspectionResult, found =>
              let inspectionResult :=
                match found with
                | Some d => set_doc inspectionResult d
                | None => inspectionResult
                end in
              modify (set_heap_inspectionResult
                        (<[cell := inspectionResult]> (heap_inspectionResult s))) ;;
              call_if_present onSuccess_ (cb callbacks cb_onSuccess)
                (Arg_message inspectionResult)
          end
      end
  end.

(** ** The message router: [_onMessage] *)

(** [this._contextTable[contextId]]; the table only has the keys that
    [_runNow] wrote, so a message without [id] finds nothing. *)
Definition lookup_context (s : Session) (contextId : option Z) : option Task :=
  match contextId with
  | Some i => _contextTable s !! i
  | None => None
  end.

(** [delete this._contextTable[contextId]] *)
Definition delete_context (contextId : option Z) (s : Session) : Session :=
  match contextId with
  | Some i => set_contextTable (delete i (_contextTable s)) s
  | None => s
  end.

(** The task a message is for: the one of its context, else the last
    task run. *)
Definition message_task (s : Session) (contextId : option Z) : option Task :=
  match lookup_context s contextId with
  | Some task => Some task
  | None => _lastTask s
  end.

(** "Handle error and success messages" *)
Definition handle_result (runNow : Task -> M unit) (task : Task)
    (message : Message) : M unit :=
  match msg_error message with
  | Some _ => call_if_present onError_ (onError task) (Arg_message message)
  | None =>
      match onSuccess task with
      | Some h => call_onSuccess runNow h message
      | None => ret tt
      end
  end.

(** "Handle message.end" *)
Definition handle_end (endMessage : bool) (contextId : option Z) (task : Task)
  : M unit :=
  if endMessage then
    emit (Ended contextId) ;;
    modify (delete_context contextId) ;;
    call_if_present afterRun_ (afterRun task) Arg_none
  else ret tt.

(** "If the task for this message is the last running task, proceed to
    run the next task on the queue." *)
Definition run_next (runNow : Task -> M unit) (task : Task) : M unit :=
  s <- get ;;
  if is_current task (_currentTask s) then
    modify (set_currentTask None) ;;
    s <- get ;;
    match _tasks s with
    | next :: rest => modify (set_tasks rest) ;; runNow next
    | [] => ret tt
    end
  else ret tt.

(** What [_onMessage] does with a message that is neither a log nor a
    chunk of output, once its task is known. *)
Definition route_result (runNow : Task -> M unit) (task : Task)
    (contextId : option Z) (endMessage : bool) (message : Message) : M unit :=
  handle_result runNow task message ;;
  handle_end endMessage contextId task ;;
  run_next runNow task.

(** [_onMessage], given [_runNow]. *)
Definition onMessage_with (runNow : Task -> M unit) (message : Message) : M unit :=
  let contextId := msg_id message in
  let endMessage := msg_end message in
  let message := delete_id_end message in
  if truthy_opt (msg_log message) then ret tt
  else
    s <- get ;;
    match message_task s contextId with
    | None => ret tt
    | Some task =>
        if truthy_opt (msg_stdout message) then
          call_if_present onStdout_ (onStdout task)
            (Arg_data (default [] (msg_stdout message)))
        else if truthy_opt (msg_stderr message) then
          call_if_present onStderr_ (onStderr task)
            (Arg_data (default [] (msg_stderr message)))
        else route_result runNow task contextId endMessage message
    end.

(** ** Dispatch: [_runNow] *)

(** [typeof error] *)
Definition typeof (error : Thrown) : jsstring :=
  match error with
  | Thrown_undefined => js "undefined"
  | Thrown_null => js "object"
  | Thrown_boolean _ => js "boolean"
  | Thrown_number _ => js "number"
  | Thrown_string _ => js "string"
  | Thrown_object _ _ _ => js "object"
  end.

(** [error && error.p]: the property when the value is truthy and has
    a truthy [p]. Primitive values have none of [name], [message] and
    [stack]. *)
Definition truthy_property (error : Thrown)
    (p : option jsstring * option jsstring * option jsstring -> option jsstring)
  : option jsstring :=
  match error with
  | Thrown_object name message stack =>
      match p (name, message, stack) with
      | Some v => if truthy v then Some v else None
      | None => None
      end
  | _ => None
  end.

(** The identifier [util] is bound nowhere in the module (it requires
    [console], [fs], [path], [child_process] and [./mdn.js]), so
    evaluating [util.inspect(error)] throws. *)
Definition util_inspect (error : Thrown) : completion jsstring :=
  Throw (ReferenceError "util").

(** The object literal in the [catch] clause of [_runNow]; its
    properties are evaluated in order. *)
Definition error_of_thrown (error : Thrown) : completion ErrorResult :=
  let ename :=
    match truthy_property error (fun '(n, _, _) => n) with
    | Some name => name
    | None => typeof error
    end in
  let! evalue :=
    match truthy_property error (fun '(_, m, _) => m) with
    | Some message => Normal message
    | None => util_inspect error
    end in
  let traceback :=
    match truthy_property error (fun '(_, _, st) => st) with
    | Some stack => TracebackLines (split_lines stack)
    | None => TracebackText []
    end in
  Normal {| ename := ename; evalue := evalue; traceback := traceback |}.

(** [this._lastTask.code = transpiledCode]: the task object is the one
    in [_currentTask], [_lastTask] and the context table. *)
Definition set_task_code (transpiledCode : jsstring) (s : Session) : Session :=
  let upd := fun t : Task => set_code t transpiledCode in
  set_contextTable (alter upd (_lastContextId s) (_contextTable s))
    (set_lastTask (upd <$> _lastTask s)
       (set_currentTask (upd <$> _currentTask s) s)).

(** [this._server.send([action, code, contextId])] *)
Definition send_task : M unit :=
  s <- get ;;
  match _lastTask s with
  | Some t => emit (Sent (action t) (code t) (_lastContextId s))
  | None => throw TypeError
  end.

(** [_runNow], given [_onMessage]. *)
Definition runNow_with (onMessage : Message -> M unit) (task : Task) : M unit :=
  modify (set_currentTask (Some task)) ;;
  modify (fun s => set_lastContextId (_lastContextId s + 1) s) ;;
  modify (fun s => set_lastTask (_currentTask s) s) ;;
  s <- get ;;
  match _lastTask s with
  | None => throw TypeError
  | Some lastTask =>
      modify (set_contextTable (<[_lastContextId s := lastTask]> (_contextTable s))) ;;
      emit (Dispatched (_lastContextId s) (task_ref lastTask)) ;;
      call_if_present beforeRun_ (beforeRun lastTask) Arg_none ;;
      match transpile s with
      | Some transpile_ =>
          if Action_eqb (action lastTask) Action_run then
            match transpile_ (code lastTask) with
            | Returns transpiledCode =>
                modify (set_task_code transpiledCode) ;;
                send_task
            | Throws error =>
                e <- lift (error_of_thrown error) ;;
                onMessage
                  {| msg_id := None; msg_end := false; msg_log := None;
                     msg_stdout := None; msg_stderr := None;
                     msg_error := Some e; msg_mime := None;
                     msg_names := None; msg_inspection := None;
                     msg_doc := None |}
            end
          else send_task
      | None => send_task
      end
  end.

(** [_runNow] and [_onMessage] call each other: a transpiler that
    throws makes [_runNow] route an error message, and routing a result
    to the current task makes [_onMessage] run the head of the queue.
    Every round takes a task off the queue; [fuel] bounds the rounds. *)
Fixpoint runNow_fuel (fuel : nat) (task : Task) : M unit :=
  match fuel with
  | O => out_of_fuel
  | S fuel' => runNow_with (onMessage_with (runNow_fuel fuel')) task
  end.

(** Enough fuel for the queue as it is. *)
Definition fuel_for (s : Session) : nat := S (S (length (_tasks s))).

Definition _runNow (task : Task) : M unit :=
  fun s => runNow_fuel (fuel_for s) task s.

Definition _onMessage (message : Message) : M unit :=
  fun s => onMessage_with (runNow_fuel (fuel_for s)) message s.

Definition _run (task : Task) : M unit := run_with _runNow task.

(** ** The public methods *)

Definition execute (code : jsstring) (callbacks : option Callbacks) : M unit :=
  r <- fresh ;;
  _run {| task_ref := r; action := Action_run; code := code;
          onSuccess := option_map OnSuccess_user (cb callbacks cb_onSuccess);
          onError := cb callbacks cb_onError;
          beforeRun := cb callbacks cb_beforeRun;
          afterRun := cb callbacks cb_afterRun;
          onStdout := cb callbacks cb_onStdout;
          onStderr := cb callbacks cb_onStderr |}.

Definition complete (code : jsstring) (cursorPos : Z)
    (callbacks : option Callbacks) : M unit :=
  cell <- fresh ;;
  modify (fun s => set_heap_matchList (<[cell := []]> (heap_matchList s)) s) ;;
  expression <- lift (parseExpression code cursorPos) ;;
  match expression with
  | None =>
      call_if_present beforeRun_ (cb callbacks cb_beforeRun) Arg_none ;;
      call_if_present onSuccess_ (cb callbacks cb_onSuccess)
        (Arg_completion
           {| list_ := []; code_ := code; cursorPos_ := cursorPos;
              matchedText_ := []; cursorStart := cursorPos;
              cursorEnd := cursorPos |}) ;;
      call_if_present afterRun_ (cb callbacks cb_afterRun) Arg_none
  | Some expression =>
      r <- fresh ;;
      _run {| task_ref := r; action := Action_getAllPropertyNames;
              code := if negb (truthy (scope expression)) then js "global"
                      else scope expression;
              onSuccess := Some (OnSuccess_complete cell expression code
                                   cursorPos callbacks);
              onError := cb callbacks cb_onError;
              beforeRun := cb callbacks cb_beforeRun;
              afterRun := cb callbacks cb_afterRun;
              onStdout := cb callbacks cb_onStdout;
              onStderr := cb callbacks cb_onStderr |}
  end.

Definition inspect (code : jsstring) (cursorPos : Z)
    (callbacks : option Callbacks) : M unit :=
  expression <- lift (parseExpression code cursorPos) ;;
  match expression with
  | None =>
      call_if_present beforeRun_ (cb callbacks cb_beforeRun) Arg_none ;;
      call_if_present onSuccess_ (cb callbacks cb_onSuccess)
        (Arg_message
           (set_inspection empty_message
              {| insp_code := Some code; insp_cursorPos := Some cursorPos;
                 insp_matchedText := Some []; insp_string := [];
                 insp_type := []; constructorList := None;
                 insp_length := None |})) ;;
      call_if_present afterRun_ (cb callbacks cb_afterRun) Arg_none
  | Some expression =>
      cell <- fresh ;;
      r <- fresh ;;
      _run {| task_ref := r; action := Action_inspect;
              code := matchedText expression;
              onSuccess := Some (OnSuccess_inspect cell expression code
                                   cursorPos callbacks);
              onError := cb callbacks cb_onError;
              beforeRun := cb callbacks cb_beforeRun;
              afterRun := None;
              onStdout := cb callbacks cb_onStdout;
              onStderr := cb callbacks cb_onStderr |}
  end.

(** [fork(paths.server, this._config)] and
    [this._server.on("message", this._onMessage.bind(this))]. *)
Definition forked (c : Config) : Server :=
  {| srv_options := c; srv_on_message := true; srv_on_exit := [] |}.

(** The constructor, [Session.call(this, nelConfig)]: it writes every
    field of the session; the heap outside the object stays. [debug] is
    [global.DEBUG]. *)
Definition Session_call (debug : bool) (nelConfig : NelConfig) : M unit :=
  let config := {| cwd := nel_cwd nelConfig; stdio_debug := debug |} in
  modify (fun s =>
    {| transpile := nel_transpile nelConfig;
       _tasks := [];
       _currentTask := None;
       _contextTable := ∅;
       _lastContextId := 0;
       _lastTask := None;
       _config := config;
       _server := forked config;
       _killed := false;
       heap_next := heap_next s;
       heap_matchList := heap_matchList s;
       heap_inspectionResult := heap_inspectionResult s |}) ;;
  emit (Forked config).

(** [signal || "SIGTERM"] *)
Definition signal_or_SIGTERM (signal : option jsstring) : jsstring :=
  match signal with
  | Some sg => if truthy sg then sg else js "SIGTERM"
  | None => js "SIGTERM"
  end.

Definition kill (signal : option jsstring) (killCB : option KillCB) : M unit :=
  modify (set_killed true) ;;
  s <- get ;;
  modify (set_server {| srv_options := srv_options (_server s);
                        srv_on_message := false; srv_on_exit := [] |}) ;;
  emit (Signalled (signal_or_SIGTERM signal)) ;;
  modify (set_server {| srv_options := srv_options (_server s);
                        srv_on_message := false;
                        srv_on_exit := [killCB] |}).

Definition restart (signal : option jsstring) (restartCB : option UserFn) : M unit :=
  kill (Some (signal_or_SIGTERM signal)) (Some (KillCB_restart restartCB)).

(** ** What the server does to the session *)

(** [killCB(code, signal)] *)
Definition call_killCB (debug : bool) (killCB : KillCB) (code : option Z)
    (signal : option jsstring) : M unit :=
  match killCB with
  | KillCB_user f => emit (Called killCB_ f (Arg_exit code signal))
  | KillCB_restart restartCB =>
      s <- get ;;
      Session_call debug (Config_as_nelConfig (_config s)) ;;
      call_if_present restartCB_ restartCB (Arg_exit code signal)
  end.

(** The listeners that were on the server when it exited, in order. *)
Fixpoint run_exit_listeners (debug : bool) (ls : list (option KillCB))
    (code : option Z) (signal : option jsstring) : M unit :=
  match ls with
  | [] => ret tt
  | killCB :: rest =>
      match killCB with
      | Some f => call_killCB debug f code signal
      | None => ret tt
      end ;;
      run_exit_listeners debug rest code signal
  end.

(** The server of the session exits. *)
Definition server_exit (debug : bool) (code : option Z) (signal : option jsstring)
  : M unit :=
  s <- get ;;
  run_exit_listeners debug (srv_on_exit (_server s)) code signal.

(** The server of the session sends a message. *)
Definition server_message (message : Message) : M unit :=
  s <- get ;;
  if srv_on_message (_server s) then _onMessage message else ret tt.

End Session.

(** [new Session(nelConfig)] on a heap where nothing is allocated. *)
Definition unallocated : Session :=
  {| transpile := None; _tasks := []; _currentTask := None;
     _contextTable := ∅; _lastContextId := 0; _lastTask := None;
     _config := {| cwd := None; stdio_debug := false |};
     _server := {| srv_options := {| cwd := None; stdio_debug := false |};
                   srv_on_message := false; srv_on_exit := [] |};
     _killed := false; heap_next := O; heap_matchList := ∅;
     heap_inspectionResult := ∅ |}.

Definition new_Session (debug : bool) (nelConfig : NelConfig) : Session :=
  (Session_call debug nelConfig unallocated).1.1.

(** ** A session's life: calls of the user, messages of the server *)

Inductive Op :=
| Op_execute (code : jsstring) (callbacks : option Callbacks)
| Op_complete (code : jsstring) (cursorPos : Z) (callbacks : option Callbacks)
| Op_inspect (code : jsstring) (cursorPos : Z) (callbacks : option Callbacks)
| Op_kill (signal : option jsstring) (killCB : option UserFn)
| Op_message (message : Message).

(** What the session did: the context ids given to tasks, the tasks
    submitted, the context ids sent to the server, the context ids
    ended. *)
Definition dispatched (tr : list Event) : list (Z * nat) :=
  omap (fun e => match e with Dispatched i r => Some (i, r) | _ => None end) tr.

Definition submitted (tr : list Event) : list nat :=
  omap (fun e => match e with Submitted r => Some r | _ => None end) tr.

Definition sent_ids (tr : list Event) : list Z :=
  omap (fun e => match e with Sent _ _ i => Some i | _ => None end) tr.

Definition ended_ids (tr : list Event) : list Z :=
  omap (fun e => match e with Ended (Some i) => Some i | _ => None end) tr.

(** The tasks sent to the server that still wait for the message that
    ends their context. *)
Definition outstanding (tr : list Event) : list Z :=
  filter (fun i => i ∉ ended_ids tr) (sent_ids tr).

(** [1, 2, ..., n] *)
Definition ids_upto (n : nat) : list Z := List.map Z.of_nat (seq 1 n).

(** The message is a result for the task in [_currentTask]: not a log,
    not a chunk of output, and its task is the current one. *)
Definition result_for_current (s : Session) (m : Message) : bool :=
  negb (truthy_opt (msg_log m)) &&
  negb (truthy_opt (msg_stdout m)) &&
  negb (truthy_opt (msg_stderr m)) &&
  match message_task s (msg_id m) with
  | Some task => is_current task (_currentTask s)
  | None => false
  end.

Section Life.

Variable doc : jsstring -> option Documentation.

Definition step (op : Op) : M unit :=
  match op with
  | Op_execute code callbacks => execute doc code callbacks
  | Op_complete code cursorPos callbacks => complete doc code cursorPos callbacks
  | Op_inspect code cursorPos callbacks => inspect doc code cursorPos callbacks
  | Op_kill signal killCB => kill signal (option_map KillCB_user killCB)
  | Op_message message => server_message doc message
  end.

(** The operations in order; an exception of one of them is the
    caller's to handle, and the session goes on from the state it was
    left in. *)
Fixpoint run_ops (ops : list Op) (s : Session) : Session * list Event :=
  match ops with
  | [] => (s, [])
  | op :: ops' =>
      let '(s1, ev1, _) := step op s in
      let '(s2, ev2) := run_ops ops' s1 in
      (s2, ev1 ++ ev2)
  end.

End Life.

(** The first delivery of a completion, on strings: what [matchList]
    holds at the end of [task.onSuccess]. *)
Definition completion_list (expression : Expression) (names : list jsstring)
  : list jsstring :=
  let l := if negb (truthy (scope expression))
           then names ++ javascriptKeywords else names in
  let l := if truthy (selector expression)
           then List.filter (starts_with (selector expression)) l else l in
  let left := scope expression ++ leftOp expression in
  let right := rightOp expression in
  if truthy left || truthy right
  then List.map (fun e => left ++ e ++ right) l else l.

(** ** Vocabulary of the statements *)

(** What holds of the state, the events and the outcome of [m] run
    from [s]. *)
Definition post {A} (m : M A) (s : Session)
    (Q : Session -> list Event -> completion A -> Prop) : Prop :=
  Q (m s).1.1 (m s).1.2 (m s).2.

(** Every event of [m], from whatever state, satisfies [P]. *)
Definition emits {A} (P : Event -> Prop) (m : M A) : Prop :=
  forall s, Forall P (m s).1.2.

(** A call of [onStdout] or [onStderr] with a chunk of output. *)
Definition is_stream_call (e : Event) : Prop :=
  match e with
  | Called onStdout_ _ (Arg_data _) => True
  | Called onStderr_ _ (Arg_data _) => True
  | _ => False
  end.

(** Anything but a call of [onStdout]. *)
Definition not_onStdout (e : Event) : Prop :=
  match e with
  | Called onStdout_ _ _ => False
  | _ => True
  end.

(** ** Sample inputs *)

(** A documentation dictionary without entries. *)
Definition no_doc : jsstring -> option Documentation := fun _ => None.

(** Callbacks named 1 to 6. *)
Definition all_callbacks : Callbacks :=
  {| cb_onSuccess := Some 1%nat; cb_onError := Some 2%nat;
     cb_beforeRun := Some 3%nat; cb_afterRun := Some 4%nat;
     cb_onStdout := Some 5%nat; cb_onStderr := Some 6%nat |}.

Definition only_onSuccess (f : UserFn) : Callbacks :=
  {| cb_onSuccess := Some f; cb_onError := None; cb_beforeRun := None;
     cb_afterRun := None; cb_onStdout := None; cb_onStderr := None |}.

(** A session without transpiler. *)
Definition plain_session : Session :=
  new_Session false {| nel_cwd := None; nel_transpile := None |}.

(** A transpiler that throws [error] whatever the code. *)
Definition throwing (error : Thrown) : Transpiler := fun _ => Throws error.

(** [throw "boom"] and [throw new Error("bad")] (with a one-line stack). *)
Definition boom : Thrown := Thrown_string (js "boom").

Definition bad : Thrown :=
  Thrown_object (Some (js "Error")) (Some (js "bad")) (Some (js "Error: bad")).

Definition session_with (t : Transpiler) : Session :=
  new_Session false {| nel_cwd := None; nel_transpile := Some t |}.

(** A success message with a payload for an execution request. *)
Definition mime_message (contextId : Z) (endMessage : bool) : Message :=
  {| msg_id := Some contextId; msg_end := endMessage; msg_log := None;
     msg_stdout := None; msg_stderr := None; msg_error := None;
     msg_mime := Some [(js "text/plain", js "1")]; msg_names := None;
     msg_inspection := None; msg_doc := None |}.

Definition names_message (contextId : Z) (names : list jsstring) : Message :=
  {| msg_id := Some contextId; msg_end := true; msg_log := None;
     msg_stdout := None; msg_stderr := None; msg_error := None;
     msg_mime := None; msg_names := Some names;
     msg_inspection := None; msg_doc := None |}.

Definition stdout_message (contextId : Z) (data : jsstring) : Message :=
  {| msg_id := Some contextId; msg_end := true; msg_log := None;
     msg_stdout := Some data; msg_stderr := None; msg_error := None;
     msg_mime := None; msg_names := None;
     msg_inspection := None; msg_doc := None |}.

(** The session after [execute("x", callbacks)] with all six callbacks. *)
Definition busy_session : Session :=
  (execute no_doc (js "x") (Some all_callbacks) plain_session).1.1.

(** ** The scheduler's invariant *)

(** An event that is neither a submission, nor a dispatch, nor a
    message to the server. *)
Definition quiet (e : Event) : Prop :=
  match e with
  | Submitted _ | Dispatched _ _ | Sent _ _ _ => False
  | _ => True
  end.

(** The invariant, on what it depends on: the last context id, the
    tasks submitted and not yet dispatched, the allocator, and the
    dispatches, submissions and sends so far.
    - the context ids given out are 1, 2, ..., and the last one is in
      [_lastContextId];
    - the tasks dispatched, followed by the tasks that wait, are the
      tasks submitted, in the order of submission;
    - the context ids sent to the server are, in order, among those
      given out;
    - the tasks submitted are distinct objects. *)
Record Ghost (lastContextId : Z) (waiting : list nat) (next : nat)
    (D : list (Z * nat)) (Sub : list nat) (Snt : list Z) : Prop := {
  ghost_ids : List.map fst D = ids_upto (length D);
  ghost_last : lastContextId = Z.of_nat (length D);
  ghost_fifo : List.map snd D ++ waiting = Sub;
  ghost_sent : sublist Snt (List.map fst D);
  ghost_fresh : Forall (fun r => (r < next)%nat) Sub;
  ghost_nodup : NoDup Sub
}.

(** The invariant of a session [s] that has emitted [tr]: the tasks
    that wait are those of the queue, and the queue is empty when no
    task is current. *)
Definition Inv (s : Session) (tr : list Event) : Prop :=
  Ghost (_lastContextId s) (List.map task_ref (_tasks s)) (heap_next s)
    (dispatched tr) (submitted tr) (sent_ids tr) /\
  (_currentTask s = None -> _tasks s = []).

(** The same on entry to [_runNow task]: [task] has been submitted and
    is ahead of the queue. *)
Definition Pre (s : Session) (tr : list Event) (task : Task) : Prop :=
  Ghost (_lastContextId s) (task_ref task :: List.map task_ref (_tasks s))
    (heap_next s) (dispatched tr) (submitted tr) (sent_ids tr).

(** Between the dispatch of a task and the message to the server: the
    invariant, and the last context id given out is not yet sent. *)
Definition Mid (s : Session) (tr : list Event) : Prop :=
  Inv s tr /\
  is_Some (_currentTask s) /\
  exists D0 r,
    dispatched tr = D0 ++ [(_lastContextId s, r)] /\
    sublist (sent_ids tr) (List.map fst D0).

(** What holds of the state, the whole trace and the outcome of [m] run
    from [s] after the events [tr]. *)
Definition tpost {A} (m : M A) (s : Session) (tr : list Event)
    (Q : Session -> list Event -> completion A -> Prop) : Prop :=
  post m s (fun s' ev r => Q s' (tr ++ ev) r).

(** [rn] is a [_runNow] that restores the invariant, does not lengthen
    the queue, and has fuel for a queue shorter than [n]. *)
Definition runNow_ok (rn : Task -> M unit) (n : nat) : Prop :=
  forall task s tr,
    Pre s tr task -> (length (_tasks s) < n)%nat ->
    tpost (rn task) s tr (fun s' tr' r =>
      Inv s' tr' /\ r <> OutOfFuel /\
      (length (_tasks s') <= length (_tasks s))%nat).

(** A result that is not an error may make a closure of [inspect]
    submit one more task. *)
Definition may_grow (m : Message) : nat :=
  match msg_error m with
  | Some _ => 0%nat
  | None => 1%nat
  end.

(** Two tasks executed, and a result for the first that does not end
    its context. *)
Definition two_submissions : list Op :=
  [ Op_execute (js "a") (Some all_callbacks);
    Op_execute (js "b") (Some all_callbacks);
    Op_message (mime_message 1 false) ].

(** No task has been dispatched and none has been sent. *)
Definition silent (tr : list Event) : Prop :=
  dispatched tr = [] /\ sent_ids tr = [].

(** Nothing has been dispatched or sent and [c] is the current task. *)
Definition calm (c : Task) (s : Session) (tr : list Event)
    (r : completion unit) : Prop :=
  silent tr /\ _currentTask s = Some c.

(** ** Vocabulary for the parser's results *)

(** The four pairs of operators [parseExpression] returns. *)
Definition operator_pair (leftOp rightOp : list N) : Prop :=
  (leftOp = [] /\ rightOp = []) \/
  (leftOp = js "." /\ rightOp = []) \/
  (leftOp = [91%N; 34%N] /\ rightOp = [34%N; 93%N]) \/
  (leftOp = js "['" /\ rightOp = js "']").

(** What [parseExpression] says of the text [before] the cursor when
    it returns the expression [e]. *)
Record parsed (before : list N) (e : Expression) : Prop := {
  parsed_text : matchedText e = scope e ++ leftOp e ++ selector e;
  parsed_before : exists pre, before = pre ++ matchedText e;
  parsed_operators : operator_pair (leftOp e) (rightOp e);
  parsed_scope :
    if truthy (leftOp e)
    then matches complexIdentifierRE (scope e) = true
    else scope e = [];
  parsed_selector :
    selector e = [] \/ matches simpleIdentifierRE (selector e) = true
}.

(** ** Vocabulary for the life cycle *)

(** A session after [kill]: [_killed] is set and [_onMessage] no longer
    listens to the server. *)
Definition dead (s : Session) : Prop :=
  _killed s = true /\ srv_on_message (_server s) = false.

(** The scheduler's fields of two sessions are the same. *)
Definition same_schedule (a b : Session) : Prop :=
  _tasks a = _tasks b /\ _currentTask a = _currentTask b /\
  _contextTable a = _contextTable b /\ _lastContextId a = _lastContextId b /\
  _lastTask a = _lastTask b.

Definition is_execute_or_message (op : Op) : Prop :=
  match op with
  | Op_execute _ _ | Op_message _ => True
  | _ => False
  end.

(** ** Vocabulary for a server that answers every task *)

(** The task object [r] that [execute(code, callbacks)] builds. *)
Definition execute_task (r : nat) (code : jsstring) (callbacks : option Callbacks)
  : Task :=
  {| task_ref := r; action := Action_run; code := code;
     onSuccess := option_map OnSuccess_user (cb callbacks cb_onSuccess);
     onError := cb callbacks cb_onError;
     beforeRun := cb callbacks cb_beforeRun;
     afterRun := cb callbacks cb_afterRun;
     onStdout := cb callbacks cb_onStdout;
     onStderr := cb callbacks cb_onStderr |}.

(** The session is busy with task [t] under context id [k], the tasks
    [q] wait, and [k] is the only context. *)
Definition serving (t : Task) (q : list Task) (k : Z) (s : Session) : Prop :=
  _currentTask s = Some t /\ _tasks s = q /\
  _contextTable s = {[k := t]} /\ _lastContextId s = k /\
  _lastTask s = Some t /\ transpile s = None /\
  srv_on_message (_server s) = true /\ _killed s = false.

(** Nothing runs, nothing waits, no context is open. *)
Definition at_rest (k : Z) (s : Session) : Prop :=
  _currentTask s = None /\ _tasks s = [] /\
  _contextTable s = ∅ /\ _lastContextId s = k /\
  transpile s = None /\
  srv_on_message (_server s) = true /\ _killed s = false.

(** [execute] called for each request, in order. *)
Definition executes (reqs : list (list N * option Callbacks)) : list Op :=
  List.map (fun req => Op_execute req.1 req.2) reqs.

(** The server's final results for the contexts [first], [first + 1],
    ...: one success message with the [end] flag each. *)
Fixpoint results (first : Z) (n : nat) : list Op :=
  match n with
  | O => []
  | S n' => Op_message (mime_message first true) :: results (first + 1) n'
  end.

(** The calls of [onSuccess] and the messages to the server in a
    trace, in order. *)
Definition onSuccess_calls (tr : list Event) : list (UserFn * Argument) :=
  omap (fun e => match e with
                 | Called onSuccess_ f a => Some (f, a)
                 | _ => None
                 end) tr.

Definition sent_messages (tr : list Event) : list (Action * list N * Z) :=
  omap (fun e => match e with
                 | Sent a c i => Some (a, c, i)
                 | _ => None
                 end) tr.

(** What is expected of requests answered in order: the request with
    context id [k] has its [onSuccess], if any, called with the result
    for [k], and its code sent under [k]. *)
Fixpoint expected_calls (first : Z) (reqs : list (list N * option Callbacks))
  : list (UserFn * Argument) :=
  match reqs with
  | [] => []
  | req :: rest =>
      match cb req.2 cb_onSuccess with
      | Some f => [(f, Arg_message (delete_id_end (mime_message first true)))]
      | None => []
      end ++ expected_calls (first + 1) rest
  end.

Fixpoint expected_sends (first : Z) (reqs : list (list N * option Callbacks))
  : list (Action * list N * Z) :=
  match reqs with
  | [] => []
  | req :: rest => (Action_run, req.1, first) :: expected_sends (first + 1) rest
  end.

(** The task objects of requests executed from allocator state [h]. *)
Fixpoint tasks_from (h : nat) (reqs : list (list N * option Callbacks))
  : list Task :=
  match reqs with
  | [] => []
  | req :: rest => execute_task h req.1 req.2 :: tasks_from (S h) rest
  end.

(** The events of a dispatch without transpiler. *)
Definition dispatch_events (k : Z) (t : Task) : list Event :=
  [Dispatched k (task_ref t)] ++
  match beforeRun t with
  | Some b => [Called beforeRun_ b Arg_none]
  | None => []
  end ++ [Sent (action t) (code t) k].

(** The state after the dispatch of [t] without transpiler. *)
Definition dispatched_state (t : Task) (s : Session) : Session :=
  set_contextTable (<[_lastContextId s + 1 := t]> (_contextTable s))
    (set_lastTask (Some t)
       (set_lastContextId (_lastContextId s + 1)
          (set_currentTask (Some t) s))).

(** The events of the routing of the final result for context [k] to
    the task [t] of an [execute]. *)
Definition result_events (k : Z) (t : Task) : list Event :=
  match onSuccess t with
  | Some (OnSuccess_user f) =>
      [Called onSuccess_ f (Arg_message (delete_id_end (mime_message k true)))]
  | _ => []
  end ++ [Ended (Some k)] ++
  match afterRun t with
  | Some a => [Called afterRun_ a Arg_none]
  | None => []
  end.

(** The trace of [if (f) { f(arg); }]. *)
Definition call_events (p : Property) (f : option UserFn) (arg : Argument)
  : list Event :=
  match f with
  | Some g => [Called p g arg]
  | None => []
  end.

(** The completion that [complete] gives for code it cannot parse. *)
Definition no_completion (code : jsstring) (cursorPos : Z) : Completion :=
  {| list_ := []; code_ := code; cursorPos_ := cursorPos; matchedText_ := [];
     cursorStart := cursorPos; cursorEnd := cursorPos |}.

(** The inspection that [inspect] gives for code it cannot parse. *)
Definition no_inspection (code : jsstring) (cursorPos : Z) : Message :=
  set_inspection empty_message
    {| insp_code := Some code; insp_cursorPos := Some cursorPos;
       insp_matchedText := Some []; insp_string := [];
       insp_type := []; constructorList := None;
       insp_length := None |}.

(** A transpiler that puts the code in parentheses. *)
Definition parenthesise : Transpiler :=
  fun code => Returns (js "(" ++ code ++ js ")").

(** The events of the dispatch of the head of the queue [q] under the
    context id [k], if there is one. *)
Definition next_dispatch (k : Z) (q : list Task) : list Event :=
  match q with
  | [] => []
  | t :: _ => dispatch_events k t
  end.

(** The state once the task served under [k] is done: the head of [q]
    is served under [k + 1], or the session is at rest. *)
Definition moved_on (q : list Task) (k : Z) (s : Session) : Prop :=
  match q with
  | [] => at_rest k s
  | t :: q' => serving t q' (k + 1) s
  end.

(** A message that is neither a log nor output, and is the last of
    context [k]. *)
Definition final_for (k : Z) (m : Message) : Prop :=
  msg_id m = Some k /\ msg_end m = true /\
  truthy_opt (msg_log m) = false /\ truthy_opt (msg_stdout m) = false /\
  truthy_opt (msg_stderr m) = false.

(** An error message: [ReferenceError: x is not defined]. *)
Definition error_message (contextId : Z) : Message :=
  {| msg_id := Some contextId; msg_end := true; msg_log := None;
     msg_stdout := None; msg_stderr := None;
     msg_error := Some {| ename := js "ReferenceError";
                          evalue := js "x is not defined";
                          traceback := TracebackLines [] |};
     msg_mime := None; msg_names := None;
     msg_inspection := None; msg_doc := None |}.

(** The session once [execute("x", all_callbacks)] has been answered. *)
Definition answered_session : Session :=
  (run_ops no_doc [Op_message (mime_message 1 true)] busy_session).1.

(** The constructors of typed arrays (ecma-262). *)
Definition typed_arrays : list jsstring :=
  List.map js
    [ "Int8Array"; "Uint8Array"; "Uint8ClampedArray"; "Int16Array";
      "Uint16Array"; "Int32Array"; "Uint32Array"; "Float32Array";
      "Float64Array"; "BigInt64Array"; "BigUint64Array" ]%string.

(** A dictionary with one entry, for [Error.prototype.message]. *)
Definition error_message_doc : Documentation :=
  {| description := js "The message property is a human-readable description of the error.";
     usage := None;
     url := js "https://developer.mozilla.org/en-US/docs/Web/JavaScript/Reference/Global_Objects/Error/message" |}.

Definition only_Error_message : jsstring -> option Documentation :=
  fun name =>
    if str_eqb name (js "Error.prototype.message") then Some error_message_doc
    else None.

(** The task object [r] that [complete(code, cursorPos, callbacks)]
    builds for the expression [e]; [cell] is its [matchList]. *)
Definition complete_task (r cell : nat) (e : Expression) (code : jsstring)
    (cursorPos : Z) (callbacks : option Callbacks) : Task :=
  {| task_ref := r; action := Action_getAllPropertyNames;
     code := if negb (truthy (scope e)) then js "global" else scope e;
     onSuccess := Some (OnSuccess_complete cell e code cursorPos callbacks);
     onError := cb callbacks cb_onError;
     beforeRun := cb callbacks cb_beforeRun;
     afterRun := cb callbacks cb_afterRun;
     onStdout := cb callbacks cb_onStdout;
     onStderr := cb callbacks cb_onStderr |}.

(** The first task object that [inspect(code, cursorPos, callbacks)]
    builds for the expression [e]; [cell] is its [inspectionResult]. *)
Definition inspect_task (r cell : nat) (e : Expression) (code : jsstring)
    (cursorPos : Z) (callbacks : option Callbacks) : Task :=
  {| task_ref := r; action := Action_inspect; code := matchedText e;
     onSuccess := Some (OnSuccess_inspect cell e code cursorPos callbacks);
     onError := cb callbacks cb_onError;
     beforeRun := cb callbacks cb_beforeRun;
     afterRun := None;
     onStdout := cb callbacks cb_onStdout;
     onStderr := cb callbacks cb_onStderr |}.

(** The second one, for the scope of [e]. *)
Definition inspect_scope_task (r cell : nat) (e : Expression)
    (callbacks : option Callbacks) : Task :=
  {| task_ref := r; action := Action_inspect; code := scope e;
     onSuccess := Some (OnSuccess_inspect_scope cell e callbacks);
     onError := cb callbacks cb_onError;
     beforeRun := None;
     afterRun := cb callbacks cb_afterRun;
     onStdout := cb callbacks cb_onStdout;
     onStderr := cb callbacks cb_onStderr |}.

(** The result of the server for [inspect], with the code, the cursor
    and the matched text that the session adds. *)
Definition inspection_of (code : jsstring) (cursorPos : Z) (e : Expression)
    (m : Message) (i : Inspection) : Message :=
  set_inspection (delete_id_end m)
    {| insp_code := Some code; insp_cursorPos := Some cursorPos;
       insp_matchedText := Some (matchedText e);
       insp_string := insp_string i; insp_type := insp_type i;
       constructorList := constructorList i;
       insp_length := insp_length i |}.

(** [if (doc) { inspectionResult.doc = doc; }] *)
Definition with_doc (d : option Documentation) (m : Message) : Message :=
  match d with
  | Some d => set_doc m d
  | None => m
  end.

(** A result of the server for [inspect]. *)
Definition inspection_message (contextId : Z) (i : Inspection) : Message :=
  {| msg_id := Some contextId; msg_end := true; msg_log := None;
     msg_stdout := None; msg_stderr := None; msg_error := None;
     msg_mime := None; msg_names := None;
     msg_inspection := Some i; msg_doc := None |}.

Definition a_string : Inspection :=
  {| insp_code := None; insp_cursorPos := None; insp_matchedText := None;
     insp_string := js "'abc'"; insp_type := js "String";
     constructorList := Some [js "String"; js "Object"];
     insp_length := Some 3 |}.

Definition a_number : Inspection :=
  {| insp_code := None; insp_cursorPos := None; insp_matchedText := None;
     insp_string := js "3"; insp_type := js "Number";
     constructorList := Some [js "Number"; js "Object"];
     insp_length := None |}.

(** The error that [_runNow] reports for a thrown object with a
    message: the name, or ["object"] for want of one; the message; the
    lines of the stack, or [""] for want of one. *)
Definition reported (name : option jsstring) (message : jsstring)
    (stack : option jsstring) : ErrorResult :=
  {| ename := match name with
              | Some n => if truthy n then n else js "object"
              | None => js "object"
              end;
     evalue := message;
     traceback := match stack with
                  | Some st => if truthy st then TracebackLines (split_lines st)
                               else TracebackText []
                  | None => TracebackText []
                  end |}.

(** The message that [_runNow] makes of an error. *)
Definition error_only (e : ErrorResult) : Message :=
  {| msg_id := None; msg_end := false; msg_log := None;
     msg_stdout := None; msg_stderr := None;
     msg_error := Some e; msg_mime := None;
     msg_names := None; msg_inspection := None; msg_doc := None |}.

(** [lines.join("\n")] *)
Fixpoint join_lines (lines : list jsstring) : jsstring :=
  match lines with
  | [] => []
  | [l] => l
  | l :: rest => l ++ 10%N :: join_lines rest
  end.

(** A success message with nothing in it. *)
Definition bare_message (contextId : Z) : Message :=
  {| msg_id := Some contextId; msg_end := true; msg_log := None;
     msg_stdout := None; msg_stderr := None; msg_error := None;
     msg_mime := None; msg_names := None;
     msg_inspection := None; msg_doc := None |}.

(** The sessions once [complete("foo.b", 5)] and [inspect("x", 1)] have
    been called on a new session. *)
Definition completing_session : Session :=
  (complete no_doc (js "foo.b") 5 (Some all_callbacks) plain_session).1.1.

Definition inspecting_session : Session :=
  (inspect no_doc (js "x") 1 (Some all_callbacks) plain_session).1.1.

(** ** Vocabulary for the in-flight slot *)

(** The task object [t] has been allocated. *)
Definition allocated (s : Session) (t : Task) : Prop :=
  (task_ref t < heap_next s)%nat.

(** The tasks that the session holds, as last task, in the context
    table and in the queue, are allocated objects. *)
Record Stored (s : Session) : Prop := {
  stored_last : forall t, _lastTask s = Some t -> allocated s t;
  stored_table : forall i t, _contextTable s !! i = Some t -> allocated s t;
  stored_queue : Forall (allocated s) (_tasks s)
}.

(** The transpiler, if there is one, returns whatever the code. *)
Definition transpiler_returns (t : option Transpiler) : Prop :=
  match t with
  | None => True
  | Some f => forall code, exists code', f code = Returns code'
  end.

(** The session has the transpiler [T]; when [T] returns, every task
    dispatched so far has been sent under its context id. *)
Definition Sends (T : option Transpiler) (s : Session) (tr : list Event) : Prop :=
  Stored s /\ transpile s = T /\
  (transpiler_returns T -> sent_ids tr = List.map fst (dispatched tr)).

(** What an operation that ended in the state [s] leaves of its events
    [ev]: no task was sent, or one task was, the last one dispatched,
    with its action and code, and it is the current task. *)
Definition in_flight (s : Session) (ev : list Event) : Prop :=
  sent_ids ev = [] \/
  exists (t : Task) (i : Z),
    _currentTask s = Some t /\ sent_ids ev = [i] /\
    last (dispatched ev) = Some (i, task_ref t) /\
    In (Sent (action t) (code t) i) ev.

(** The same, where the task is known to be one of [allowed]. *)
Definition flying (allowed : list nat) (s : Session) (ev : list Event)
    (r : completion unit) : Prop :=
  sent_ids ev = [] \/
  exists (t : Task) (i : Z),
    _currentTask s = Some t /\ sent_ids ev = [i] /\
    last (dispatched ev) = Some (i, task_ref t) /\
    In (Sent (action t) (code t) i) ev /\
    In (task_ref t) allowed.

(** No task waits while no task is current. *)
Definition Idle (s : Session) : Prop := _currentTask s = None -> _tasks s = [].

(** [rn] is a [_runNow] that keeps [Sends]. *)
Definition runNow_sends (T : option Transpiler) (rn : Task -> M unit) : Prop :=
  forall task s tr,
    Sends T s tr -> allocated s task ->
    tpost (rn task) s tr (fun s' tr' r => Sends T s' tr').

(** ** parseExpression is total *)

Example parse_foo_b :
  parseExpression (js "foo.b") 5 =
  Normal (Some {| matchedText := js "foo.b"; scope := js "foo";
                  leftOp := js "."; selector := js "b"; rightOp := js "" |}).
Proof. vm_compute. reflexivity. Qed.


(** C10. For every string [code] and every integer [cursorPos],
    negative or past the end included, [parseExpression] returns
    without throwing: either the marker of an unsupported expression
    ([null]) or a record of the five strings [matchedText], [scope],
    [leftOp], [selector] and [rightOp]. *)
Theorem parseExpression_total (code : jsstring) (cursorPos : Z) :
  parseExpression code cursorPos = Normal None \/
  exists mt sc lo sel ro : jsstring,
    parseExpression code cursorPos =
    Normal (Some {| matchedText := mt; scope := sc; leftOp := lo;
                    selector := sel; rightOp := ro |}).
Proof.
  unfold parseExpression.
  destruct (negb (truthy (slice code 0 cursorPos)) || _); [right; eauto 10|].
  destruct (exec_end simpleIdentifierRE (slice code 0 cursorPos)) as [re|];
    cbn [get_0 get_index cbind].
  - repeat match goal with
           | |- context [if ?b then _ else _] => destruct b
           end;
      cbn [truthy js negb List.map list_ascii_of_string];
      match goal with
      | |- context [exec_end complexIdentifierRE ?e] =>
          destruct (exec_end complexIdentifierRE e); cbn [get_0 get_index cbind]
      | _ => idtac
      end; first [left; reflexivity | right; do 5 eexists; reflexivity].
  - repeat match goal with
           | |- context [if ?b then _ else _] => destruct b
           end;
      cbn [truthy js negb List.map list_ascii_of_string];
      match goal with
      | |- context [exec_end complexIdentifierRE ?e] =>
          destruct (exec_end complexIdentifierRE e); cbn [get_0 get_index cbind]
      | _ => idtac
      end; first [left; reflexivity | right; do 5 eexists; reflexivity].
Qed.

(** ** The completion list *)

Example completeOnSuccess_foo_b :
  completeOnSuccess
    {| matchedText := js "foo.b"; scope := js "foo"; leftOp := js ".";
       selector := js "b"; rightOp := js "" |}
    (js "foo.b") 5 [] (Some [js "bar"; js "baz"; js "qux"]) =
  ([Some (js "foo.bar"); Some (js "foo.baz")],
   Normal {| list_ := [Some (js "foo.bar"); Some (js "foo.baz")];
             code_ := js "foo.b"; cursorPos_ := 5;
             matchedText_ := js "foo.b"; cursorStart := 0; cursorEnd := 5 |}).
Proof. vm_compute. reflexivity. Qed.


Lemma starts_with_nil (e : jsstring) : starts_with [] e = true.
Proof. destruct e; reflexivity. Qed.

Lemma lastIndexOf_0_spec (e p : jsstring) :
  (lastIndexOf_0 e p =? 0) = starts_with p e.
Proof. unfold lastIndexOf_0. destruct (starts_with p e); reflexivity. Qed.

Lemma filter_selector_strings (sel : jsstring) (l : list jsstring) :
  filter_selector sel (List.map Some l) =
  Normal (List.map Some (List.filter (starts_with sel) l)).
Proof.
  induction l as [|e l IH]; [reflexivity|].
  cbn [List.map filter_selector List.filter].
  rewrite lastIndexOf_0_spec, IH.
  destruct (starts_with sel e); reflexivity.
Qed.

Lemma reduce_shortest_strings (p : jsstring) (l : list jsstring) :
  exists m : jsstring, reduce_shortest (Some p) (List.map Some l) = Normal (Some m).
Proof.
  revert p. induction l as [|c l IH]; intros p; cbn [List.map reduce_shortest].
  - eauto.
  - destruct (len p <=? len c); apply IH.
Qed.

Lemma wrap_strings (left right : jsstring) (l : list jsstring) :
  List.map (wrap left right) (List.map Some l) =
  List.map Some (List.map (fun e => left ++ e ++ right) l).
Proof. rewrite !List.map_map. reflexivity. Qed.

Lemma completeOnSuccess_first (expression : Expression) (code : jsstring)
    (cursorPos : Z) (names : list jsstring) :
  exists c : Completion,
    completeOnSuccess expression code cursorPos [] (Some names) =
      (List.map Some (completion_list expression names), Normal c) /\
    list_ c = List.map Some (completion_list expression names) /\
    matchedText_ c = matchedText expression /\
    code_ c = code /\ cursorPos_ c = cursorPos.
Proof.
  remember (completion_list expression names) as target eqn:Et.
  unfold completeOnSuccess. unfold completion_list in Et.
  cbv zeta in *. cbn [concat_arg app].
  set (l0 := if negb (truthy (scope expression))
             then List.map Some names ++ List.map Some javascriptKeywords
             else List.map Some names).
  set (n0 := if negb (truthy (scope expression))
             then names ++ javascriptKeywords else names).
  assert (E0 : l0 = List.map Some n0).
  { subst l0 n0. destruct (negb (truthy (scope expression))); [rewrite List.map_app|]; reflexivity. }
  rewrite E0. clear E0 l0.
  set (n1 := if truthy (selector expression)
             then List.filter (starts_with (selector expression)) n0 else n0).
  assert (E1 : (if truthy (selector expression)
                then filter_selector (selector expression) (List.map Some n0)
                else Normal (List.map Some n0)) = Normal (List.map Some n1)).
  { subst n1. destruct (truthy (selector expression)); [apply filter_selector_strings|reflexivity]. }
  rewrite E1. clear E1.
  set (left := scope expression ++ leftOp expression).
  set (right := rightOp expression).
  remember (if truthy left || truthy right
            then List.map (fun e => left ++ e ++ right) n1 else n1) as n2 eqn:En2.
  assert (E2 : (if truthy left || truthy right
                then List.map (wrap left right) (List.map Some n1)
                else List.map Some n1) = List.map Some n2).
  { subst n2. destruct (truthy left || truthy right); [apply wrap_strings|reflexivity]. }
  rewrite E2. clear E2.
  assert (En : n2 = target) by (subst; reflexivity).
  rewrite <- En. clear En En2 Et target.
  destruct n2 as [|p n2']; cbn [List.map].
  - eexists. cbn [cbind]. repeat split; reflexivity.
  - destruct (reduce_shortest_strings p n2') as [m Hm]. rewrite Hm.
    cbn [cbind]. eexists. repeat split; reflexivity.
Qed.

Lemma truthy_false (s : jsstring) : truthy s = false -> s = [].
Proof. destruct s; [reflexivity|discriminate]. Qed.

(** C5 (as amended). In the success path of [complete], at the first
    delivery, for every parsed expression and every list of names the
    server returns, each name that survives the prefix filter is in the
    delivered list, wrapped as scope + leftOp + name + rightOp. *)
Theorem completion_wraps_with_scope (expression : Expression) (code : jsstring)
    (cursorPos : Z) (names : list jsstring) (e : jsstring) :
  In e names ->
  starts_with (selector expression) e = true ->
  exists c : Completion,
    (completeOnSuccess expression code cursorPos [] (Some names)).2 = Normal c /\
    In (Some (scope expression ++ leftOp expression ++ e ++ rightOp expression))
       (list_ c).
Proof.
  intros Hin Hpre.
  destruct (completeOnSuccess_first expression code cursorPos names)
    as (c & Hc & Hl & _).
  exists c. rewrite Hc. split; [reflexivity|].
  rewrite Hl. apply List.in_map.
  unfold completion_list.
  set (n0 := if negb (truthy (scope expression))
             then names ++ javascriptKeywords else names).
  assert (H0 : In e n0).
  { subst n0. destruct (negb (truthy (scope expression))); [apply List.in_or_app; left|]; exact Hin. }
  set (n1 := if truthy (selector expression)
             then List.filter (starts_with (selector expression)) n0 else n0).
  assert (H1 : In e n1).
  { subst n1. destruct (truthy (selector expression)); [|exact H0].
    apply List.filter_In. split; assumption. }
  destruct (truthy (scope expression ++ leftOp expression)
            || truthy (rightOp expression)) eqn:Hw.
  - rewrite List.app_assoc.
    apply (List.in_map (fun x => (scope expression ++ leftOp expression)
                                  ++ x ++ rightOp expression) _ _ H1).
  - apply orb_false_iff in Hw. destruct Hw as [Hl0 Hr0].
    apply truthy_false in Hl0. apply truthy_false in Hr0.
    apply List.app_eq_nil in Hl0. destruct Hl0 as [-> ->].
    rewrite Hr0. cbn [app]. rewrite List.app_nil_r. exact H1.
Qed.

(** C5: the claim as stated does not hold. For [foo.b] and the name
    [bar], the delivered list holds [foo.bar]; the name wrapped as
    leftOp + name + rightOp, [.bar], is not in it. *)
Lemma completion_wrap_counterexample :
  exists (expression : Expression) (c : Completion),
    parseExpression (js "foo.b") 5 = Normal (Some expression) /\
    (completeOnSuccess expression (js "foo.b") 5 [] (Some [js "bar"])).2
      = Normal c /\
    In (js "bar") [js "bar"] /\
    starts_with (selector expression) (js "bar") = true /\
    list_ c = [Some (js "foo.bar")] /\
    ~ In (Some (leftOp expression ++ js "bar" ++ rightOp expression)) (list_ c).
Proof.
  eexists. eexists.
  split; [vm_compute; reflexivity|].
  split; [vm_compute; reflexivity|].
  split; [left; reflexivity|].
  split; [reflexivity|].
  split; [reflexivity|].
  vm_compute. intros [H|[]]. discriminate H.
Qed.

Lemma completion_wraps_with_scope_witness :
  In (js "bar") [js "bar"; js "baz"; js "qux"] /\
  starts_with (js "b") (js "bar") = true /\
  exists c : Completion,
    (completeOnSuccess
       {| matchedText := js "foo.b"; scope := js "foo"; leftOp := js ".";
          selector := js "b"; rightOp := js "" |}
       (js "foo.b") 5 [] (Some [js "bar"; js "baz"; js "qux"])).2 = Normal c /\
    In (Some (js "foo" ++ js "." ++ js "bar" ++ js "")) (list_ c).
Proof.
  split; [left; reflexivity|].
  split; [reflexivity|].
  apply (completion_wraps_with_scope
           {| matchedText := js "foo.b"; scope := js "foo"; leftOp := js ".";
              selector := js "b"; rightOp := js "" |}
           (js "foo.b") 5 [js "bar"; js "baz"; js "qux"] (js "bar")).
  - left; reflexivity.
  - reflexivity.
Defined.

(** ** Reasoning about the methods *)

Lemma post_bind {A B} (m : M A) (k : A -> M B) (s : Session)
    (Q : Session -> list Event -> completion B -> Prop) :
  post m s (fun s1 ev1 r1 =>
    match r1 with
    | Normal a => post (k a) s1 (fun s2 ev2 r2 => Q s2 (ev1 ++ ev2) r2)
    | Throw e => Q s1 ev1 (Throw e)
    | OutOfFuel => Q s1 ev1 OutOfFuel
    end) ->
  post (bind m k) s Q.
Proof.
  unfold post, bind. destruct (m s) as [[s1 ev1] [a|e|]]; cbn; auto.
  destruct (k a s1) as [[s2 ev2] r2]; cbn; auto.
Qed.

Lemma post_mono {A} (m : M A) (s : Session)
    (Q Q' : Session -> list Event -> completion A -> Prop) :
  post m s Q -> (forall s' ev r, Q s' ev r -> Q' s' ev r) -> post m s Q'.
Proof. unfold post. auto. Qed.

Lemma post_get_bind {B} (k : Session -> M B) (s : Session)
    (Q : Session -> list Event -> completion B -> Prop) :
  post (k s) s Q -> post (bind get k) s Q.
Proof.
  unfold post, bind, get. destruct (k s s) as [[s2 ev2] r2]; cbn; auto.
Qed.

Lemma post_modify_bind {B} (f : Session -> Session) (k : unit -> M B)
    (s : Session) (Q : Session -> list Event -> completion B -> Prop) :
  post (k tt) (f s) Q -> post (bind (modify f) k) s Q.
Proof.
  unfold post, bind, modify. destruct (k tt (f s)) as [[s2 ev2] r2]; cbn; auto.
Qed.

Lemma post_emit_bind {B} (e : Event) (k : unit -> M B)
    (s : Session) (Q : Session -> list Event -> completion B -> Prop) :
  post (k tt) s (fun s2 ev2 r2 => Q s2 (e :: ev2) r2) ->
  post (bind (emit e) k) s Q.
Proof.
  unfold post, bind, emit. destruct (k tt s) as [[s2 ev2] r2]; cbn; auto.
Qed.

Lemma post_lift_bind {A B} (c : completion A) (k : A -> M B)
    (s : Session) (Q : Session -> list Event -> completion B -> Prop) :
  match c with
  | Normal a => post (k a) s Q
  | Throw e => Q s [] (Throw e)
  | OutOfFuel => Q s [] OutOfFuel
  end ->
  post (bind (lift c) k) s Q.
Proof.
  unfold post, bind, lift. destruct c as [a|e|]; cbn; auto.
  destruct (k a s) as [[s2 ev2] r2]; cbn; auto.
Qed.

Lemma post_call_bind {B} (p : Property) (f : option UserFn) (arg : Argument)
    (k : unit -> M B) (s : Session)
    (Q : Session -> list Event -> completion B -> Prop) :
  post (k tt) s (fun s2 ev2 r2 =>
    Q s2 (match f with Some f => [Called p f arg] | None => [] end ++ ev2) r2) ->
  post (bind (call_if_present p f arg) k) s Q.
Proof.
  unfold post, bind, call_if_present, emit, ret.
  destruct f; destruct (k tt s) as [[s2 ev2] r2]; cbn; auto.
Qed.

Lemma post_call (p : Property) (f : option UserFn) (arg : Argument)
    (s : Session) (Q : Session -> list Event -> completion unit -> Prop) :
  Q s (match f with Some f => [Called p f arg] | None => [] end) (Normal tt) ->
  post (call_if_present p f arg) s Q.
Proof. unfold post, call_if_present, emit, ret. destruct f; cbn; auto. Qed.

Lemma post_ret {A} (a : A) (s : Session)
    (Q : Session -> list Event -> completion A -> Prop) :
  Q s [] (Normal a) -> post (ret a) s Q.
Proof. auto. Qed.

Lemma post_throw {A} (e : JsError) (s : Session)
    (Q : Session -> list Event -> completion A -> Prop) :
  Q s [] (Throw e) -> post (throw e) s Q.
Proof. auto. Qed.

Lemma post_modify (f : Session -> Session) (s : Session)
    (Q : Session -> list Event -> completion unit -> Prop) :
  Q (f s) [] (Normal tt) -> post (modify f) s Q.
Proof. auto. Qed.

Lemma post_emit (e : Event) (s : Session)
    (Q : Session -> list Event -> completion unit -> Prop) :
  Q s [e] (Normal tt) -> post (emit e) s Q.
Proof. auto. Qed.

(** One step of a method: the primitive in front of a bind, or the
    last primitive. *)
Ltac mstep :=
  first
    [ apply post_get_bind
    | apply post_modify_bind
    | apply post_emit_bind
    | apply post_lift_bind
    | apply post_call_bind
    | apply post_call
    | apply post_ret
    | apply post_throw
    | apply post_modify
    | apply post_emit ];
  cbn beta.

Ltac msteps := repeat mstep.

(** *** Events of a method, whatever the state *)

Lemma emits_bind {A B} (P : Event -> Prop) (m : M A) (k : A -> M B) :
  emits P m -> (forall a, emits P (k a)) -> emits P (bind m k).
Proof.
  intros Hm Hk s. specialize (Hm s). unfold bind.
  destruct (m s) as [[s1 ev1] [a|e|]]; cbn in *; auto.
  specialize (Hk a s1). destruct (k a s1) as [[s2 ev2] r2]; cbn in *.
  apply Forall_app; split; assumption.
Qed.

Lemma emits_ret {A} (P : Event -> Prop) (a : A) : emits P (ret a).
Proof. intros s. constructor. Qed.

Lemma emits_get (P : Event -> Prop) : emits P get.
Proof. intros s. constructor. Qed.

Lemma emits_modify (P : Event -> Prop) (f : Session -> Session) :
  emits P (modify f).
Proof. intros s. constructor. Qed.

Lemma emits_throw {A} (P : Event -> Prop) (e : JsError) : emits P (@throw A e).
Proof. intros s. constructor. Qed.

Lemma emits_out_of_fuel {A} (P : Event -> Prop) : emits P (@out_of_fuel A).
Proof. intros s. constructor. Qed.

Lemma emits_lift {A} (P : Event -> Prop) (c : completion A) : emits P (lift c).
Proof. intros s. constructor. Qed.

Lemma emits_emit (P : Event -> Prop) (e : Event) : P e -> emits P (emit e).
Proof. intros H s. repeat constructor. exact H. Qed.

Lemma emits_call (P : Event -> Prop) (p : Property) (f : option UserFn)
    (arg : Argument) :
  (forall g, P (Called p g arg)) -> emits P (call_if_present p f arg).
Proof.
  intros H. destruct f; [apply emits_emit, H|apply emits_ret].
Qed.

Lemma emits_fresh (P : Event -> Prop) : emits P fresh.
Proof.
  unfold fresh. apply emits_bind; [apply emits_get|intros s0].
  apply emits_bind; [apply emits_modify|intros _]. apply emits_ret.
Qed.

(** A method that reads the state to choose what to run. *)
Lemma emits_at {A} (P : Event -> Prop) (m : Session -> M A) :
  (forall s0, emits P (m s0)) -> emits P (fun s => m s s).
Proof. intros H s. apply (H s s). Qed.

Ltac emits_step :=
  lazymatch goal with
  | |- emits _ (ret _) => apply emits_ret
  | |- emits _ get => apply emits_get
  | |- emits _ (modify _) => apply emits_modify
  | |- emits _ (throw _) => apply emits_throw
  | |- emits _ out_of_fuel => apply emits_out_of_fuel
  | |- emits _ (lift _) => apply emits_lift
  | |- emits _ fresh => apply emits_fresh
  | |- emits _ (emit _) => apply emits_emit; exact I
  | |- emits _ (call_if_present _ _ _) => apply emits_call; intros; exact I
  | |- emits _ (bind _ _) => apply emits_bind; [|intros ?]
  end.

(** *** No method but the router's stdout branch calls [onStdout] *)

Ltac emits_case :=
  match goal with
  | |- emits _ (match ?x with _ => _ end) => destruct x
  | |- emits _ (if ?x then _ else _) => destruct x
  | |- emits _ (let '(_, _) := ?x in _) => destruct x
  end.

Ltac emits_auto := repeat first [emits_step | emits_case].

Section Quiet.

Variable doc : jsstring -> option Documentation.

Lemma emits_run_with (rn : Task -> M unit) (task : Task) :
  emits not_onStdout (rn task) -> emits not_onStdout (run_with rn task).
Proof.
  intros H. unfold run_with, _runLater. emits_auto; exact H.
Qed.

Lemma emits_call_onSuccess (rn : Task -> M unit) (h : SuccessHandler)
    (result : Message) :
  (forall t, emits not_onStdout (rn t)) ->
  emits not_onStdout (call_onSuccess doc rn h result).
Proof.
  intros H. unfold call_onSuccess, getDocumentationAndInvokeCallbacks.
  destruct h; emits_auto; try apply emits_run_with; try apply H.
Qed.

Lemma emits_route_result (rn : Task -> M unit) (task : Task)
    (contextId : option Z) (endMessage : bool) (message : Message) :
  (forall t, emits not_onStdout (rn t)) ->
  emits not_onStdout (route_result doc rn task contextId endMessage message).
Proof.
  intros H. unfold route_result, handle_result, handle_end, run_next.
  emits_auto; try apply emits_call_onSuccess; try apply H; exact H.
Qed.

Lemma emits_onMessage_with (rn : Task -> M unit) (message : Message) :
  (forall t, emits not_onStdout (rn t)) ->
  truthy_opt (msg_stdout message) = false ->
  emits not_onStdout (onMessage_with doc rn message).
Proof.
  intros H Hout. unfold onMessage_with.
  cbn [delete_id_end msg_log msg_stdout msg_stderr]. rewrite Hout.
  emits_auto. apply emits_route_result, H.
Qed.

Lemma emits_runNow_fuel (n : nat) (task : Task) :
  emits not_onStdout (runNow_fuel doc n task).
Proof.
  revert task. induction n as [|n IH]; intros task; cbn [runNow_fuel].
  - apply emits_out_of_fuel.
  - unfold runNow_with, send_task. emits_auto.
    apply emits_onMessage_with; [exact IH|reflexivity].
Qed.

End Quiet.

(** ** The router and output *)

Section Router.

Variable doc : jsstring -> option Documentation.

(** [_onMessage] is [onMessage_with] at the fuel of the state. *)
Lemma post__onMessage (m : Message) (s : Session)
    (Q : Session -> list Event -> completion unit -> Prop) :
  post (onMessage_with doc (runNow_fuel doc (fuel_for s)) m) s Q ->
  post (_onMessage doc m) s Q.
Proof. unfold post, _onMessage. exact (fun H => H). Qed.

(** C9. Routing a message with a non-empty [stdout] or [stderr]
    leaves the context table, the queue and the current task as they
    were, whatever its [end] flag: the only events are calls of
    [onStdout] or [onStderr], so no context is ended and no task is
    run. *)
Theorem streaming_message_frame (s : Session) (m : Message) :
  truthy_opt (msg_stdout m) = true \/ truthy_opt (msg_stderr m) = true ->
  post (_onMessage doc m) s (fun s' ev r =>
    _contextTable s' = _contextTable s /\
    _tasks s' = _tasks s /\
    _currentTask s' = _currentTask s /\
    Forall is_stream_call ev /\
    r = Normal tt).
Proof.
  intros H. apply post__onMessage.
  generalize (runNow_fuel doc (fuel_for s)). intros rn.
  unfold onMessage_with.
  cbn [delete_id_end msg_log msg_stdout msg_stderr].
  destruct (truthy_opt (msg_log m)); [mstep; auto|].
  mstep. destruct (message_task s (msg_id m)) as [task|]; [|mstep; auto].
  destruct (truthy_opt (msg_stdout m)) eqn:Hout.
  - mstep. destruct (onStdout task); repeat split; auto.
    repeat constructor.
  - destruct H as [H|H]; [discriminate H|]. rewrite H.
    mstep. destruct (onStderr task); repeat split; auto.
    repeat constructor.
Qed.

(** C8. A message whose [stdout] is there but empty is not output for
    the router: [onStdout] is not called. When the message has no log
    and no [stderr] text and a task is found for it, it is routed as an
    error-or-success message: [onError] is called when it has an
    [error], [onSuccess] when it has none. *)
Theorem empty_stdout_is_a_result (s : Session) (m : Message) :
  msg_stdout m = Some [] ->
  post (_onMessage doc m) s (fun s' ev r =>
    Forall not_onStdout ev /\
    (truthy_opt (msg_log m) = false ->
     truthy_opt (msg_stderr m) = false ->
     forall task : Task, message_task s (msg_id m) = Some task ->
       _onMessage doc m s =
         route_result doc (runNow_fuel doc (fuel_for s)) task
           (msg_id m) (msg_end m) (delete_id_end m) s /\
       match msg_error m with
       | Some _ =>
           forall f, onError task = Some f ->
             head ev = Some (Called onError_ f (Arg_message (delete_id_end m)))
       | None =>
           forall f, onSuccess task = Some (OnSuccess_user f) ->
             head ev = Some (Called onSuccess_ f (Arg_message (delete_id_end m)))
       end)).
Proof.
  intros Hout. unfold post. split.
  - apply (emits_onMessage_with doc (runNow_fuel doc (fuel_for s)) m).
    + intros t. apply emits_runNow_fuel.
    + rewrite Hout. reflexivity.
  - intros Hlog Herr task Htask.
    assert (E : _onMessage doc m s =
                route_result doc (runNow_fuel doc (fuel_for s)) task
                  (msg_id m) (msg_end m) (delete_id_end m) s).
    { unfold _onMessage, onMessage_with.
      cbn [delete_id_end msg_log msg_stdout msg_stderr].
      rewrite Hlog, Herr, Hout. cbn [truthy_opt truthy].
      unfold bind at 1, get. cbn beta iota. rewrite Htask.
      destruct (route_result _ _ _ _ _ _ s) as [[s2 ev2] r2].
      reflexivity. }
    split; [exact E|]. rewrite E. clear E.
    unfold route_result, handle_result. cbn [delete_id_end msg_error].
    destruct (msg_error m) as [e|]; intros f Hf; rewrite Hf;
      cbn [call_onSuccess];
      match goal with
      | |- head (?c ?s0).1.2 = ?rhs =>
          change (post c s0 (fun _ ev _ => head ev = rhs))
      end.
    + apply post_call_bind. unfold post. reflexivity.
    + apply post_emit_bind. unfold post. reflexivity.
Qed.

End Router.

Lemma streaming_message_frame_witness :
  let m := stdout_message 1 (js "out") in
  (truthy_opt (msg_stdout m) = true \/ truthy_opt (msg_stderr m) = true) /\
  post (_onMessage no_doc m) busy_session (fun s' ev r =>
    _contextTable s' = _contextTable busy_session /\
    _tasks s' = _tasks busy_session /\
    _currentTask s' = _currentTask busy_session /\
    Forall is_stream_call ev /\
    r = Normal tt).
Proof.
  split; [left; reflexivity|].
  apply (streaming_message_frame no_doc busy_session (stdout_message 1 (js "out"))).
  left; reflexivity.
Defined.

Lemma empty_stdout_is_a_result_witness :
  let m := stdout_message 1 [] in
  msg_stdout m = Some [] /\
  post (_onMessage no_doc m) busy_session (fun s' ev r =>
    Forall not_onStdout ev /\
    (truthy_opt (msg_log m) = false ->
     truthy_opt (msg_stderr m) = false ->
     forall task : Task, message_task busy_session (msg_id m) = Some task ->
       _onMessage no_doc m busy_session =
         route_result no_doc (runNow_fuel no_doc (fuel_for busy_session)) task
           (msg_id m) (msg_end m) (delete_id_end m) busy_session /\
       match msg_error m with
       | Some _ =>
           forall f, onError task = Some f ->
             head ev = Some (Called onError_ f (Arg_message (delete_id_end m)))
       | None =>
           forall f, onSuccess task = Some (OnSuccess_user f) ->
             head ev = Some (Called onSuccess_ f (Arg_message (delete_id_end m)))
       end)).
Proof.
  split; [reflexivity|].
  apply (empty_stdout_is_a_result no_doc busy_session (stdout_message 1 [])).
  reflexivity.
Defined.

Example empty_stdout_calls_onSuccess :
  (_onMessage no_doc (stdout_message 1 []) busy_session).1.2 =
  [Called onSuccess_ 1%nat (Arg_message (delete_id_end (stdout_message 1 [])));
   Ended (Some 1); Called afterRun_ 4%nat Arg_none].
Proof. vm_compute. reflexivity. Qed.

(** ** Completion of [foo.b] *)

(** C4. [complete("foo.b", 5)] on a new session sends the request for
    the names of [foo]; when the server replies with the names [bar],
    [baz] and [qux], [onSuccess] gets the completion with list
    [foo.bar], [foo.baz], matchedText [foo.b], cursorStart 0 and
    cursorEnd 5. *)
Theorem complete_foo_b (doc : jsstring -> option Documentation)
    (debug : bool) (nelConfig : NelConfig) (f : UserFn) :
  let s0 := new_Session debug nelConfig in
  let r1 := complete doc (js "foo.b") 5 (Some (only_onSuccess f)) s0 in
  let r2 := server_message doc
              (names_message 1 [js "bar"; js "baz"; js "qux"]) r1.1.1 in
  r1.1.2 = [Submitted 1; Dispatched 1 1;
            Sent Action_getAllPropertyNames (js "foo") 1] /\
  r2.1.2 = [Called onSuccess_ f
              (Arg_completion
                 {| list_ := [Some (js "foo.bar"); Some (js "foo.baz")];
                    code_ := js "foo.b"; cursorPos_ := 5;
                    matchedText_ := js "foo.b";
                    cursorStart := 0; cursorEnd := 5 |});
            Ended (Some 1)] /\
  r2.2 = Normal tt.
Proof.
  destruct nelConfig as [c [t|]]; vm_compute; repeat split; reflexivity.
Qed.

(** ** A transpiler that throws *)

(** C3, at a thrown value without a message ([throw "boom"]): building
    the error message evaluates [util.inspect(error)], [util] is not
    bound, and the [ReferenceError] leaves [execute]. [onError] is not
    called; nothing is sent to the server. *)
Theorem transpile_throw_without_message_escapes
    (doc : jsstring -> option Documentation) (code : jsstring) :
  let r := execute doc code (Some all_callbacks) (session_with (throwing boom)) in
  r.2 = Throw (ReferenceError "util") /\
  r.1.2 = [Submitted 0; Dispatched 1 0; Called beforeRun_ 3%nat Arg_none] /\
  option_map task_ref (_currentTask r.1.1) = Some 0%nat.
Proof. vm_compute. repeat split; reflexivity. Qed.

(** A thrown value with a message is reported: one call of [onError],
    and nothing sent to the server. *)
Lemma transpile_throw_with_message_reported
    (doc : jsstring -> option Documentation) (code : jsstring) :
  let r := execute doc code (Some all_callbacks) (session_with (throwing bad)) in
  r.1.2 = [Submitted 0; Dispatched 1 0; Called beforeRun_ 3%nat Arg_none;
           Called onError_ 2%nat
             (Arg_message
                {| msg_id := None; msg_end := false; msg_log := None;
                   msg_stdout := None; msg_stderr := None;
                   msg_error :=
                     Some {| ename := js "Error"; evalue := js "bad";
                             traceback := TracebackLines [js "Error: bad"] |};
                   msg_mime := None; msg_names := None;
                   msg_inspection := None; msg_doc := None |})] /\
  r.2 = Normal tt.
Proof. vm_compute. split; reflexivity. Qed.

(** C6, at a transpiler that throws [new Error("bad")]: the task is
    reported through [onError] and is no longer the current task, yet
    its entry stays in the context table; no context is ended and
    [afterRun] is not called. *)
Theorem transpile_throw_leaves_context
    (doc : jsstring -> option Documentation) (code : jsstring) :
  let r := execute doc code (Some all_callbacks) (session_with (throwing bad)) in
  let s := r.1.1 in
  r.2 = Normal tt /\
  In (Called onError_ 2%nat
        (Arg_message
           {| msg_id := None; msg_end := false; msg_log := None;
              msg_stdout := None; msg_stderr := None;
              msg_error :=
                Some {| ename := js "Error"; evalue := js "bad";
                        traceback := TracebackLines [js "Error: bad"] |};
              msg_mime := None; msg_names := None;
              msg_inspection := None; msg_doc := None |})) r.1.2 /\
  _currentTask s = None /\
  _tasks s = [] /\
  option_map task_ref (_contextTable s !! 1) = Some 0%nat /\
  size (_contextTable s) = 1%nat /\
  ended_ids r.1.2 = [] /\
  ~ In (Called afterRun_ 4%nat Arg_none) r.1.2.
Proof.
  vm_compute. repeat split; try reflexivity.
  - right. right. right. left. reflexivity.
  - intros H. repeat (destruct H as [H|H]; [discriminate H|]). exact H.
Qed.

(** ** Restart *)

(** C7, at a session made with a transpiler: [restart] kills the
    server, and when the server has exited the session is made anew
    from [this._config]. The working directory is the one of the
    original configuration and [restartCB] gets the exit code and the
    signal, but the transpiler is gone. *)
Theorem restart_drops_transpiler (debug : bool) (dir : option jsstring)
    (t : Transpiler) (signal : option jsstring) (restartCB : UserFn)
    (code : option Z) (exitSignal : option jsstring) :
  let s0 := new_Session debug {| nel_cwd := dir; nel_transpile := Some t |} in
  let r1 := restart signal (Some restartCB) s0 in
  let r2 := server_exit debug code exitSignal r1.1.1 in
  transpile s0 = Some t /\
  r1.1.2 = [Signalled (signal_or_SIGTERM (Some (signal_or_SIGTERM signal)))] /\
  r2.1.2 = [Forked {| cwd := dir; stdio_debug := debug |};
            Called restartCB_ restartCB (Arg_exit code exitSignal)] /\
  cwd (_config r2.1.1) = dir /\
  _killed r2.1.1 = false /\
  transpile r2.1.1 = None.
Proof. cbn. repeat split; reflexivity. Qed.

(** ** The scheduler's invariant *)

(** *** Rules for [tpost] *)

Lemma tpost_ret {A} (a : A) (s : Session) (tr : list Event)
    (Q : Session -> list Event -> completion A -> Prop) :
  Q s tr (Normal a) -> tpost (ret a) s tr Q.
Proof. unfold tpost, post. cbn. rewrite app_nil_r. auto. Qed.

Lemma tpost_throw {A} (e : JsError) (s : Session) (tr : list Event)
    (Q : Session -> list Event -> completion A -> Prop) :
  Q s tr (Throw e) -> tpost (throw e) s tr Q.
Proof. unfold tpost, post. cbn. rewrite app_nil_r. auto. Qed.

Lemma tpost_modify (f : Session -> Session) (s : Session) (tr : list Event)
    (Q : Session -> list Event -> completion unit -> Prop) :
  Q (f s) tr (Normal tt) -> tpost (modify f) s tr Q.
Proof. unfold tpost, post. cbn. rewrite app_nil_r. auto. Qed.

Lemma tpost_emit (e : Event) (s : Session) (tr : list Event)
    (Q : Session -> list Event -> completion unit -> Prop) :
  Q s (tr ++ [e]) (Normal tt) -> tpost (emit e) s tr Q.
Proof. unfold tpost, post. cbn. auto. Qed.

Lemma tpost_bind {A B} (m : M A) (k : A -> M B) (s : Session)
    (tr : list Event) (Q : Session -> list Event -> completion B -> Prop) :
  tpost m s tr (fun s1 tr1 r1 =>
    match r1 with
    | Normal a => tpost (k a) s1 tr1 Q
    | Throw e => Q s1 tr1 (Throw e)
    | OutOfFuel => Q s1 tr1 OutOfFuel
    end) ->
  tpost (bind m k) s tr Q.
Proof.
  unfold tpost. intros H. apply post_bind.
  eapply post_mono; [exact H|]. cbn beta.
  intros s1 ev1 [a|e|] H1; auto.
  eapply post_mono; [exact H1|]. cbn beta.
  intros s2 ev2 r2. rewrite app_assoc. auto.
Qed.

Lemma tpost_mono {A} (m : M A) (s : Session) (tr : list Event)
    (Q Q' : Session -> list Event -> completion A -> Prop) :
  tpost m s tr Q -> (forall s' tr' r, Q s' tr' r -> Q' s' tr' r) ->
  tpost m s tr Q'.
Proof.
  unfold tpost. intros H HQ. eapply post_mono; [exact H|]. cbn beta. auto.
Qed.

Lemma tpost_get_bind {B} (k : Session -> M B) (s : Session) (tr : list Event)
    (Q : Session -> list Event -> completion B -> Prop) :
  tpost (k s) s tr Q -> tpost (bind get k) s tr Q.
Proof. unfold tpost. apply post_get_bind. Qed.

Lemma tpost_modify_bind {B} (f : Session -> Session) (k : unit -> M B)
    (s : Session) (tr : list Event)
    (Q : Session -> list Event -> completion B -> Prop) :
  tpost (k tt) (f s) tr Q -> tpost (bind (modify f) k) s tr Q.
Proof. unfold tpost. apply post_modify_bind. Qed.

Lemma tpost_emit_bind {B} (e : Event) (k : unit -> M B)
    (s : Session) (tr : list Event)
    (Q : Session -> list Event -> completion B -> Prop) :
  tpost (k tt) s (tr ++ [e]) Q -> tpost (bind (emit e) k) s tr Q.
Proof.
  unfold tpost. intros H. apply post_emit_bind.
  eapply post_mono; [exact H|]. cbn beta.
  intros s2 ev2 r2. rewrite <- app_assoc. auto.
Qed.

Lemma tpost_lift_bind {A B} (c : completion A) (k : A -> M B)
    (s : Session) (tr : list Event)
    (Q : Session -> list Event -> completion B -> Prop) :
  match c with
  | Normal a => tpost (k a) s tr Q
  | Throw e => Q s tr (Throw e)
  | OutOfFuel => Q s tr OutOfFuel
  end ->
  tpost (bind (lift c) k) s tr Q.
Proof.
  unfold tpost. intros H. apply post_lift_bind.
  destruct c; [exact H| |]; rewrite app_nil_r; exact H.
Qed.

Lemma tpost_fresh_bind {B} (k : nat -> M B) (s : Session) (tr : list Event)
    (Q : Session -> list Event -> completion B -> Prop) :
  tpost (k (heap_next s)) (set_heap_next (S (heap_next s)) s) tr Q ->
  tpost (bind fresh k) s tr Q.
Proof.
  unfold tpost, post, bind, fresh, get, modify, ret. cbn.
  destruct (k _ _) as [[s2 ev2] r2]. cbn. auto.
Qed.

(** A callback of the user leaves the session as it is; its event is
    quiet. *)
Lemma tpost_call_bind {B} (p : Property) (f : option UserFn) (arg : Argument)
    (k : unit -> M B) (s : Session) (tr : list Event)
    (Q : Session -> list Event -> completion B -> Prop) :
  (forall ev, Forall quiet ev -> tpost (k tt) s (tr ++ ev) Q) ->
  tpost (bind (call_if_present p f arg) k) s tr Q.
Proof.
  intros H. apply tpost_bind. unfold call_if_present.
  destruct f as [f|].
  - apply tpost_emit. apply H. repeat constructor.
  - apply tpost_ret. specialize (H [] (List.Forall_nil _)).
    rewrite app_nil_r in H. exact H.
Qed.

Lemma tpost_call (p : Property) (f : option UserFn) (arg : Argument)
    (s : Session) (tr : list Event)
    (Q : Session -> list Event -> completion unit -> Prop) :
  (forall ev, Forall quiet ev -> Q s (tr ++ ev) (Normal tt)) ->
  tpost (call_if_present p f arg) s tr Q.
Proof.
  intros H. unfold call_if_present. destruct f as [f|].
  - apply tpost_emit. apply H. repeat constructor.
  - apply tpost_ret. specialize (H [] (List.Forall_nil _)).
    rewrite app_nil_r in H. exact H.
Qed.

(** *** The trace *)

Lemma dispatched_app (a b : list Event) :
  dispatched (a ++ b) = dispatched a ++ dispatched b.
Proof. apply omap_app. Qed.

Lemma submitted_app (a b : list Event) :
  submitted (a ++ b) = submitted a ++ submitted b.
Proof. apply omap_app. Qed.

Lemma sent_ids_app (a b : list Event) :
  sent_ids (a ++ b) = sent_ids a ++ sent_ids b.
Proof. apply omap_app. Qed.

Lemma quiet_trace (ev : list Event) :
  Forall quiet ev ->
  dispatched ev = [] /\ submitted ev = [] /\ sent_ids ev = [].
Proof.
  induction 1 as [|e ev He _ (IH1 & IH2 & IH3)]; [auto|].
  destruct e; try contradiction; cbn; auto.
Qed.

Lemma quiet_app (tr ev : list Event) :
  Forall quiet ev ->
  dispatched (tr ++ ev) = dispatched tr /\
  submitted (tr ++ ev) = submitted tr /\
  sent_ids (tr ++ ev) = sent_ids tr.
Proof.
  intros H. destruct (quiet_trace ev H) as (H1 & H2 & H3).
  rewrite dispatched_app, submitted_app, sent_ids_app, H1, H2, H3.
  rewrite !app_nil_r. auto.
Qed.

(** *** The invariant under the steps of the methods *)

Lemma Ghost_next (l : Z) (w : list nat) (n n' : nat) D Sub Snt :
  (n <= n')%nat -> Ghost l w n D Sub Snt -> Ghost l w n' D Sub Snt.
Proof.
  intros Hn [H1 H2 H3 H4 H5 H6]. split; auto.
  eapply Forall_impl; [exact H5|]. cbn. intros. lia.
Qed.

(** Quiet events and a change of state outside the scheduler. *)
Lemma Inv_frame (s s' : Session) (tr ev : list Event) :
  Inv s tr -> Forall quiet ev ->
  _lastContextId s' = _lastContextId s ->
  _tasks s' = _tasks s ->
  (_currentTask s' = None -> _currentTask s = None) ->
  (heap_next s <= heap_next s')%nat ->
  Inv s' (tr ++ ev).
Proof.
  intros [G I] Hq Hl Ht Hc Hn. unfold Inv.
  destruct (quiet_app tr ev Hq) as (-> & -> & ->). rewrite Hl, Ht.
  split; [eapply Ghost_next; eauto|auto].
Qed.

Lemma Inv_quiet (s : Session) (tr ev : list Event) :
  Inv s tr -> Forall quiet ev -> Inv s (tr ++ ev).
Proof. intros. eapply Inv_frame; eauto. Qed.

Lemma Mid_frame (s s' : Session) (tr ev : list Event) :
  Mid s tr -> Forall quiet ev ->
  _lastContextId s' = _lastContextId s ->
  _tasks s' = _tasks s ->
  is_Some (_currentTask s') ->
  (heap_next s <= heap_next s')%nat ->
  Mid s' (tr ++ ev).
Proof.
  intros (HI & Hc & D0 & r & HD & HS) Hq Hl Ht Hc' Hn.
  split; [|split; [exact Hc'|]].
  - eapply Inv_frame; eauto. intros E. rewrite E in Hc'.
    destruct Hc' as [? ?]. discriminate.
  - destruct (quiet_app tr ev Hq) as (-> & _ & ->). rewrite Hl. eauto.
Qed.

Lemma ids_upto_S (n : nat) : ids_upto (S n) = ids_upto n ++ [Z.of_nat (S n)].
Proof. unfold ids_upto. rewrite seq_S, List.map_app. reflexivity. Qed.

(** The first assignments of [_runNow]: the head of the waiting tasks
    gets the next context id. *)
Lemma Pre_dispatch (s s' : Session) (tr : list Event) (task : Task) :
  Pre s tr task ->
  _lastContextId s' = _lastContextId s + 1 ->
  _tasks s' = _tasks s ->
  is_Some (_currentTask s') ->
  heap_next s' = heap_next s ->
  Mid s' (tr ++ [Dispatched (_lastContextId s') (task_ref task)]).
Proof.
  intros [H1 H2 H3 H4 H5 H6] Hl Ht Hc Hn.
  assert (HD : dispatched (tr ++ [Dispatched (_lastContextId s') (task_ref task)])
               = dispatched tr ++ [(_lastContextId s', task_ref task)]).
  { rewrite dispatched_app. reflexivity. }
  assert (HS : submitted (tr ++ [Dispatched (_lastContextId s') (task_ref task)])
               = submitted tr).
  { rewrite submitted_app. cbn. apply app_nil_r. }
  assert (HT : sent_ids (tr ++ [Dispatched (_lastContextId s') (task_ref task)])
               = sent_ids tr).
  { rewrite sent_ids_app. cbn. apply app_nil_r. }
  split; [|split; [exact Hc|]].
  - split.
    + rewrite HD, HS, HT, Ht, Hn. split.
      * rewrite List.map_app, length_app, H1. cbn [List.map fst length].
        rewrite Nat.add_1_r, ids_upto_S. f_equal. f_equal. lia.
      * rewrite length_app. cbn [length]. lia.
      * rewrite List.map_app, <- app_assoc. exact H3.
      * rewrite List.map_app. apply sublist_inserts_r. exact H4.
      * exact H5.
      * exact H6.
    + intros E. rewrite E in Hc. destruct Hc as [? ?]. discriminate.
  - exists (dispatched tr), (task_ref task). rewrite HD, HT. auto.
Qed.

(** The message to the server, for the context id just given out. *)
Lemma Mid_send (s : Session) (tr : list Event) (a : Action) (c : jsstring) :
  Mid s tr -> Inv s (tr ++ [Sent a c (_lastContextId s)]).
Proof.
  intros ([[H1 H2 H3 H4 H5 H6] HI] & Hc & D0 & r & HD & HS).
  split; [|exact HI].
  rewrite dispatched_app, submitted_app, sent_ids_app. cbn.
  rewrite !app_nil_r. split; auto.
  rewrite HD, List.map_app. apply sublist_app; [exact HS|reflexivity].
Qed.

Lemma Mid_Inv (s : Session) (tr : list Event) : Mid s tr -> Inv s tr.
Proof. intros [H _]. exact H. Qed.

Lemma Inv_state (s s' : Session) (tr : list Event) :
  Inv s tr ->
  _lastContextId s' = _lastContextId s ->
  _tasks s' = _tasks s ->
  (_currentTask s' = None -> _currentTask s = None) ->
  (heap_next s <= heap_next s')%nat ->
  Inv s' tr.
Proof.
  intros H Hl Ht Hc Hn. rewrite <- (app_nil_r tr).
  eapply Inv_frame; eauto.
Qed.

Ltac quiet_solver := first [assumption | repeat constructor].

(** The invariant at the end of a path, from the invariant [H] at its
    start: the events in between are quiet and the state differs
    outside the scheduler only. *)
Ltac inv_final H :=
  first
    [ exact H
    | eapply Inv_state;
      [ exact H | reflexivity | reflexivity | cbn; solve [auto] | cbn; lia ]
    | apply Inv_quiet; [inv_final H | quiet_solver] ].

Ltac tstep :=
  lazymatch goal with
  | |- tpost (bind get _) _ _ _ => apply tpost_get_bind
  | |- tpost (bind (modify _) _) _ _ _ => apply tpost_modify_bind
  | |- tpost (bind (emit _) _) _ _ _ => apply tpost_emit_bind
  | |- tpost (bind (lift _) _) _ _ _ => apply tpost_lift_bind
  | |- tpost (bind fresh _) _ _ _ => apply tpost_fresh_bind
  | |- tpost (bind (call_if_present _ _ _) _) _ _ _ =>
      apply tpost_call_bind; intros ? ?
  | |- tpost (call_if_present _ _ _) _ _ _ => apply tpost_call; intros ? ?
  | |- tpost (ret _) _ _ _ => apply tpost_ret
  | |- tpost (throw _) _ _ _ => apply tpost_throw
  | |- tpost (modify _) _ _ _ => apply tpost_modify
  | |- tpost (emit _) _ _ _ => apply tpost_emit
  end; cbn beta.

(** A task put on the queue behind the current one. *)
Lemma Inv_runLater (s : Session) (tr : list Event) (task : Task) :
  Inv s tr ->
  is_Some (_currentTask s) ->
  Forall (fun x => (x < task_ref task)%nat) (submitted tr) ->
  (task_ref task < heap_next s)%nat ->
  Inv (set_tasks (_tasks s ++ [task]) s) (tr ++ [Submitted (task_ref task)]).
Proof.
  intros [[H1 H2 H3 H4 H5 H6] HI] Hc Hlt Hn. split.
  - rewrite dispatched_app, submitted_app, sent_ids_app. cbn.
    rewrite !app_nil_r. split; auto.
    + rewrite List.map_app, app_assoc, H3. reflexivity.
    + apply Forall_app. split; [exact H5|]. repeat constructor. exact Hn.
    + apply NoDup_app. split; [exact H6|]. split; [|apply NoDup_singleton].
      intros x Hx Hx'. apply list_elem_of_singleton in Hx'. subst x.
      rewrite Forall_forall in Hlt. specialize (Hlt _ Hx). lia.
  - cbn. intros E. rewrite E in Hc. destruct Hc as [? ?]. discriminate.
Qed.

(** A task submitted while no task is current. *)
Lemma Pre_submit (s : Session) (tr : list Event) (task : Task) :
  Inv s tr ->
  _currentTask s = None ->
  Forall (fun x => (x < task_ref task)%nat) (submitted tr) ->
  (task_ref task < heap_next s)%nat ->
  Pre s (tr ++ [Submitted (task_ref task)]) task.
Proof.
  intros [[H1 H2 H3 H4 H5 H6] HI] Hc Hlt Hn. unfold Pre.
  rewrite (HI Hc) in *. cbn [List.map] in *. rewrite app_nil_r in H3.
  rewrite dispatched_app, submitted_app, sent_ids_app. cbn.
  rewrite !app_nil_r. split; auto.
  - rewrite H3. reflexivity.
  - apply Forall_app. split; [exact H5|]. repeat constructor. exact Hn.
  - apply NoDup_app. split; [exact H6|]. split; [|apply NoDup_singleton].
    intros x Hx Hx'. apply list_elem_of_singleton in Hx'. subst x.
    rewrite Forall_forall in Hlt. specialize (Hlt _ Hx). lia.
Qed.

Lemma run_with_inv (rn : Task -> M unit) (n : nat) (task : Task)
    (s : Session) (tr : list Event) :
  runNow_ok rn n ->
  Inv s tr ->
  (length (_tasks s) < n)%nat ->
  Forall (fun x => (x < task_ref task)%nat) (submitted tr) ->
  (task_ref task < heap_next s)%nat ->
  tpost (run_with rn task) s tr (fun s' tr' r =>
    Inv s' tr' /\ r <> OutOfFuel /\
    (length (_tasks s') <= S (length (_tasks s)))%nat).
Proof.
  intros Hrn HI Hlen Hlt Hn. unfold run_with.
  apply tpost_get_bind. destruct (_killed s).
  { apply tpost_ret. split; [exact HI|split; [discriminate|lia]]. }
  apply tpost_emit_bind. destruct (_currentTask s) as [c|] eqn:Hc.
  - unfold _runLater. apply tpost_get_bind. apply tpost_modify.
    split; [|split; [discriminate|]].
    + apply Inv_runLater; [exact HI|rewrite Hc; eauto|exact Hlt|exact Hn].
    + cbn. rewrite length_app. cbn. lia.
  - eapply tpost_mono.
    + apply Hrn; [|exact Hlen]. apply Pre_submit; auto.
    + cbn beta. intros s' tr' r (H1 & H2 & H3).
      split; [exact H1|split; [exact H2|lia]].
Qed.

(** *** The closures do not run out of fuel *)

Lemma filter_selector_fuel (sel : jsstring) (l : list (option jsstring)) :
  filter_selector sel l <> OutOfFuel.
Proof.
  induction l as [|[e|] l IH]; cbn [filter_selector]; try discriminate.
  destruct (lastIndexOf_0 e sel =? 0); [|exact IH].
  destruct (filter_selector sel l); cbn; try discriminate. contradiction.
Qed.

Lemma reduce_shortest_fuel (p : option jsstring) (l : list (option jsstring)) :
  reduce_shortest p l <> OutOfFuel.
Proof.
  revert p. induction l as [|c l IH]; intros p; cbn [reduce_shortest].
  - discriminate.
  - destruct p, c; try discriminate. apply IH.
Qed.

Lemma completeOnSuccess_fuel (expression : Expression) (code : jsstring)
    (cursorPos : Z) (matchList : list (option jsstring))
    (names : option (list jsstring)) :
  (completeOnSuccess expression code cursorPos matchList names).2 <> OutOfFuel.
Proof.
  unfold completeOnSuccess. cbv zeta.
  match goal with
  | |- context [match ?f with Normal _ => _ | Throw _ => _ | OutOfFuel => _ end] =>
      assert (Hf : f <> OutOfFuel);
      [destruct (truthy (selector expression));
       [apply filter_selector_fuel|discriminate]|];
      destruct f as [ml|e|]; [|cbn; discriminate|contradiction]
  end.
  cbn [snd].
  match goal with
  | |- context [match ?l with [] => _ | _ :: _ => _ end] => destruct l as [|p l']
  end; cbn [cbind]; [discriminate|].
  pose proof (reduce_shortest_fuel p l') as Hr.
  destruct (reduce_shortest p l') as [[m|]|e|]; cbn; try discriminate.
  contradiction.
Qed.

(** [parseExpression] returns [null] or an expression. *)
Lemma parseExpression_returns (code : jsstring) (cursorPos : Z) :
  exists r : option Expression, parseExpression code cursorPos = Normal r.
Proof.
  unfold parseExpression.
  destruct (negb (truthy (slice code 0 cursorPos)) || _); [eauto|].
  destruct (exec_end simpleIdentifierRE (slice code 0 cursorPos)) as [re|];
    cbn [get_0 get_index cbind];
    repeat match goal with
           | |- context [if ?b then _ else _] => destruct b
           end;
    cbn [truthy js negb List.map list_ascii_of_string];
    match goal with
    | |- context [exec_end complexIdentifierRE ?e] =>
        destruct (exec_end complexIdentifierRE e); cbn [get_0 get_index cbind]
    | _ => idtac
    end; eauto.
Qed.

(** *** The closures, the router and the dispatch keep the invariant *)

Section Invariant.

Variable doc : jsstring -> option Documentation.

Lemma call_onSuccess_inv (rn : Task -> M unit) (n : nat) (h : SuccessHandler)
    (result : Message) (s : Session) (tr : list Event) :
  runNow_ok rn n ->
  Inv s tr ->
  (length (_tasks s) < n)%nat ->
  tpost (call_onSuccess doc rn h result) s tr (fun s' tr' r =>
    Inv s' tr' /\ r <> OutOfFuel /\
    (length (_tasks s') <= S (length (_tasks s)))%nat).
Proof.
  intros Hrn HI Hlen.
  destruct h as [f|cell e c p cbs|cell e c p cbs|cell e cbs]; cbn [call_onSuccess].
  - tstep. split; [inv_final HI|split; [discriminate|lia]].
  - tstep.
    pose proof (completeOnSuccess_fuel e c p
                  (default [] (heap_matchList s !! cell)) (msg_names result)) as Hf.
    destruct (completeOnSuccess e c p _ (msg_names result)) as [ml r].
    cbn [snd] in Hf. tstep. tstep.
    destruct r as [comp|err|]; [|split; [inv_final HI|split; [discriminate|cbn; lia]]|contradiction].
    tstep. split; [inv_final HI|split; [discriminate|cbn; lia]].
  - tstep. destruct (msg_inspection result) as [i|].
    2:{ tstep. split; [inv_final HI|split; [discriminate|cbn; lia]]. }
    tstep. unfold getDocumentationAndInvokeCallbacks.
    destruct (negb (truthy (scope e))).
    + tstep. tstep. tstep.
      split; [inv_final HI|split; [discriminate|cbn; lia]].
    + tstep. eapply tpost_mono.
      * apply (run_with_inv rn n); [exact Hrn| |exact Hlen| |cbn; lia].
        -- inv_final HI.
        -- cbn. apply HI.
      * cbn. intros s' tr' r H. exact H.
  - destruct (msg_inspection result) as [i|].
    2:{ tstep. split; [inv_final HI|split; [discriminate|cbn; lia]]. }
    tstep.
    destruct (heap_inspectionResult s !! cell) as [ir|];
      destruct (match constructorList i with
                | Some l => find_member_doc doc l (selector e)
                | None => None
                end) as [d|]; repeat tstep;
      (split; [inv_final HI|split; [discriminate|cbn; lia]]).
Qed.

Lemma run_next_inv (rn : Task -> M unit) (n : nat) (task : Task)
    (s : Session) (tr : list Event) :
  runNow_ok rn n ->
  Inv s tr ->
  (length (_tasks s) <= n)%nat ->
  tpost (run_next rn task) s tr (fun s' tr' r =>
    Inv s' tr' /\ r <> OutOfFuel /\
    (length (_tasks s') <= length (_tasks s))%nat).
Proof.
  intros Hrn HI Hlen. unfold run_next. tstep.
  destruct (is_current task (_currentTask s)).
  2:{ tstep. split; [exact HI|split; [discriminate|lia]]. }
  tstep. tstep. cbn [_tasks set_currentTask].
  destruct (_tasks s) as [|next rest] eqn:Et.
  - tstep. split; [|split; [discriminate|cbn; rewrite Et; cbn; lia]].
    destruct HI as [G _]. split; cbn; [rewrite Et in *; exact G|auto].
  - tstep. eapply tpost_mono.
    + apply Hrn.
      * destruct HI as [G _]. unfold Pre. cbn. rewrite Et in G. exact G.
      * cbn. cbn in Hlen. lia.
    + cbn beta. intros s' tr' r (H1 & H2 & H3).
      split; [exact H1|split; [exact H2|cbn in *; lia]].
Qed.

Lemma finish_inv (rn : Task -> M unit) (n : nat) (task : Task)
    (contextId : option Z) (endMessage : bool) (s : Session) (tr : list Event) :
  runNow_ok rn n ->
  Inv s tr ->
  (length (_tasks s) <= n)%nat ->
  tpost (bind (handle_end endMessage contextId task)
           (fun _ => run_next rn task)) s tr (fun s' tr' r =>
    Inv s' tr' /\ r <> OutOfFuel /\
    (length (_tasks s') <= length (_tasks s))%nat).
Proof.
  intros Hrn HI Hlen. apply tpost_bind. unfold handle_end.
  destruct endMessage.
  - tstep. tstep. tstep. cbn iota.
    assert (Ht : _tasks (delete_context contextId s) = _tasks s)
      by (destruct contextId; reflexivity).
    rewrite <- Ht. apply (run_next_inv rn n); [exact Hrn| |rewrite Ht; lia].
    apply Inv_quiet; [|quiet_solver]. apply Inv_quiet; [|quiet_solver].
    eapply Inv_state; [exact HI| | | |]; destruct contextId; cbn; auto.
  - tstep. cbn iota. apply (run_next_inv rn n); assumption.
Qed.

Lemma route_result_inv (rn : Task -> M unit) (n : nat) (task : Task)
    (contextId : option Z) (endMessage : bool) (m : Message)
    (s : Session) (tr : list Event) :
  runNow_ok rn n ->
  Inv s tr ->
  (length (_tasks s) + may_grow m <= n)%nat ->
  tpost (route_result doc rn task contextId endMessage m) s tr (fun s' tr' r =>
    Inv s' tr' /\ r <> OutOfFuel /\
    (length (_tasks s') <=
     length (_tasks s) + may_grow m)%nat).
Proof.
  intros Hrn HI Hlen. unfold route_result. apply tpost_bind.
  unfold handle_result, may_grow in *. destruct (msg_error m) as [e|].
  - tstep. cbn iota. eapply tpost_mono.
    + apply (finish_inv rn n); [exact Hrn| |lia]. inv_final HI.
    + cbn beta. intros s' tr' r (H1 & H2 & H3).
      split; [exact H1|split; [exact H2|cbn in *; lia]].
  - destruct (onSuccess task) as [h|].
    + eapply tpost_mono.
      * apply (call_onSuccess_inv rn n); [exact Hrn|exact HI|lia].
      * cbn. intros s1 tr1 r1 (H1 & H2 & H3).
        destruct r1 as [[]|err|];
          [|split; [exact H1|split; [discriminate|lia]]|contradiction].
        eapply tpost_mono.
        -- apply (finish_inv rn n); [exact Hrn|exact H1|lia].
        -- cbn beta. intros s' tr' r (H4 & H5 & H6).
           split; [exact H4|split; [exact H5|lia]].
    + tstep. cbn iota. eapply tpost_mono.
      * apply (finish_inv rn n); [exact Hrn|exact HI|lia].
      * cbn beta. intros s' tr' r (H1 & H2 & H3).
        split; [exact H1|split; [exact H2|cbn in *; lia]].
Qed.

Lemma onMessage_with_inv (rn : Task -> M unit) (n : nat) (m : Message)
    (s : Session) (tr : list Event) :
  runNow_ok rn n ->
  Inv s tr ->
  (length (_tasks s) + may_grow m <= n)%nat ->
  tpost (onMessage_with doc rn m) s tr (fun s' tr' r =>
    Inv s' tr' /\ r <> OutOfFuel /\
    (length (_tasks s') <=
     length (_tasks s) + may_grow m)%nat).
Proof.
  intros Hrn HI Hlen. unfold onMessage_with.
  cbn [delete_id_end msg_log msg_stdout msg_stderr].
  destruct (truthy_opt (msg_log m)).
  { tstep. split; [exact HI|split; [discriminate|lia]]. }
  tstep. destruct (message_task s (msg_id m)) as [task|].
  2:{ tstep. split; [exact HI|split; [discriminate|lia]]. }
  destruct (truthy_opt (msg_stdout m)).
  { tstep. split; [inv_final HI|split; [discriminate|lia]]. }
  destruct (truthy_opt (msg_stderr m)).
  { tstep. split; [inv_final HI|split; [discriminate|lia]]. }
  apply (route_result_inv rn n task (msg_id m) (msg_end m) (delete_id_end m));
    assumption.
Qed.

Lemma error_of_thrown_fuel (error : Thrown) : error_of_thrown error <> OutOfFuel.
Proof.
  unfold error_of_thrown.
  destruct (truthy_property error (fun '(_, m, _) => m)); cbn; discriminate.
Qed.

Lemma send_task_inv (s : Session) (tr : list Event) :
  Mid s tr ->
  is_Some (_lastTask s) ->
  tpost send_task s tr (fun s' tr' r =>
    Inv s' tr' /\ r <> OutOfFuel /\
    (length (_tasks s') <= length (_tasks s))%nat).
Proof.
  intros HM [t Ht]. unfold send_task. tstep. rewrite Ht. tstep.
  split; [apply Mid_send; exact HM|split; [discriminate|lia]].
Qed.

Lemma runNow_fuel_ok (n : nat) : runNow_ok (runNow_fuel doc n) n.
Proof.
  induction n as [|n IH]; intros task s tr HP Hlen; [lia|].
  cbn [runNow_fuel]. unfold runNow_with.
  tstep. tstep. tstep. tstep. cbn [_lastTask set_lastTask _currentTask
    set_currentTask set_lastContextId _lastContextId _contextTable].
  tstep. tstep.
  match goal with
  | |- tpost _ ?s1 ?tr1 _ =>
      assert (HM : Mid s1 tr1)
        by (apply (Pre_dispatch s s1 tr task HP); cbn; eauto)
  end.
  tstep.
  match goal with
  | H : Forall quiet ?ev |- tpost _ ?s1 (?tr1 ++ ?ev) _ =>
      assert (HM' : Mid s1 (tr1 ++ ev))
        by (apply (Mid_frame s1 s1 tr1 ev HM H); cbn; eauto);
      clear HM; revert HM'; generalize (tr1 ++ ev); intros tr2 HM
  end.
  cbn [transpile set_contextTable set_lastTask set_lastContextId set_currentTask].
  assert (Hsend : forall s2, Mid s2 tr2 -> is_Some (_lastTask s2) ->
            _tasks s2 = _tasks s ->
            tpost send_task s2 tr2 (fun s' tr' r =>
              Inv s' tr' /\ r <> OutOfFuel /\
              (length (_tasks s') <= length (_tasks s))%nat)).
  { intros s2 HM2 Hl2 Ht2. rewrite <- Ht2. apply send_task_inv; assumption. }
  destruct (transpile s) as [t|]; [|apply Hsend; cbn; eauto].
  destruct (Action_eqb (action task) Action_run); [|apply Hsend; cbn; eauto].
  destruct (t (code task)) as [c|err].
  - tstep. apply Hsend.
    + rewrite <- (app_nil_r tr2).
      eapply Mid_frame;
        [exact HM|constructor|reflexivity|reflexivity|cbn; eauto|cbn; lia].
    + cbn. eauto.
    + reflexivity.
  - tstep. pose proof (error_of_thrown_fuel err) as Hf.
    destruct (error_of_thrown err) as [e|e|]; [| |contradiction].
    + eapply tpost_mono.
      * apply (onMessage_with_inv (runNow_fuel doc n) n);
          [exact IH|apply Mid_Inv; exact HM|cbn in *; lia].
      * cbn beta. intros s' tr' r (H1 & H2 & H3).
        split; [exact H1|split; [exact H2|cbn in *; lia]].
    + split; [apply Mid_Inv; exact HM|split; [discriminate|cbn; lia]].
Qed.

(** [_runNow] and [_onMessage] run with the fuel of the state they
    start from, and that is the fuel they need. *)
Lemma tpost__runNow (task : Task) (s : Session) (tr : list Event)
    (Q : Session -> list Event -> completion unit -> Prop) :
  tpost (runNow_fuel doc (fuel_for s) task) s tr Q ->
  tpost (_runNow doc task) s tr Q.
Proof. unfold tpost, post, _runNow. exact (fun H => H). Qed.

Lemma tpost__onMessage (m : Message) (s : Session) (tr : list Event)
    (Q : Session -> list Event -> completion unit -> Prop) :
  tpost (onMessage_with doc (runNow_fuel doc (fuel_for s)) m) s tr Q ->
  tpost (_onMessage doc m) s tr Q.
Proof. unfold tpost, post, _onMessage. exact (fun H => H). Qed.

Lemma _runNow_ok (n : nat) : runNow_ok (_runNow doc) n.
Proof.
  intros task s tr HP _. apply tpost__runNow.
  apply (runNow_fuel_ok (fuel_for s) task s tr HP). unfold fuel_for. lia.
Qed.

Lemma _onMessage_inv (m : Message) (s : Session) (tr : list Event) :
  Inv s tr ->
  tpost (_onMessage doc m) s tr (fun s' tr' r => Inv s' tr' /\ r <> OutOfFuel).
Proof.
  intros HI. apply tpost__onMessage.
  pose proof (onMessage_with_inv (runNow_fuel doc (fuel_for s)) (fuel_for s)
                m s tr (runNow_fuel_ok (fuel_for s)) HI) as H.
  eapply tpost_mono.
  - apply H. unfold fuel_for, may_grow. destruct (msg_error m); lia.
  - cbn beta. intros s' tr' r (H1 & H2 & _). auto.
Qed.

Lemma _run_inv (task : Task) (s : Session) (tr : list Event) :
  Inv s tr ->
  Forall (fun x => (x < task_ref task)%nat) (submitted tr) ->
  (task_ref task < heap_next s)%nat ->
  tpost (_run doc task) s tr (fun s' tr' r => Inv s' tr' /\ r <> OutOfFuel).
Proof.
  intros HI Hlt Hn. unfold _run. eapply tpost_mono.
  - apply (run_with_inv (_runNow doc) (S (length (_tasks s))));
      [apply _runNow_ok|exact HI|lia|exact Hlt|exact Hn].
  - cbn beta. intros s' tr' r (H1 & H2 & _). auto.
Qed.

End Invariant.

(** *** The operations keep the invariant *)

Section Operations.

Variable doc : jsstring -> option Documentation.

Lemma Inv_fresh_refs (s : Session) (tr : list Event) :
  Inv s tr -> Forall (fun x => (x < heap_next s)%nat) (submitted tr).
Proof. intros [G _]. apply G. Qed.

Lemma execute_inv (code : jsstring) (callbacks : option Callbacks)
    (s : Session) (tr : list Event) :
  Inv s tr ->
  tpost (execute doc code callbacks) s tr (fun s' tr' r =>
    Inv s' tr' /\ r <> OutOfFuel).
Proof.
  intros HI. unfold execute. tstep.
  apply _run_inv; [inv_final HI|apply (Inv_fresh_refs s tr HI)|cbn; lia].
Qed.

Lemma complete_inv (code : jsstring) (cursorPos : Z)
    (callbacks : option Callbacks) (s : Session) (tr : list Event) :
  Inv s tr ->
  tpost (complete doc code cursorPos callbacks) s tr (fun s' tr' r =>
    Inv s' tr' /\ r <> OutOfFuel).
Proof.
  intros HI. unfold complete. tstep. tstep. tstep.
  destruct (parseExpression_returns code cursorPos) as [[e|] ->].
  - tstep. apply _run_inv.
    + inv_final HI.
    + cbn. eapply Forall_impl; [apply (Inv_fresh_refs s tr HI)|].
      cbn. intros. lia.
    + cbn. lia.
  - tstep. tstep. tstep. split; [inv_final HI|discriminate].
Qed.

Lemma inspect_inv (code : jsstring) (cursorPos : Z)
    (callbacks : option Callbacks) (s : Session) (tr : list Event) :
  Inv s tr ->
  tpost (inspect doc code cursorPos callbacks) s tr (fun s' tr' r =>
    Inv s' tr' /\ r <> OutOfFuel).
Proof.
  intros HI. unfold inspect. tstep.
  destruct (parseExpression_returns code cursorPos) as [[e|] ->].
  - tstep. tstep. apply _run_inv.
    + inv_final HI.
    + cbn. eapply Forall_impl; [apply (Inv_fresh_refs s tr HI)|].
      cbn. intros. lia.
    + cbn. lia.
  - tstep. tstep. tstep. split; [inv_final HI|discriminate].
Qed.

Lemma kill_inv (signal : option jsstring) (killCB : option KillCB)
    (s : Session) (tr : list Event) :
  Inv s tr ->
  tpost (kill signal killCB) s tr (fun s' tr' r =>
    Inv s' tr' /\ r <> OutOfFuel).
Proof.
  intros HI. unfold kill. tstep. tstep. tstep. tstep. tstep.
  split; [inv_final HI|discriminate].
Qed.

Lemma server_message_inv (m : Message) (s : Session) (tr : list Event) :
  Inv s tr ->
  tpost (server_message doc m) s tr (fun s' tr' r =>
    Inv s' tr' /\ r <> OutOfFuel).
Proof.
  intros HI. unfold server_message. tstep.
  destruct (srv_on_message (_server s)).
  - apply _onMessage_inv. exact HI.
  - tstep. split; [exact HI|discriminate].
Qed.

Lemma step_inv (op : Op) (s : Session) (tr : list Event) :
  Inv s tr ->
  tpost (step doc op) s tr (fun s' tr' r => Inv s' tr' /\ r <> OutOfFuel).
Proof.
  intros HI. destruct op; cbn [step].
  - apply execute_inv, HI.
  - apply complete_inv, HI.
  - apply inspect_inv, HI.
  - apply kill_inv, HI.
  - apply server_message_inv, HI.
Qed.

Lemma run_ops_inv (ops : list Op) (s : Session) (tr : list Event) :
  Inv s tr ->
  Inv (run_ops doc ops s).1 (tr ++ (run_ops doc ops s).2).
Proof.
  revert s tr. induction ops as [|op ops IH]; intros s tr HI; cbn [run_ops].
  - cbn. rewrite app_nil_r. exact HI.
  - pose proof (step_inv op s tr HI) as H. unfold tpost, post in H.
    destruct (step doc op s) as [[s1 ev1] r1]. cbn in H.
    destruct H as [H1 _]. specialize (IH s1 _ H1).
    destruct (run_ops doc ops s1) as [s2 ev2]. cbn in *.
    rewrite app_assoc. exact IH.
Qed.

Lemma Inv_new_Session (debug : bool) (nelConfig : NelConfig) :
  Inv (new_Session debug nelConfig) [].
Proof.
  split; [|reflexivity]. split; cbn; try reflexivity; constructor.
Qed.

(** X11. Whatever the user and the server have done with a session,
    the next operation returns or throws: [_runNow] and [_onMessage]
    call each other no more often than there are tasks in the queue. *)
Lemma step_fuel (debug : bool) (nelConfig : NelConfig) (ops : list Op) (op : Op) :
  (step doc op (run_ops doc ops (new_Session debug nelConfig)).1).2 <> OutOfFuel.
Proof.
  pose proof (run_ops_inv ops _ [] (Inv_new_Session debug nelConfig)) as HI.
  pose proof (step_inv op _ _ HI) as H. unfold tpost, post in H.
  apply H.
Qed.

End Operations.

(** ** Context ids *)

Lemma ids_upto_NoDup (n : nat) : NoDup (ids_upto n).
Proof.
  unfold ids_upto. change (NoDup (Z.of_nat <$> seq 1 n)).
  apply NoDup_fmap_2; [|apply NoDup_seq].
  intros a b. apply Nat2Z.inj.
Qed.

Lemma NoDup_keys_functional {A B} (l : list (A * B)) (a : A) (b1 b2 : B) :
  NoDup (List.map fst l) -> In (a, b1) l -> In (a, b2) l -> b1 = b2.
Proof.
  induction l as [|[x y] l IH]; cbn; intros Hnd H1 H2; [contradiction|].
  apply NoDup_cons in Hnd. destruct Hnd as [Hx Hnd].
  destruct H1 as [H1|H1], H2 as [H2|H2].
  - congruence.
  - inversion H1; subst. exfalso. apply Hx. apply list_elem_of_In.
    apply (List.in_map fst _ _ H2).
  - inversion H2; subst. exfalso. apply Hx. apply list_elem_of_In.
    apply (List.in_map fst _ _ H1).
  - auto.
Qed.

(** C2. Whatever the user and the server do with a session, the
    context ids given to the dispatched tasks are 1, 2, 3, ... in the
    order of dispatch, [_lastContextId] is the last of them, no id is
    given to two tasks, and no task gets two ids. *)
Theorem context_ids_count_up (doc : jsstring -> option Documentation)
    (debug : bool) (nelConfig : NelConfig) (ops : list Op) :
  let s := (run_ops doc ops (new_Session debug nelConfig)).1 in
  let tr := (run_ops doc ops (new_Session debug nelConfig)).2 in
  List.map fst (dispatched tr) = ids_upto (length (dispatched tr)) /\
  _lastContextId s = Z.of_nat (length (dispatched tr)) /\
  (forall i r1 r2, In (i, r1) (dispatched tr) -> In (i, r2) (dispatched tr) ->
                   r1 = r2) /\
  NoDup (List.map snd (dispatched tr)).
Proof.
  cbv zeta.
  pose proof (run_ops_inv doc ops _ [] (Inv_new_Session debug nelConfig)) as HI.
  cbn [app] in HI. destruct HI as [[H1 H2 H3 H4 H5 H6] _].
  split; [exact H1|]. split; [exact H2|]. split.
  - intros i r1 r2. apply NoDup_keys_functional.
    rewrite H1. apply ids_upto_NoDup.
  - rewrite <- H3 in H6. apply NoDup_app in H6. apply H6.
Qed.

(** ** Order of dispatch *)

Section Order.

Variable doc : jsstring -> option Documentation.

Lemma silent_nil : silent [].
Proof. split; reflexivity. Qed.

Lemma silent_quiet (tr ev : list Event) :
  Forall quiet ev -> silent tr -> silent (tr ++ ev).
Proof.
  intros Hq [H1 H2]. destruct (quiet_app tr ev Hq) as (E1 & _ & E2).
  split; congruence.
Qed.

Lemma silent_snoc (tr : list Event) (e : Event) :
  silent [e] -> silent tr -> silent (tr ++ [e]).
Proof.
  intros [E1 E2] [H1 H2]. split.
  - rewrite dispatched_app, H1, E1. reflexivity.
  - rewrite sent_ids_app, H2, E2. reflexivity.
Qed.

Ltac silent_final HD :=
  repeat first [ apply silent_quiet; [assumption|]
               | apply silent_snoc; [split; reflexivity|] ];
  exact HD.

Ltac calm_final HD := split; [silent_final HD|cbn; assumption].

Lemma run_with_calm (rn : Task -> M unit) (task c : Task) (s : Session)
    (tr : list Event) :
  silent tr -> _currentTask s = Some c ->
  tpost (run_with rn task) s tr (calm c).
Proof.
  intros HD Hc. unfold run_with. tstep. destruct (_killed s).
  { tstep. calm_final HD. }
  tstep. rewrite Hc. unfold _runLater. tstep. tstep. calm_final HD.
Qed.

Lemma call_onSuccess_calm (rn : Task -> M unit) (h : SuccessHandler)
    (result : Message) (c : Task) (s : Session) (tr : list Event) :
  silent tr -> _currentTask s = Some c ->
  tpost (call_onSuccess doc rn h result) s tr (calm c).
Proof.
  intros HD Hc.
  destruct h as [f|cell e cd p cbs|cell e cd p cbs|cell e cbs];
    cbn [call_onSuccess].
  - tstep. calm_final HD.
  - tstep. destruct (completeOnSuccess e cd p _ (msg_names result)) as [ml r].
    tstep. tstep. destruct r; [tstep| |]; calm_final HD.
  - tstep. destruct (msg_inspection result) as [i|]; [|tstep; calm_final HD].
    tstep. unfold getDocumentationAndInvokeCallbacks.
    destruct (negb (truthy (scope e))).
    + tstep. tstep. tstep. calm_final HD.
    + tstep. apply run_with_calm; [exact HD|cbn; exact Hc].
  - destruct (msg_inspection result) as [i|]; [|tstep; calm_final HD].
    tstep.
    destruct (heap_inspectionResult s !! cell) as [ir|];
      destruct (match constructorList i with
                | Some l => find_member_doc doc l (selector e)
                | None => None
                end) as [d|]; repeat tstep; calm_final HD.
Qed.

(** The handlers of a result for the task [c], while [c] is current. *)
Lemma handle_result_calm (rn : Task -> M unit) (task c : Task) (m : Message)
    (s : Session) (tr : list Event) :
  silent tr -> _currentTask s = Some c ->
  tpost (handle_result doc rn task m) s tr (calm c).
Proof.
  intros HD Hc. unfold handle_result. destruct (msg_error m) as [e|].
  - tstep. calm_final HD.
  - destruct (onSuccess task) as [h|].
    + apply call_onSuccess_calm; assumption.
    + tstep. calm_final HD.
Qed.

Lemma handle_end_calm (endMessage : bool) (contextId : option Z)
    (task c : Task) (s : Session) (tr : list Event) :
  silent tr -> _currentTask s = Some c ->
  tpost (handle_end endMessage contextId task) s tr (calm c).
Proof.
  intros HD Hc. unfold handle_end. destruct endMessage.
  - tstep. tstep. tstep. split; [silent_final HD|].
    destruct contextId; cbn; exact Hc.
  - tstep. calm_final HD.
Qed.

Lemma route_result_calm (rn : Task -> M unit) (task c : Task)
    (contextId : option Z) (endMessage : bool) (m : Message)
    (s : Session) (tr : list Event) :
  silent tr -> _currentTask s = Some c ->
  is_current task (Some c) = false ->
  tpost (route_result doc rn task contextId endMessage m) s tr (calm c).
Proof.
  intros HD Hc Hn. unfold route_result.
  apply tpost_bind.
  eapply tpost_mono; [apply handle_result_calm; eassumption|].
  cbn beta. intros s1 tr1 r1 [HD1 Hc1].
  destruct r1 as [[]|err|]; [|split; assumption|split; assumption].
  apply tpost_bind.
  eapply tpost_mono; [apply handle_end_calm; eassumption|].
  cbn beta. intros s2 tr2 r2 [HD2 Hc2].
  destruct r2 as [[]|err|]; [|split; assumption|split; assumption].
  unfold run_next. tstep. rewrite Hc2, Hn. tstep. split; assumption.
Qed.

Lemma onMessage_with_calm (rn : Task -> M unit) (m : Message) (c : Task)
    (s : Session) (tr : list Event) :
  silent tr -> _currentTask s = Some c ->
  result_for_current s m = false ->
  tpost (onMessage_with doc rn m) s tr (calm c).
Proof.
  intros HD Hc Hr. unfold onMessage_with, result_for_current in *.
  cbn [delete_id_end msg_log msg_stdout msg_stderr].
  destruct (truthy_opt (msg_log m)); [tstep; split; assumption|].
  tstep. destruct (message_task s (msg_id m)) as [task|];
    [|tstep; split; assumption].
  destruct (truthy_opt (msg_stdout m)); [tstep; calm_final HD|].
  destruct (truthy_opt (msg_stderr m)); [tstep; calm_final HD|].
  cbn in Hr. rewrite Hc in Hr.
  apply route_result_calm; assumption.
Qed.

(** An operation on a session with a current task dispatches nothing,
    sends nothing and leaves the task current, unless it is a result
    message for that task. *)
Lemma step_calm (op : Op) (c : Task) (s : Session) :
  _currentTask s = Some c ->
  (forall m, op = Op_message m -> result_for_current s m = false) ->
  tpost (step doc op) s [] (calm c).
Proof.
  intros Hc Hop.
  assert (Hrun : forall task s1 tr1, silent tr1 ->
            _currentTask s1 = Some c -> tpost (_run doc task) s1 tr1 (calm c)).
  { intros. apply run_with_calm; assumption. }
  pose proof silent_nil as HD.
  destruct op as [cd cbs|cd p cbs|cd p cbs|sg k|m]; cbn [step].
  - unfold execute. tstep. apply Hrun; [exact HD|exact Hc].
  - unfold complete. tstep. tstep. tstep.
    destruct (parseExpression cd p) as [[e|]|err|];
      [| |split; [exact HD|exact Hc]|split; [exact HD|exact Hc]].
    + tstep. apply Hrun; [exact HD|exact Hc].
    + tstep. tstep. tstep. calm_final HD.
  - unfold inspect. tstep.
    destruct (parseExpression cd p) as [[e|]|err|];
      [| |split; [exact HD|exact Hc]|split; [exact HD|exact Hc]].
    + tstep. tstep. apply Hrun; [exact HD|exact Hc].
    + tstep. tstep. tstep. calm_final HD.
  - unfold kill. repeat tstep. calm_final HD.
  - unfold server_message. tstep.
    destruct (srv_on_message (_server s)); [|tstep; split; [exact HD|exact Hc]].
    apply tpost__onMessage.
    apply (onMessage_with_calm _ m c); [exact HD|exact Hc|].
    apply Hop. reflexivity.
Qed.

End Order.

(** ** What is sent *)

Section Sending.

Variable doc : jsstring -> option Documentation.
Variable T : option Transpiler.

Lemma Stored_state (s s' : Session) :
  Stored s ->
  _lastTask s' = _lastTask s -> _contextTable s' = _contextTable s ->
  _tasks s' = _tasks s -> (heap_next s <= heap_next s')%nat ->
  Stored s'.
Proof.
  intros [H1 H2 H3] E1 E2 E3 Hn. split; unfold allocated in *.
  - rewrite E1. intros t Ht. specialize (H1 t Ht). lia.
  - rewrite E2. intros i t Ht. specialize (H2 i t Ht). lia.
  - rewrite E3. eapply Forall_impl; [exact H3|]. cbn. intros. lia.
Qed.

Lemma Sends_state (s s' : Session) (tr : list Event) :
  Sends T s tr ->
  transpile s' = transpile s ->
  _lastTask s' = _lastTask s -> _contextTable s' = _contextTable s ->
  _tasks s' = _tasks s -> (heap_next s <= heap_next s')%nat ->
  Sends T s' tr.
Proof.
  intros (H1 & H2 & H3) E0 E1 E2 E3 Hn.
  split; [eapply Stored_state; eassumption|]. split; [congruence|exact H3].
Qed.

Lemma Sends_quiet (s : Session) (tr ev : list Event) :
  Sends T s tr -> Forall quiet ev -> Sends T s (tr ++ ev).
Proof.
  intros (H1 & H2 & H3) Hq. destruct (quiet_app tr ev Hq) as (E1 & _ & E2).
  split; [exact H1|]. split; [exact H2|]. rewrite E1, E2. exact H3.
Qed.

Lemma Sends_submitted (s : Session) (tr : list Event) (r : nat) :
  Sends T s tr -> Sends T s (tr ++ [Submitted r]).
Proof.
  intros (H1 & H2 & H3). split; [exact H1|]. split; [exact H2|].
  rewrite sent_ids_app, dispatched_app. cbn. rewrite !app_nil_r. exact H3.
Qed.

Lemma Sends_delete (s : Session) (tr : list Event) (contextId : option Z) :
  Sends T s tr -> Sends T (delete_context contextId s) tr.
Proof.
  intros ([H1 H2 H3] & H4 & H5). destruct contextId as [i|]; cbn.
  2:{ split; [split; assumption|]. split; assumption. }
  split; [split; cbn|split; [exact H4|exact H5]].
  - exact H1.
  - intros j t Ht. apply lookup_delete_Some in Ht. apply (H2 j t), Ht.
  - exact H3.
Qed.

Ltac sends_final H :=
  first
    [ exact H
    | eapply Sends_state;
      [ exact H | reflexivity | reflexivity | reflexivity | reflexivity
      | cbn; lia ]
    | apply Sends_submitted; sends_final H
    | apply Sends_quiet; [sends_final H | solve [quiet_solver]] ].

Lemma run_with_sends (rn : Task -> M unit) (task : Task) (s : Session)
    (tr : list Event) :
  runNow_sends T rn -> Sends T s tr -> allocated s task ->
  tpost (run_with rn task) s tr (fun s' tr' r => Sends T s' tr').
Proof.
  intros Hrn H Ha. unfold run_with. tstep.
  destruct (_killed s); [tstep; exact H|].
  tstep. destruct (_currentTask s) as [c|].
  - unfold _runLater. tstep. tstep. apply Sends_submitted.
    destruct H as ([H1 H2 H3] & H4 & H5).
    split; [split; cbn|split; [exact H4|exact H5]]; try assumption.
    apply Forall_app. split; [exact H3|]. repeat constructor. exact Ha.
  - apply Hrn; [sends_final H|exact Ha].
Qed.

Lemma call_onSuccess_sends (rn : Task -> M unit) (h : SuccessHandler)
    (result : Message) (s : Session) (tr : list Event) :
  runNow_sends T rn -> Sends T s tr ->
  tpost (call_onSuccess doc rn h result) s tr (fun s' tr' r => Sends T s' tr').
Proof.
  intros Hrn H.
  destruct h as [f|cell e c p cbs|cell e c p cbs|cell e cbs]; cbn [call_onSuccess].
  - tstep. sends_final H.
  - tstep. destruct (completeOnSuccess e c p _ (msg_names result)) as [ml r].
    tstep. tstep. destruct r; [tstep| |]; sends_final H.
  - tstep. destruct (msg_inspection result) as [i|]; [|tstep; sends_final H].
    tstep. unfold getDocumentationAndInvokeCallbacks.
    destruct (negb (truthy (scope e))).
    + tstep. tstep. tstep. sends_final H.
    + tstep. apply run_with_sends; [exact Hrn|sends_final H|].
      unfold allocated. cbn. lia.
  - destruct (msg_inspection result) as [i|]; [|tstep; sends_final H].
    tstep.
    destruct (heap_inspectionResult s !! cell) as [ir|];
      destruct (match constructorList i with
                | Some l => find_member_doc doc l (selector e)
                | None => None
                end) as [d|]; repeat tstep; sends_final H.
Qed.

Lemma handle_end_sends (endMessage : bool) (contextId : option Z)
    (task : Task) (s : Session) (tr : list Event) :
  Sends T s tr ->
  tpost (handle_end endMessage contextId task) s tr
    (fun s' tr' r => Sends T s' tr').
Proof.
  intros H. unfold handle_end. destruct endMessage; [|tstep; exact H].
  tstep. tstep. tstep. apply Sends_quiet; [|assumption].
  apply Sends_delete. apply Sends_quiet; [exact H|quiet_solver].
Qed.

Lemma run_next_sends (rn : Task -> M unit) (task : Task) (s : Session)
    (tr : list Event) :
  runNow_sends T rn -> Sends T s tr ->
  tpost (run_next rn task) s tr (fun s' tr' r => Sends T s' tr').
Proof.
  intros Hrn H. unfold run_next. tstep.
  destruct (is_current task (_currentTask s)); [|tstep; exact H].
  tstep. tstep. cbn [_tasks set_currentTask].
  destruct (_tasks s) as [|next rest] eqn:Et.
  - tstep. sends_final H.
  - tstep. destruct H as ([H1 H2 H3] & H4 & H5).
    rewrite Et in H3. apply Forall_cons in H3. destruct H3 as [Hn Hr].
    apply Hrn; [|exact Hn].
    split; [split; cbn; assumption|]. split; assumption.
Qed.

Lemma route_result_sends (rn : Task -> M unit) (task : Task)
    (contextId : option Z) (endMessage : bool) (m : Message)
    (s : Session) (tr : list Event) :
  runNow_sends T rn -> Sends T s tr ->
  tpost (route_result doc rn task contextId endMessage m) s tr
    (fun s' tr' r => Sends T s' tr').
Proof.
  intros Hrn H. unfold route_result.
  assert (Hrest : forall s1 tr1, Sends T s1 tr1 ->
            tpost (bind (handle_end endMessage contextId task)
                     (fun _ => run_next rn task)) s1 tr1
              (fun s' tr' r => Sends T s' tr')).
  { intros s1 tr1 H1. apply tpost_bind.
    eapply tpost_mono; [apply handle_end_sends; exact H1|].
    cbn beta. intros s2 tr2 [[]|err|] H2; try exact H2.
    apply run_next_sends; assumption. }
  apply tpost_bind. unfold handle_result. destruct (msg_error m) as [e|].
  - tstep. cbn iota. apply Hrest. sends_final H.
  - destruct (onSuccess task) as [h|].
    + eapply tpost_mono; [apply call_onSuccess_sends; eassumption|].
      cbn beta. intros s1 tr1 [[]|err|] H1; try exact H1.
      apply Hrest, H1.
    + tstep. cbn iota. apply Hrest, H.
Qed.

Lemma onMessage_with_sends (rn : Task -> M unit) (m : Message)
    (s : Session) (tr : list Event) :
  runNow_sends T rn -> Sends T s tr ->
  tpost (onMessage_with doc rn m) s tr (fun s' tr' r => Sends T s' tr').
Proof.
  intros Hrn H. unfold onMessage_with.
  cbn [delete_id_end msg_log msg_stdout msg_stderr].
  destruct (truthy_opt (msg_log m)); [tstep; exact H|].
  tstep. destruct (message_task s (msg_id m)) as [task|]; [|tstep; exact H].
  destruct (truthy_opt (msg_stdout m)); [tstep; sends_final H|].
  destruct (truthy_opt (msg_stderr m)); [tstep; sends_final H|].
  apply route_result_sends; assumption.
Qed.

Lemma runNow_fuel_sends (n : nat) : runNow_sends T (runNow_fuel doc n).
Proof.
  induction n as [|n IH]; intros task s tr H Ha.
  { cbn [runNow_fuel]. unfold tpost, post, out_of_fuel. cbn.
    rewrite app_nil_r. exact H. }
  cbn [runNow_fuel]. unfold runNow_with.
  tstep. tstep. tstep. tstep. cbn [_lastTask set_lastTask _currentTask
    set_currentTask set_lastContextId _lastContextId _contextTable].
  tstep. tstep. tstep.
  cbn [transpile set_contextTable set_lastTask set_lastContextId set_currentTask].
  destruct H as ([H1 H2 H3] & H4 & H5).
  match goal with
  | |- tpost _ ?s1 _ _ =>
      assert (HS : Stored s1);
      [split; cbn;
       [intros t [= <-]; exact Ha
       |intros i t Ht; apply lookup_insert_Some in Ht;
        destruct Ht as [[_ <-]|[_ Ht]]; [exact Ha|apply (H2 i t Ht)]
       |exact H3]|]
  end.
  assert (Hsend : forall s2 (a : Action) (c : list N),
            Stored s2 -> transpile s2 = T ->
            Sends T s2 (((tr ++ [Dispatched (_lastContextId s + 1) (task_ref task)])
                          ++ ev) ++ [Sent a c (_lastContextId s + 1)])).
  { intros s2 a c HS2 HT2. split; [exact HS2|]. split; [exact HT2|].
    intros HR. rewrite !sent_ids_app, !dispatched_app, !List.map_app.
    match goal with
    | Hq : Forall quiet ev |- _ => destruct (quiet_trace ev Hq) as (-> & _ & ->)
    end.
    cbn. rewrite !app_nil_r, (H5 HR). reflexivity. }
  assert (Hplain : forall s2,
            Stored s2 -> transpile s2 = T ->
            _lastTask s2 = Some task \/
            (exists c, _lastTask s2 = Some (set_code task c)) ->
            _lastContextId s2 = _lastContextId s + 1 ->
            tpost send_task s2
              ((tr ++ [Dispatched (_lastContextId s + 1) (task_ref task)]) ++ ev)
              (fun s' tr' r => Sends T s' tr')).
  { intros s2 HS2 HT2 Hl Hi. unfold send_task. tstep.
    destruct Hl as [->|[c ->]]; tstep; rewrite Hi; apply Hsend; assumption. }
  destruct (transpile s) as [t|] eqn:Et;
    [|apply Hplain;
      [exact HS|cbn; congruence|left; reflexivity|reflexivity]].
  destruct (Action_eqb (action task) Action_run);
    [|apply Hplain;
      [exact HS|cbn; congruence|left; reflexivity|reflexivity]].
  destruct (t (code task)) as [c|err] eqn:Ec.
  - tstep.
    apply Hplain;
      [|cbn; congruence|right; exists c; reflexivity|reflexivity].
    unfold set_task_code. split; cbn.
    + intros t0 [= <-]. exact Ha.
    + intros i t0 Ht. apply lookup_alter_Some in Ht.
      destruct Ht as [(_ & t1 & Ht1 & ->)|[_ Ht]].
      * apply (stored_table _ HS i t1 Ht1).
      * apply (stored_table _ HS i t0 Ht).
    + exact H3.
  - tstep.
    assert (HM : Sends T
              (set_contextTable
                 (<[_lastContextId s + 1:=task]> (_contextTable s))
                 (set_lastTask (Some task)
                    (set_lastContextId (_lastContextId s + 1)
                       (set_currentTask (Some task) s))))
              ((tr ++ [Dispatched (_lastContextId s + 1) (task_ref task)])
                 ++ ev)).
    { split; [exact HS|]. split; [cbn; congruence|]. intros HR. exfalso.
      rewrite <- H4 in HR. cbn in HR. destruct (HR (code task)) as [c' Hc'].
      congruence. }
    destruct (error_of_thrown err) as [e|e|]; [|exact HM|exact HM].
    apply onMessage_with_sends; [exact IH|exact HM].
Qed.

Lemma _run_sends (task : Task) (s : Session) (tr : list Event) :
  Sends T s tr -> allocated s task ->
  tpost (_run doc task) s tr (fun s' tr' r => Sends T s' tr').
Proof.
  intros H Ha. unfold _run. apply run_with_sends; [|exact H|exact Ha].
  intros t s1 tr1 H1 Ha1. apply tpost__runNow.
  apply runNow_fuel_sends; assumption.
Qed.

Lemma step_sends (op : Op) (s : Session) (tr : list Event) :
  Sends T s tr ->
  tpost (step doc op) s tr (fun s' tr' r => Sends T s' tr').
Proof.
  intros H. destruct op as [cd cbs|cd p cbs|cd p cbs|sg k|m]; cbn [step].
  - unfold execute. tstep.
    apply _run_sends; [sends_final H|unfold allocated; cbn; lia].
  - unfold complete. tstep. tstep. tstep.
    destruct (parseExpression cd p) as [[e|]|err|]; try sends_final H.
    + tstep. apply _run_sends; [sends_final H|unfold allocated; cbn; lia].
    + tstep. tstep. tstep. sends_final H.
  - unfold inspect. tstep.
    destruct (parseExpression cd p) as [[e|]|err|]; try sends_final H.
    + tstep. tstep.
      apply _run_sends; [sends_final H|unfold allocated; cbn; lia].
    + tstep. tstep. tstep. sends_final H.
  - unfold kill. repeat tstep. sends_final H.
  - unfold server_message. tstep.
    destruct (srv_on_message (_server s)); [|tstep; exact H].
    apply tpost__onMessage. apply onMessage_with_sends; [|exact H].
    apply runNow_fuel_sends.
Qed.

Lemma run_ops_sends (ops : list Op) (s : Session) (tr : list Event) :
  Sends T s tr ->
  Sends T (run_ops doc ops s).1 (tr ++ (run_ops doc ops s).2).
Proof.
  revert s tr. induction ops as [|op ops IH]; intros s tr H; cbn [run_ops].
  - cbn. rewrite app_nil_r. exact H.
  - pose proof (step_sends op s tr H) as H1. unfold tpost, post in H1.
    destruct (step doc op s) as [[s1 ev1] r1]. cbn in H1.
    specialize (IH s1 _ H1).
    destruct (run_ops doc ops s1) as [s2 ev2]. cbn in *.
    rewrite app_assoc. exact IH.
Qed.

End Sending.

Lemma Sends_new_Session (debug : bool) (nelConfig : NelConfig) :
  Sends (nel_transpile nelConfig) (new_Session debug nelConfig) [].
Proof.
  split; [|split; reflexivity]. split; cbn.
  - discriminate.
  - intros i t Ht. rewrite lookup_empty in Ht. discriminate.
  - constructor.
Qed.

(** ** The in-flight slot *)

Section Slot.

Variable doc : jsstring -> option Documentation.

Lemma is_current_refl (t : Task) : is_current t (Some t) = true.
Proof. unfold is_current, same_task. apply Nat.eqb_refl. Qed.

Lemma flying_silent (A : list nat) (s : Session) (tr : list Event)
    (r : completion unit) :
  sent_ids tr = [] -> flying A s tr r.
Proof. intros H. left. exact H. Qed.

(** Quiet events after the task was sent. *)
Lemma flying_quiet (A : list nat) (s s' : Session) (tr ev : list Event)
    (r r' : completion unit) :
  flying A s tr r -> Forall quiet ev -> _currentTask s' = _currentTask s ->
  flying A s' (tr ++ ev) r'.
Proof.
  intros H Hq Hc. destruct (quiet_app tr ev Hq) as (E1 & _ & E2).
  destruct H as [H|(t & i & H1 & H2 & H3 & H4 & H5)].
  - left. congruence.
  - right. exists t, i. rewrite Hc, E1, E2.
    split; [exact H1|]. split; [exact H2|]. split; [exact H3|].
    split; [|exact H5]. apply List.in_or_app. left. exact H4.
Qed.

(** The events [ev] of a task sent, after events [tr] that sent none. *)
Lemma flying_after (A A' : list nat) (s : Session) (tr ev : list Event)
    (r : completion unit) :
  sent_ids tr = [] -> (forall x, In x A -> In x A') ->
  flying A s ev r -> flying A' s (tr ++ ev) r.
Proof.
  intros Htr Hsub [H|(t & i & H1 & H2 & H3 & H4 & H5)].
  - left. rewrite sent_ids_app, Htr, H. reflexivity.
  - right. exists t, i. split; [exact H1|].
    split; [rewrite sent_ids_app, Htr, H2; reflexivity|].
    split; [|split; [apply List.in_or_app; right; exact H4|apply Hsub, H5]].
    rewrite dispatched_app. destruct (dispatched ev) as [|d D] eqn:E;
      [discriminate H3|].
    rewrite last_app, H3. reflexivity.
Qed.

Lemma tpost_flying (A A' : list nat) (m : M unit) (s : Session)
    (tr : list Event) :
  sent_ids tr = [] -> (forall x, In x A -> In x A') ->
  post m s (flying A) -> tpost m s tr (flying A').
Proof.
  intros Htr Hsub H. unfold tpost. eapply post_mono; [exact H|].
  cbn beta. intros s' ev r. apply flying_after; assumption.
Qed.

(** The task just dispatched and sent. *)
Lemma flying_sent (A : list nat) (s : Session) (tr ev : list Event)
    (t : Task) (i : Z) (r : completion unit) :
  sent_ids tr = [] -> Forall quiet ev ->
  _currentTask s = Some t -> In (task_ref t) A ->
  flying A s (((tr ++ [Dispatched i (task_ref t)]) ++ ev)
                ++ [Sent (action t) (code t) i]) r.
Proof.
  intros Htr Hq Hc Ha. right. exists t, i.
  destruct (quiet_trace ev Hq) as (E1 & _ & E2).
  split; [exact Hc|]. split; [|split; [|split; [|exact Ha]]].
  - rewrite !sent_ids_app, Htr, E2. reflexivity.
  - rewrite !dispatched_app, E1. cbn. rewrite !app_nil_r. apply last_snoc.
  - apply List.in_or_app. right. left. reflexivity.
Qed.

Lemma runNow_fuel_flies (n : nat) (task : Task) (s : Session) :
  post (runNow_fuel doc n task) s
    (flying (task_ref task :: List.map task_ref (_tasks s))).
Proof.
  revert task s. induction n as [|n IH]; intros task s.
  { left. reflexivity. }
  change (tpost (runNow_fuel doc (S n) task) s []
            (flying (task_ref task :: List.map task_ref (_tasks s)))).
  assert (Htr : sent_ids (@nil Event) = []) by reflexivity.
  revert Htr. generalize (@nil Event). intros tr Htr.
  cbn [runNow_fuel]. unfold runNow_with.
  tstep. tstep. tstep. tstep. cbn [_lastTask set_lastTask _currentTask
    set_currentTask set_lastContextId _lastContextId _contextTable].
  tstep. tstep. tstep.
  cbn [transpile set_contextTable set_lastTask set_lastContextId set_currentTask].
  set (A := task_ref task :: List.map task_ref (_tasks s)).
  assert (Hsilent : forall s2 r,
            flying A s2
              ((tr ++ [Dispatched (_lastContextId s + 1) (task_ref task)]) ++ ev)
              r).
  { intros s2 r. left. rewrite !sent_ids_app, Htr.
    match goal with
    | Hq : Forall quiet ev |- _ => destruct (quiet_trace ev Hq) as (_ & _ & ->)
    end. reflexivity. }
  assert (Hplain : forall s2 t,
            _lastTask s2 = Some t -> _currentTask s2 = Some t ->
            task_ref t = task_ref task ->
            _lastContextId s2 = _lastContextId s + 1 ->
            tpost send_task s2
              ((tr ++ [Dispatched (_lastContextId s + 1) (task_ref task)]) ++ ev)
              (flying A)).
  { intros s2 t Hl Hc Hr Hi. unfold send_task. tstep. rewrite Hl. tstep.
    rewrite Hi, <- Hr. apply flying_sent; try assumption.
    rewrite Hr. left. reflexivity. }
  destruct (transpile s) as [t|];
    [|apply (Hplain _ task); reflexivity].
  destruct (Action_eqb (action task) Action_run);
    [|apply (Hplain _ task); reflexivity].
  destruct (t (code task)) as [c|err].
  - tstep. apply (Hplain _ (set_code task c)); reflexivity.
  - tstep. destruct (error_of_thrown err) as [e|e|]; [|apply Hsilent..].
    unfold onMessage_with.
    cbn [delete_id_end msg_log msg_stdout msg_stderr msg_id msg_end truthy_opt].
    tstep. unfold message_task, lookup_context.
    cbn [_lastTask set_contextTable set_lastTask].
    unfold route_result, handle_result, handle_end, run_next.
    cbn [delete_id_end msg_error]. tstep.
    apply tpost_bind. tstep. cbn iota. tstep.
    cbn [_currentTask set_contextTable set_lastTask set_lastContextId
         set_currentTask].
    rewrite is_current_refl. tstep. tstep.
    cbn [_tasks set_contextTable set_lastTask set_lastContextId
         set_currentTask].
    destruct (_tasks s) as [|next rest] eqn:Et.
    + tstep. eapply flying_quiet; [apply Hsilent|assumption|reflexivity].
    + tstep.
      apply (tpost_flying (task_ref next :: List.map task_ref rest)).
      * rewrite !sent_ids_app, Htr.
        repeat match goal with
               | Hq : Forall quiet ?e |- context [sent_ids ?e] =>
                   rewrite (proj2 (proj2 (quiet_trace e Hq)))
               end.
        reflexivity.
      * subst A. intros x Hx. right. exact Hx.
      * apply IH.
  Unshelve. exact (Normal tt).
Qed.

Lemma flying_in_flight (A : list nat) (s : Session) (tr : list Event)
    (r : completion unit) :
  flying A s tr r -> in_flight s tr.
Proof.
  intros [H|(t & i & H1 & H2 & H3 & H4 & _)]; [left; exact H|].
  right. exists t, i. auto.
Qed.

Ltac sent_nil Htr :=
  rewrite ?sent_ids_app, ?Htr;
  repeat match goal with
         | Hq : Forall quiet ?e |- context [sent_ids ?e] =>
             rewrite (proj2 (proj2 (quiet_trace e Hq)))
         end;
  reflexivity.

Ltac flying_left Htr := left; sent_nil Htr.

Lemma run_with_flies (n : nat) (task : Task) (s : Session) (tr : list Event) :
  sent_ids tr = [] ->
  tpost (run_with (runNow_fuel doc n) task) s tr
    (flying (task_ref task :: List.map task_ref (_tasks s))).
Proof.
  intros Htr. unfold run_with. tstep.
  destruct (_killed s); [tstep; flying_left Htr|].
  tstep. destruct (_currentTask s) as [c|].
  - unfold _runLater. tstep. tstep. flying_left Htr.
  - apply (tpost_flying (task_ref task :: List.map task_ref (_tasks s)));
      [sent_nil Htr|auto|apply runNow_fuel_flies].
Qed.

Lemma _run_flies (task : Task) (s : Session) (tr : list Event) :
  sent_ids tr = [] ->
  tpost (_run doc task) s tr (fun s' tr' r => in_flight s' tr').
Proof.
  intros Htr. unfold _run, run_with. tstep.
  destruct (_killed s); [tstep; flying_left Htr|].
  tstep. destruct (_currentTask s) as [c|].
  - unfold _runLater. tstep. tstep. flying_left Htr.
  - apply tpost__runNow. eapply tpost_mono.
    + apply (tpost_flying (task_ref task :: List.map task_ref (_tasks s))
               (task_ref task :: List.map task_ref (_tasks s)));
        [sent_nil Htr|auto|apply runNow_fuel_flies].
    + cbn beta. intros s' tr' r. apply flying_in_flight.
Qed.

(** The handlers of a result on an idle session: only the closure of
    [inspect] submits a task, a new object, which is dispatched at
    once. *)
Lemma handle_result_idle (n : nat) (task : Task) (m : Message) (s : Session)
    (tr : list Event) :
  sent_ids tr = [] -> _currentTask s = None -> _tasks s = [] ->
  tpost (handle_result doc (runNow_fuel doc n) task m) s tr
    (flying [heap_next s]).
Proof.
  intros Htr Hc Ht. unfold handle_result.
  destruct (msg_error m) as [e|]; [tstep; flying_left Htr|].
  destruct (onSuccess task) as [h|]; [|tstep; flying_left Htr].
  destruct h as [f|cell e cd p cbs|cell e cd p cbs|cell e cbs];
    cbn [call_onSuccess].
  - tstep. flying_left Htr.
  - tstep. destruct (completeOnSuccess e cd p _ (msg_names m)) as [ml r].
    tstep. tstep. destruct r; [tstep| |]; flying_left Htr.
  - tstep. destruct (msg_inspection m) as [i|]; [|tstep; flying_left Htr].
    tstep. unfold getDocumentationAndInvokeCallbacks.
    destruct (negb (truthy (scope e))).
    + tstep. tstep. tstep. flying_left Htr.
    + tstep. eapply tpost_mono; [apply run_with_flies; exact Htr|].
      cbn beta. cbn [task_ref _tasks set_heap_next set_heap_inspectionResult].
      rewrite Ht. intros s' tr' r H. exact H.
  - destruct (msg_inspection m) as [i|]; [|tstep; flying_left Htr].
    tstep.
    destruct (heap_inspectionResult s !! cell) as [ir|];
      destruct (match constructorList i with
                | Some l => find_member_doc doc l (selector e)
                | None => None
                end) as [d|]; repeat tstep; flying_left Htr.
Qed.

(** The end of the context and the advance of the queue, after the
    handlers: when they have sent a task, it is another one than the
    task of the message. *)
Lemma finish_flies (n : nat) (task : Task) (contextId : option Z)
    (endMessage : bool) (s : Session) (tr : list Event) :
  sent_ids tr = [] \/
  (in_flight s tr /\ is_current task (_currentTask s) = false) ->
  tpost (bind (handle_end endMessage contextId task)
           (fun _ => run_next (runNow_fuel doc n) task)) s tr
    (fun s' tr' r => in_flight s' tr').
Proof.
  intros H.
  assert (Hnext : forall s1 ev,
            Forall quiet ev -> _currentTask s1 = _currentTask s ->
            tpost (run_next (runNow_fuel doc n) task) s1 (tr ++ ev)
              (fun s' tr' r => in_flight s' tr')).
  { intros s1 ev Hq Hc1. unfold run_next. tstep. rewrite Hc1.
    destruct H as [Htr|[Hf Hn]].
    - destruct (is_current task (_currentTask s));
        [|tstep; flying_left Htr].
      tstep. tstep. cbn [_tasks set_currentTask].
      destruct (_tasks s1) as [|next rest]; [tstep; flying_left Htr|].
      tstep. eapply tpost_mono.
      + apply (tpost_flying (task_ref next :: List.map task_ref rest)
                 (task_ref next :: List.map task_ref rest));
          [sent_nil Htr|auto|apply runNow_fuel_flies].
      + cbn beta. intros s' tr' r. apply flying_in_flight.
    - rewrite Hn. tstep.
      destruct Hf as [Hf|(t & i & H1 & H2 & H3 & H4)].
      + flying_left Hf.
      + destruct (quiet_app tr ev Hq) as (E1 & _ & E2).
        right. exists t, i. rewrite Hc1, E1, E2.
        split; [exact H1|]. split; [exact H2|]. split; [exact H3|].
        apply List.in_or_app. left. exact H4. }
  apply tpost_bind. unfold handle_end. destruct endMessage.
  - tstep. tstep. tstep. cbn iota.
    match goal with
    | |- tpost _ _ ((tr ++ [?e]) ++ ?ev) _ =>
        rewrite <- (app_assoc tr [e] ev);
        apply Hnext;
        [apply Forall_app; split; [repeat constructor|assumption]
        |destruct contextId; reflexivity]
    end.
  - tstep. cbn iota. rewrite <- (app_nil_r tr).
    apply Hnext; [constructor|reflexivity].
Qed.

Lemma message_task_allocated (s : Session) (contextId : option Z)
    (task : Task) :
  Stored s -> message_task s contextId = Some task -> allocated s task.
Proof.
  intros [H1 H2 _]. unfold message_task, lookup_context.
  destruct contextId as [i|].
  - destruct (_contextTable s !! i) as [t|] eqn:E.
    + intros [= <-]. apply (H2 i t E).
    + apply H1.
  - apply H1.
Qed.

Lemma route_result_flies (n : nat) (task : Task) (contextId : option Z)
    (endMessage : bool) (m : Message) (s : Session) :
  allocated s task -> Idle s ->
  tpost (route_result doc (runNow_fuel doc n) task contextId endMessage m) s []
    (fun s' tr' r => in_flight s' tr').
Proof.
  intros Ha Hi. unfold route_result. apply tpost_bind.
  destruct (_currentTask s) as [c|] eqn:Hc.
  - eapply tpost_mono;
      [apply (handle_result_calm doc _ task c); [apply silent_nil|exact Hc]|].
    cbn beta. intros s1 tr1 r1 [[_ Hs] Hc1].
    destruct r1 as [[]|err|]; [|left; exact Hs|left; exact Hs].
    apply finish_flies. left. exact Hs.
  - eapply tpost_mono;
      [apply (handle_result_idle n task m s []);
       [reflexivity|exact Hc|apply Hi, Hc]|].
    cbn beta. intros s1 tr1 r1 Hf.
    destruct r1 as [[]|err|]; try (apply (flying_in_flight _ _ _ _ Hf)).
    apply finish_flies. destruct Hf as [Hf|(t & i & H1 & H2 & H3 & H4 & H5)].
    + left. exact Hf.
    + right. split.
      * right. exists t, i. auto.
      * rewrite H1. unfold is_current, same_task.
        destruct H5 as [H5|[]]. unfold allocated in Ha.
        apply Nat.eqb_neq. lia.
Qed.

Lemma onMessage_with_flies (n : nat) (m : Message) (s : Session) :
  Stored s -> Idle s ->
  tpost (onMessage_with doc (runNow_fuel doc n) m) s []
    (fun s' tr' r => in_flight s' tr').
Proof.
  intros HS Hi. unfold onMessage_with.
  assert (Htr : sent_ids (@nil Event) = []) by reflexivity.
  cbn [delete_id_end msg_log msg_stdout msg_stderr].
  destruct (truthy_opt (msg_log m)); [tstep; flying_left Htr|].
  tstep. destruct (message_task s (msg_id m)) as [task|] eqn:Et;
    [|tstep; flying_left Htr].
  destruct (truthy_opt (msg_stdout m)); [tstep; flying_left Htr|].
  destruct (truthy_opt (msg_stderr m)); [tstep; flying_left Htr|].
  apply route_result_flies; [|exact Hi].
  apply (message_task_allocated s (msg_id m) task HS Et).
Qed.

(** A task that an operation sends to the server is the current task
    when the operation ends. *)
Lemma step_flies (op : Op) (s : Session) :
  Stored s -> Idle s ->
  tpost (step doc op) s [] (fun s' tr' r => in_flight s' tr').
Proof.
  intros HS Hi.
  assert (Htr : sent_ids (@nil Event) = []) by reflexivity.
  destruct op as [cd cbs|cd p cbs|cd p cbs|sg k|m]; cbn [step].
  - unfold execute. tstep. apply _run_flies. exact Htr.
  - unfold complete. tstep. tstep. tstep.
    destruct (parseExpression cd p) as [[e|]|err|]; try flying_left Htr.
    + tstep. apply _run_flies. exact Htr.
    + tstep. tstep. tstep. flying_left Htr.
  - unfold inspect. tstep.
    destruct (parseExpression cd p) as [[e|]|err|]; try flying_left Htr.
    + tstep. tstep. apply _run_flies. exact Htr.
    + tstep. tstep. tstep. flying_left Htr.
  - unfold kill. repeat tstep. flying_left Htr.
  - unfold server_message. tstep.
    destruct (srv_on_message (_server s)); [|tstep; flying_left Htr].
    apply tpost__onMessage. apply onMessage_with_flies; assumption.
Qed.

End Slot.



(** * Further properties of the code *)

(** ** The shape of a parsed expression *)

Lemma rel_index_0 (l : Z) : 0 <= l -> rel_index l 0 = 0.
Proof. intros H. unfold rel_index. cbn. lia. Qed.

Lemma rel_index_bounds (l i : Z) : 0 <= l -> 0 <= rel_index l i <= l.
Proof. intros H. unfold rel_index. destruct (Z.ltb_spec i 0); lia. Qed.

Lemma len_nonneg (s : list N) : 0 <= len s.
Proof. unfold len. lia. Qed.

(** The text before the cursor. *)
Lemma slice_0 (s : list N) (e : Z) :
  slice s 0 e = take (Z.to_nat (rel_index (len s) e)) s.
Proof.
  unfold slice. rewrite (rel_index_0 _ (len_nonneg s)).
  cbn [Z.to_nat drop]. f_equal. lia.
Qed.

Lemma slice_0_nat (s : list N) (k : nat) :
  (k <= length s)%nat -> slice s 0 (Z.of_nat k) = take k s.
Proof.
  intros H. rewrite slice_0. f_equal. unfold rel_index, len.
  destruct (Z.ltb_spec (Z.of_nat k) 0); lia.
Qed.

(** [code.slice(k, cursorPos)] for a position [k] in the text before
    the cursor is that text from [k] on. *)
Lemma slice_from (s : list N) (k : nat) (e : Z) :
  (k <= length (slice s 0 e))%nat ->
  slice s (Z.of_nat k) e = drop k (slice s 0 e).
Proof.
  rewrite slice_0. intros H. rewrite length_take in H. unfold slice.
  pose proof (rel_index_bounds (len s) e (len_nonneg s)) as Hb.
  assert (Hk : rel_index (len s) (Z.of_nat k) = Z.of_nat k).
  { unfold rel_index, len in *. destruct (Z.ltb_spec (Z.of_nat k) 0); lia. }
  rewrite Hk, Nat2Z.id. rewrite take_drop_commute. f_equal. f_equal. lia.
Qed.

(** A match of a pattern that ends in [$] is a suffix of the input. *)
Lemma exec_from_suffix (r : pattern) (s : list N) (i : Z) (m : MatchObject) :
  exec_from r s i = Some m ->
  exists k : nat,
    (k <= length s)%nat /\ index m = i + Z.of_nat k /\
    matched m = drop k s /\ matches r (matched m) = true.
Proof.
  revert i. induction s as [|c s IH]; intros i; cbn [exec_from].
  - destruct (matches r []) eqn:E; [|discriminate].
    intros [= <-]. exists 0%nat. cbn. repeat split; auto. lia.
  - destruct (matches r (c :: s)) eqn:E.
    + intros [= <-]. exists 0%nat. cbn. repeat split; auto; lia.
    + intros H. destruct (IH _ H) as (k & H1 & H2 & H3 & H4).
      exists (S k). cbn. repeat split; auto; lia.
Qed.

Lemma exec_end_suffix (r : pattern) (s : list N) (m : MatchObject) :
  exec_end r s = Some m ->
  exists k : nat,
    (k <= length s)%nat /\ index m = Z.of_nat k /\
    matched m = drop k s /\ matches r (matched m) = true.
Proof.
  intros H. destruct (exec_from_suffix r s 0 m H) as (k & H1 & H2 & H3 & H4).
  exists k. repeat split; auto.
Qed.

Lemma char_at_is_lookup (s : list N) (i : Z) (c : N) :
  char_at_is s i c = true -> 0 <= i /\ s !! Z.to_nat i = Some c.
Proof.
  unfold char_at_is, char_at. destruct (Z.ltb_spec i 0) as [Hi|Hi]; [discriminate|].
  destruct (s !! Z.to_nat i) as [x|]; [|discriminate].
  unfold char_eqb. intros Hx. apply N.eqb_eq in Hx. subst x. auto.
Qed.

(** [s[s.length - 1] === c]: [s] ends with [c]. *)
Lemma char_at_is_last (s : list N) (c : N) :
  char_at_is s (len s - 1) c = true ->
  s = take (length s - 1) s ++ [c].
Proof.
  intros H. apply char_at_is_lookup in H. destruct H as [H0 Hx].
  unfold len in *.
  replace (Z.to_nat (Z.of_nat (length s) - 1)) with (length s - 1)%nat in Hx by lia.
  rewrite <- (take_drop (length s - 1) s) at 1. f_equal.
  apply list_eq. intros [|j].
  - rewrite lookup_drop. rewrite Nat.add_0_r. exact Hx.
  - rewrite lookup_drop. cbn. apply lookup_ge_None. lia.
Qed.

(** [s[s.length - 2] === a && s[s.length - 1] === b]: [s] ends with
    [a] and [b]. *)
Lemma char_at_is_last2 (s : list N) (a b : N) :
  char_at_is s (len s - 2) a = true ->
  char_at_is s (len s - 1) b = true ->
  s = take (length s - 2) s ++ [a; b].
Proof.
  intros Ha Hb. apply char_at_is_lookup in Ha, Hb.
  destruct Ha as [Ha0 Ha], Hb as [Hb0 Hb]. unfold len in *.
  replace (Z.to_nat (Z.of_nat (length s) - 2)) with (length s - 2)%nat in Ha by lia.
  replace (Z.to_nat (Z.of_nat (length s) - 1)) with (length s - 2 + 1)%nat in Hb by lia.
  rewrite <- (take_drop (length s - 2) s) at 1. f_equal.
  apply list_eq. intros [|[|j]].
  - rewrite lookup_drop. rewrite Nat.add_0_r. exact Ha.
  - rewrite lookup_drop. exact Hb.
  - rewrite lookup_drop. cbn. apply lookup_ge_None. lia.
Qed.

Lemma len_minus (s : list N) (j : nat) :
  (j <= length s)%nat -> len s - Z.of_nat j = Z.of_nat (length s - j).
Proof. unfold len. lia. Qed.

(** The part of [parseExpression] after the selector has been taken
    off: [x] is what is left of the text before the cursor, [sel] the
    selector. *)
Ltac parse_tail code cursorPos x sel HE Hsel :=
  let Hd := fresh "Hdot" in
  let Ha := fresh "Ha" in
  let Hb := fresh "Hb" in
  let Hx := fresh "Hx" in
  let m := fresh "m" in
  let Hm := fresh "Hm" in
  let k := fresh "k" in
  destruct (char_at_is x (len x - 1) 46%N) eqn:Hd;
  [ pose proof (char_at_is_last x _ Hd) as Hx
  | destruct (char_at_is x (len x - 2) 91%N) eqn:Ha;
    [ destruct (char_at_is x (len x - 1) 34%N) eqn:Hb;
      [ pose proof (char_at_is_last2 x _ _ Ha Hb) as Hx
      | destruct (char_at_is x (len x - 1) 39%N) eqn:Hb';
        [ pose proof (char_at_is_last2 x _ _ Ha Hb') as Hx | ] ]
    | ] ];
  cbn [andb].

Lemma parseExpression_parsed (code : list N) (cursorPos : Z)
    (e : Expression) :
  parseExpression code cursorPos = Normal (Some e) ->
  parsed (slice code 0 cursorPos) e.
Proof.
  unfold parseExpression.
  remember (slice code 0 cursorPos) as E0 eqn:HE0.
  destruct (negb (truthy E0) || _).
  { intros [= <-]. split; cbn; auto.
    - exists E0. rewrite app_nil_r. reflexivity.
    - left. auto. }
  assert (Hsplit : exists x sel,
            E0 = x ++ sel /\
            (sel = [] \/ matches simpleIdentifierRE sel = true) /\
            match exec_end simpleIdentifierRE E0 with
            | Some m => matched m = sel /\ slice E0 0 (index m) = x
            | None => sel = [] /\ E0 = x
            end).
  { destruct (exec_end simpleIdentifierRE E0) as [m|] eqn:Hm.
    - destruct (exec_end_suffix _ _ _ Hm) as (k & Hk & Hi & Hd & Hmt).
      exists (take k E0), (drop k E0). rewrite take_drop.
      split; [reflexivity|]. split; [right; rewrite <- Hd; exact Hmt|].
      split; [exact Hd|]. rewrite Hi. apply slice_0_nat. exact Hk.
    - exists E0, []. rewrite app_nil_r. auto. }
  destruct Hsplit as (x & sel & HE & Hsel & Hre).
  assert (Hstep : (match exec_end simpleIdentifierRE E0 with
                   | Some _ =>
                       let! selector := get_0 (exec_end simpleIdentifierRE E0) in
                       let! idx := get_index (exec_end simpleIdentifierRE E0) in
                       Normal (selector, slice E0 0 idx)
                   | None => Normal ([], E0)
                   end) = Normal (sel, x)).
  { destruct (exec_end simpleIdentifierRE E0) as [m|]; cbn.
    - destruct Hre as [-> ->]. reflexivity.
    - destruct Hre as [-> ->]. reflexivity. }
  rewrite Hstep. cbn [cbind]. clear Hstep Hre.
  assert (HxE : (length x <= length E0)%nat).
  { rewrite HE, length_app. lia. }
  assert (Hop : forall (k : nat) (lo ro : list N) (m : MatchObject),
            (k <= length x)%nat ->
            x = take (length x - k) x ++ lo ->
            truthy lo = true ->
            operator_pair lo ro ->
            exec_end complexIdentifierRE (take (length x - k) x) = Some m ->
            parsed E0
              {| matchedText := slice code (index m) cursorPos;
                 scope := matched m; leftOp := lo;
                 selector := sel; rightOp := ro |}).
  { intros k lo ro m Hk Hx Hlo Hpair Hm.
    destruct (exec_end_suffix _ _ _ Hm) as (j & Hj & Hi & Hd & Hmt).
    rewrite length_take in Hj.
    assert (Hmatch : slice code (index m) cursorPos = matched m ++ lo ++ sel).
    { rewrite Hi. rewrite slice_from by (rewrite <- HE0; lia).
      rewrite <- HE0, HE. rewrite Hx at 1. rewrite <- !app_assoc.
      rewrite drop_app_le by (rewrite length_take; lia).
      rewrite Hd. reflexivity. }
    split; cbn [matchedText scope leftOp selector rightOp].
    - exact Hmatch.
    - exists (take j (take (length x - k) x)). rewrite Hmatch, Hd.
      rewrite app_assoc, take_drop. rewrite HE. rewrite Hx at 1.
      rewrite <- !app_assoc. reflexivity.
    - exact Hpair.
    - rewrite Hlo. exact Hmt.
    - exact Hsel. }
  assert (Hnone : parsed E0
            {| matchedText := slice code (len x) cursorPos;
               scope := []; leftOp := []; selector := sel; rightOp := [] |}).
  { assert (Hmatch : slice code (len x) cursorPos = sel).
    { unfold len. rewrite slice_from by (rewrite <- HE0; lia).
      rewrite <- HE0, HE. rewrite drop_app_length. reflexivity. }
    split; cbn [matchedText scope leftOp selector rightOp truthy].
    - exact Hmatch.
    - exists x. rewrite Hmatch. exact HE.
    - left. auto.
    - reflexivity.
    - exact Hsel. }
  parse_tail code cursorPos x sel HE Hsel.
  - assert (HL : (1 <= length x)%nat)
      by (apply (f_equal length) in Hx; rewrite length_app in Hx; cbn in Hx; lia).
    replace (len x - 1) with (Z.of_nat (length x - 1)) by (unfold len; lia).
    rewrite slice_0_nat by lia.
    destruct (exec_end complexIdentifierRE (take (length x - 1) x)) as [m|] eqn:Hm;
      cbn; [|discriminate].
    intros [= <-].
    apply (Hop 1%nat (js ".") [] m);
      [lia|exact Hx|reflexivity|right; left; auto|exact Hm].
  - assert (HL : (2 <= length x)%nat)
      by (apply (f_equal length) in Hx; rewrite length_app in Hx; cbn in Hx; lia).
    replace (len x - 2) with (Z.of_nat (length x - 2)) by (unfold len; lia).
    rewrite slice_0_nat by lia.
    destruct (exec_end complexIdentifierRE (take (length x - 2) x)) as [m|] eqn:Hm;
      cbn; [|discriminate].
    intros [= <-].
    apply (Hop 2%nat [91%N; 34%N] [34%N; 93%N] m);
      [lia|exact Hx|reflexivity|right; right; left; auto|exact Hm].
  - assert (HL : (2 <= length x)%nat)
      by (apply (f_equal length) in Hx; rewrite length_app in Hx; cbn in Hx; lia).
    replace (len x - 2) with (Z.of_nat (length x - 2)) by (unfold len; lia).
    rewrite slice_0_nat by lia.
    destruct (exec_end complexIdentifierRE (take (length x - 2) x)) as [m|] eqn:Hm;
      cbn; [|discriminate].
    intros [= <-].
    apply (Hop 2%nat (js "['") (js "']") m);
      [lia|exact Hx|reflexivity|right; right; right; auto|exact Hm].
  - intros [= <-]. exact Hnone.
  - intros [= <-]. exact Hnone.
Qed.

(** X1. The matched text of a parsed expression is its scope, its left
    operator and its selector, in this order, and it is the end of the
    text before the cursor. *)
Theorem matchedText_decomposes (code : list N) (cursorPos : Z) (e : Expression) :
  parseExpression code cursorPos = Normal (Some e) ->
  matchedText e = scope e ++ leftOp e ++ selector e /\
  exists pre, slice code 0 cursorPos = pre ++ matchedText e.
Proof.
  intros H. destruct (parseExpression_parsed code cursorPos e H) as [H1 H2 _ _ _].
  split; assumption.
Qed.

Lemma matchedText_decomposes_witness :
  parseExpression (js "x = foo.b") 9 =
    Normal (Some {| matchedText := js "foo.b"; scope := js "foo";
                    leftOp := js "."; selector := js "b"; rightOp := [] |}) /\
  js "foo.b" = js "foo" ++ js "." ++ js "b" /\
  exists pre, slice (js "x = foo.b") 0 9 = pre ++ js "foo.b".
Proof.
  split; [vm_compute; reflexivity|].
  apply (matchedText_decomposes (js "x = foo.b") 9
           {| matchedText := js "foo.b"; scope := js "foo";
              leftOp := js "."; selector := js "b"; rightOp := [] |}).
  vm_compute. reflexivity.
Defined.

(** *** What the patterns match *)

Lemma matches_never_seq (r : pattern) (s : list N) :
  matches (PSeq PNever r) s = false.
Proof. induction s as [|c s IH]; [reflexivity|exact IH]. Qed.

Lemma matches_never_seq2 (a b : pattern) (s : list N) :
  matches (PSeq (PSeq PNever a) b) s = false.
Proof. induction s as [|c s IH]; [reflexivity|exact IH]. Qed.

Lemma matches_alt (a b : pattern) (s : list N) :
  matches (PAlt a b) s = matches a s || matches b s.
Proof.
  revert a b. induction s as [|c s IH]; intros a b; [reflexivity|].
  cbn [matches after]. apply IH.
Qed.

Lemma matches_empty_seq (r : pattern) (s : list N) :
  matches (PSeq PEmpty r) s = matches r s.
Proof.
  destruct s as [|c s]; [reflexivity|].
  cbn [matches after nullable]. rewrite matches_alt, matches_never_seq.
  reflexivity.
Qed.

Lemma matches_star_class (p : N -> bool) (s : list N) :
  matches (PStar (PClass p)) s = forallb p s.
Proof.
  induction s as [|c s IH]; [reflexivity|].
  cbn [matches after forallb]. destruct (p c).
  - rewrite matches_empty_seq. exact IH.
  - apply matches_never_seq.
Qed.

(** A text matches [[_$a-zA-Z][_$a-zA-Z0-9]*] when it starts with a
    letter, [_] or [$] and goes on with letters, digits, [_] and [$]. *)
Lemma matches_identifier (s : list N) :
  matches identifierP s =
  match s with
  | [] => false
  | c :: t => identifier_start c && forallb identifier_part t
  end.
Proof.
  destruct s as [|c t]; [reflexivity|].
  unfold identifierP. cbn [matches after nullable].
  destruct (identifier_start c); cbn [andb].
  - rewrite matches_empty_seq. apply matches_star_class.
  - apply matches_never_seq.
Qed.

Lemma matches_complex_start (s : list N) :
  matches complexIdentifierRE s = true ->
  exists c t, s = c :: t /\ identifier_start c = true.
Proof.
  destruct s as [|c t]; [discriminate|]. intros H. exists c, t.
  split; [reflexivity|].
  unfold complexIdentifierRE, identifierP in H.
  cbn [matches after nullable andb] in H.
  destruct (identifier_start c); [reflexivity|].
  rewrite matches_never_seq2 in H. discriminate H.
Qed.

(** X2. The operators of a parsed expression come in matching pairs:
    none, [.] with nothing to close, [["] with ["]], or [['] with [']];
    and the expression has a scope exactly when it has an operator. The
    scope then starts like an identifier. *)
Theorem operators_match_and_scope (code : list N) (cursorPos : Z)
    (e : Expression) :
  parseExpression code cursorPos = Normal (Some e) ->
  operator_pair (leftOp e) (rightOp e) /\
  (leftOp e = [] -> scope e = []) /\
  (leftOp e <> [] ->
   exists c t, scope e = c :: t /\ identifier_start c = true).
Proof.
  intros H. destruct (parseExpression_parsed code cursorPos e H) as [_ _ H3 H4 _].
  split; [exact H3|]. split.
  - intros E. rewrite E in H4. exact H4.
  - intros E. destruct (leftOp e) as [|x l]; [contradiction|].
    cbn [truthy] in H4. apply matches_complex_start. exact H4.
Qed.

Lemma operators_match_and_scope_witness :
  let e := {| matchedText := [102; 111; 111; 91; 39; 98]%N; scope := js "foo";
              leftOp := js "['"; selector := js "b"; rightOp := js "']" |} in
  parseExpression [102; 111; 111; 91; 39; 98]%N 6 = Normal (Some e) /\
  operator_pair (leftOp e) (rightOp e) /\
  (leftOp e = [] -> scope e = []) /\
  (leftOp e <> [] ->
   exists c t, scope e = c :: t /\ identifier_start c = true).
Proof.
  split; [vm_compute; reflexivity|].
  apply (operators_match_and_scope [102; 111; 111; 91; 39; 98]%N 6).
  vm_compute. reflexivity.
Defined.

(** X3. The selector of a parsed expression is empty or an identifier:
    a letter, [_] or [$] followed by letters, digits, [_] and [$]. *)
Theorem selector_is_identifier (code : list N) (cursorPos : Z) (e : Expression) :
  parseExpression code cursorPos = Normal (Some e) ->
  selector e = [] \/
  exists c t, selector e = c :: t /\ identifier_start c = true /\
              forallb identifier_part t = true.
Proof.
  intros H. destruct (parseExpression_parsed code cursorPos e H) as [_ _ _ _ H5].
  destruct H5 as [H5|H5]; [left; exact H5|right].
  unfold simpleIdentifierRE in H5. rewrite matches_identifier in H5.
  destruct (selector e) as [|c t]; [discriminate|].
  apply andb_true_iff in H5. destruct H5. eauto.
Qed.

Lemma selector_is_identifier_witness :
  let e := {| matchedText := js "foo.b1"; scope := js "foo";
              leftOp := js "."; selector := js "b1"; rightOp := [] |} in
  parseExpression (js "foo.b1") 6 = Normal (Some e) /\
  (selector e = [] \/
   exists c t, selector e = c :: t /\ identifier_start c = true /\
               forallb identifier_part t = true).
Proof.
  split; [vm_compute; reflexivity|].
  apply (selector_is_identifier (js "foo.b1") 6).
  vm_compute. reflexivity.
Defined.

(** *** The text after the cursor *)

Lemma slice_app_before (code extra : list N) (a cursorPos : Z) :
  0 <= a -> 0 <= cursorPos <= len code ->
  slice (code ++ extra) a cursorPos = slice code a cursorPos.
Proof.
  intros Ha Hp. unfold slice, rel_index, len in *. rewrite length_app.
  destruct (Z.ltb_spec a 0); [lia|].
  destruct (Z.ltb_spec cursorPos 0); [lia|].
  destruct (Z_le_gt_dec a (Z.of_nat (length code))) as [Hle|Hgt].
  - replace (Z.min a (Z.of_nat (length code + length extra))) with a by lia.
    replace (Z.min a (Z.of_nat (length code))) with a by lia.
    replace (Z.min cursorPos (Z.of_nat (length code + length extra)))
      with cursorPos by lia.
    replace (Z.min cursorPos (Z.of_nat (length code))) with cursorPos by lia.
    rewrite drop_app_le by lia.
    rewrite take_app_le; [reflexivity|]. rewrite length_drop. lia.
  - replace (Z.to_nat (Z.min cursorPos (Z.of_nat (length code + length extra))
                       - Z.min a (Z.of_nat (length code + length extra))))
      with 0%nat by lia.
    replace (Z.to_nat (Z.min cursorPos (Z.of_nat (length code))
                       - Z.min a (Z.of_nat (length code))))
      with 0%nat by lia.
    reflexivity.
Qed.

Lemma exec_end_index_nonneg (r : pattern) (s : list N) (m : MatchObject) :
  exec_end r s = Some m -> 0 <= index m.
Proof.
  intros H. destruct (exec_end_suffix r s m H) as (k & _ & Hi & _). lia.
Qed.

(** X4. [parseExpression] reads the code up to the cursor only: what
    follows a cursor inside the code does not change the result. *)
Theorem parseExpression_ignores_text_after_cursor (code extra : list N)
    (cursorPos : Z) :
  0 <= cursorPos <= len code ->
  parseExpression (code ++ extra) cursorPos = parseExpression code cursorPos.
Proof.
  intros Hp. unfold parseExpression.
  rewrite (slice_app_before code extra 0 cursorPos) by lia.
  set (E0 := slice code 0 cursorPos).
  destruct (negb (truthy E0) || _); [reflexivity|].
  assert (Hlen : forall x : list N,
            slice (code ++ extra) (len x) cursorPos = slice code (len x) cursorPos).
  { intros x. apply slice_app_before; [apply len_nonneg|exact Hp]. }
  assert (Hidx : forall r x m, exec_end r x = Some m ->
            slice (code ++ extra) (index m) cursorPos
            = slice code (index m) cursorPos).
  { intros r x m Hm. apply slice_app_before; [|exact Hp].
    apply (exec_end_index_nonneg r x m Hm). }
  destruct (exec_end simpleIdentifierRE E0) as [m|]; cbn [get_0 get_index cbind];
    repeat match goal with
           | |- context [if ?b then _ else _] => destruct b eqn:?
           end;
    cbn [get_0 get_index cbind truthy js negb List.map list_ascii_of_string];
    rewrite ?Hlen;
    try reflexivity;
    match goal with
    | H : exec_end complexIdentifierRE _ = Some _ |- _ =>
        rewrite (Hidx _ _ _ H); reflexivity
    end.
Qed.

Lemma parseExpression_ignores_text_after_cursor_witness :
  0 <= 5 <= len (js "foo.b") /\
  parseExpression (js "foo.b" ++ js "ar + 1") 5 = parseExpression (js "foo.b") 5.
Proof.
  split; [vm_compute; split; discriminate|].
  apply (parseExpression_ignores_text_after_cursor (js "foo.b") (js "ar + 1") 5).
  vm_compute. split; discriminate.
Defined.

(** ** What a completion holds *)

Lemma starts_with_empty_selector (sel n : list N) :
  truthy sel = false -> starts_with sel n = true.
Proof. intros H. apply truthy_false in H. subst sel. apply starts_with_nil. Qed.

Lemma completion_list_sound (e : Expression) (names : list (list N)) (y : list N) :
  In y (completion_list e names) ->
  exists n, y = scope e ++ leftOp e ++ n ++ rightOp e /\
            starts_with (selector e) n = true /\
            (In n names \/ (scope e = [] /\ In n javascriptKeywords)).
Proof.
  unfold completion_list.
  set (l0 := if negb (truthy (scope e)) then names ++ javascriptKeywords else names).
  set (l1 := if truthy (selector e)
             then List.filter (starts_with (selector e)) l0 else l0).
  assert (H0 : forall n, In n l0 ->
            In n names \/ (scope e = [] /\ In n javascriptKeywords)).
  { intros n. subst l0. destruct (truthy (scope e)) eqn:E; cbn [negb]; [auto|].
    intros H. apply List.in_app_or in H. destruct H; [auto|right].
    split; [apply truthy_false; exact E|assumption]. }
  assert (H1 : forall n, In n l1 ->
            In n l0 /\ starts_with (selector e) n = true).
  { intros n. subst l1. destruct (truthy (selector e)) eqn:E.
    - intros H. apply List.filter_In in H. exact H.
    - intros H. split; [exact H|]. apply starts_with_empty_selector, E. }
  destruct (truthy (scope e ++ leftOp e) || truthy (rightOp e)) eqn:Hw.
  - intros H. apply List.in_map_iff in H. destruct H as (n & <- & Hn).
    destruct (H1 n Hn) as [Hn0 Hs]. exists n. rewrite <- app_assoc. auto.
  - intros Hn. destruct (H1 y Hn) as [Hn0 Hs]. exists y.
    apply orb_false_iff in Hw. destruct Hw as [Hl Hr].
    apply truthy_false in Hl. apply truthy_false in Hr.
    apply List.app_eq_nil in Hl. destruct Hl as [Hsc Hlo].
    rewrite Hsc, Hlo, Hr in *. cbn [app]. rewrite app_nil_r. auto.
Qed.

(** X5. At the first delivery of a completion, every entry of the
    delivered list is scope + leftOp + name + rightOp for a name that
    starts with the selector and comes from the names of the server
    or, when the expression has no scope, from the reserved words. *)
Theorem completion_entries_are_wrapped_names (e : Expression) (code : list N)
    (cursorPos : Z) (names : list (list N)) :
  exists c : Completion,
    (completeOnSuccess e code cursorPos [] (Some names)).2 = Normal c /\
    forall x, In x (list_ c) ->
      exists n, x = Some (scope e ++ leftOp e ++ n ++ rightOp e) /\
                starts_with (selector e) n = true /\
                (In n names \/ (scope e = [] /\ In n javascriptKeywords)).
Proof.
  destruct (completeOnSuccess_first e code cursorPos names) as (c & Hc & Hl & _).
  exists c. rewrite Hc. split; [reflexivity|].
  intros x Hx. rewrite Hl in Hx. apply List.in_map_iff in Hx.
  destruct Hx as (y & <- & Hy).
  destruct (completion_list_sound e names y Hy) as (n & -> & H2 & H3).
  exists n. auto.
Qed.

(** *** The range to replace *)

Lemma str_eqb_charAt (x : N) (code : list N) (i : Z) :
  str_eqb [x] (charAt code i) = true -> char_at code i = Some x.
Proof.
  unfold charAt. destruct (char_at code i) as [y|]; [|discriminate].
  cbn. unfold char_eqb. rewrite andb_true_r. intros H.
  apply N.eqb_eq in H. congruence.
Qed.

Lemma scan_match_spec (rest code : list N) (c : Z) :
  c <= scan_match rest code c <= c + len rest /\
  forall j : nat, Z.of_nat j < scan_match rest code c - c ->
    char_at code (c + Z.of_nat j) = rest !! j.
Proof.
  revert c. induction rest as [|x rest IH]; intros c; cbn [scan_match].
  - unfold len. cbn. split; [lia|]. intros j Hj. lia.
  - destruct (c <? len code).
    2:{ unfold len. split; [lia|]. intros j Hj. lia. }
    destruct (str_eqb [x] (charAt code c)) eqn:E; cbn [negb].
    2:{ unfold len. split; [lia|]. intros j Hj. lia. }
    destruct (IH (c + 1)) as [Hb Hj]. unfold len in *. cbn [length].
    split; [lia|]. intros [|j] H.
    + cbn. rewrite Z.add_0_r. apply str_eqb_charAt, E.
    + rewrite lookup_cons. rewrite <- (Hj j) by lia. f_equal. lia.
Qed.

Lemma reduce_shortest_spec (p : list N) (l : list (list N)) :
  exists m : list N,
    reduce_shortest (Some p) (List.map Some l) = Normal (Some m) /\
    In m (p :: l) /\ forall y, In y (p :: l) -> len m <= len y.
Proof.
  revert p. induction l as [|c l IH]; intros p; cbn [List.map reduce_shortest].
  - exists p. split; [reflexivity|]. split; [left; reflexivity|].
    intros y [<-|[]]. lia.
  - destruct (Z.leb_spec (len p) (len c)) as [Hle|Hgt].
    + destruct (IH p) as (m & Hm & Hin & Hmin). exists m.
      split; [exact Hm|]. split.
      * destruct Hin as [<-|Hin]; [left; reflexivity|right; right; exact Hin].
      * intros y [<-|[<-|Hy]].
        -- apply Hmin. left; reflexivity.
        -- specialize (Hmin p (or_introl eq_refl)). lia.
        -- apply Hmin. right; exact Hy.
    + destruct (IH c) as (m & Hm & Hin & Hmin). exists m.
      split; [exact Hm|]. split.
      * right. exact Hin.
      * intros y [<-|[<-|Hy]].
        -- specialize (Hmin c (or_introl eq_refl)). lia.
        -- apply Hmin. left; reflexivity.
        -- apply Hmin. right; exact Hy.
Qed.

Lemma starts_with_spec (p e : list N) :
  starts_with p e = true <-> exists t, e = p ++ t.
Proof.
  revert e. induction p as [|x p IH]; intros e.
  - rewrite starts_with_nil. split; [intros _; exists e; reflexivity|auto].
  - destruct e as [|y e]; cbn [starts_with].
    + split; [discriminate|]. intros [t Ht]. discriminate Ht.
    + rewrite andb_true_iff, IH. unfold char_eqb. rewrite N.eqb_eq. split.
      * intros [-> [t ->]]. exists t. reflexivity.
      * intros [t [= -> ->]]. split; [reflexivity|exists t; reflexivity].
Qed.

(** [indexOf] gives the first position at which the text occurs, and
    -1 when it occurs nowhere. *)
Lemma indexOf_from_spec (s p : list N) (i : Z) :
  (indexOf_from s p i = -1 /\ forall pre post, s <> pre ++ p ++ post) \/
  (exists pre post,
     s = pre ++ p ++ post /\ indexOf_from s p i = i + len pre /\
     forall pre' post', s = pre' ++ p ++ post' ->
                        (length pre <= length pre')%nat).
Proof.
  revert i. induction s as [|c s IH]; intros i; cbn [indexOf_from].
  - destruct (starts_with p []) eqn:E.
    + right. apply starts_with_spec in E. destruct E as [t Ht].
      symmetry in Ht. apply List.app_eq_nil in Ht. destruct Ht as [-> ->].
      exists [], []. split; [reflexivity|]. split; [unfold len; cbn; lia|].
      intros. cbn. lia.
    + left. split; [reflexivity|]. intros pre post Hs.
      symmetry in Hs. apply List.app_eq_nil in Hs. destruct Hs as [-> Hs].
      apply List.app_eq_nil in Hs. destruct Hs as [-> ->]. discriminate E.
  - destruct (starts_with p (c :: s)) eqn:E.
    + right. apply starts_with_spec in E. destruct E as [t Ht].
      exists [], t. split; [exact Ht|]. split; [unfold len; cbn; lia|].
      intros. cbn. lia.
    + assert (Hno : forall post, c :: s <> p ++ post).
      { intros post Hs.
        assert (Ht : starts_with p (c :: s) = true)
          by (apply starts_with_spec; exists post; exact Hs).
        congruence. }
      destruct (IH (i + 1)) as [[Hi Hn]|(pre & post & Hs & Hi & Hmin)].
      * left. split; [exact Hi|]. intros [|x pre] post Hs.
        -- apply (Hno post Hs).
        -- injection Hs as _ Hs. apply (Hn pre post Hs).
      * right. exists (c :: pre), post.
        split; [cbn; rewrite <- Hs; reflexivity|].
        split; [rewrite Hi; unfold len; cbn [length]; lia|].
        intros [|x pre'] post' Hs'.
        -- exfalso. apply (Hno post' Hs').
        -- injection Hs' as _ Hs'. specialize (Hmin pre' post' Hs').
           cbn. lia.
Qed.

(** [reduce] keeps the first of the shortest entries. *)
Lemma reduce_shortest_first (p : list N) (l : list (list N)) :
  exists (before : list (list N)) (m : list N) (after : list (list N)),
    reduce_shortest (Some p) (List.map Some l) = Normal (Some m) /\
    p :: l = before ++ m :: after /\
    (forall y, In y before -> len m < len y) /\
    (forall y, In y after -> len m <= len y).
Proof.
  revert p. induction l as [|c l IH]; intros p; cbn [List.map reduce_shortest].
  - exists [], p, []. split; [reflexivity|]. split; [reflexivity|].
    split; intros y [].
  - destruct (Z.leb_spec (len p) (len c)) as [Hle|Hgt].
    + destruct (IH p) as (before & m & after & Hm & Hd & Hb & Ha).
      destruct before as [|x before].
      * injection Hd as <- <-. exists [], p, (c :: l).
        split; [exact Hm|]. split; [reflexivity|].
        split; [intros y []|]. intros y [<-|Hy]; [exact Hle|apply Ha, Hy].
      * injection Hd as <- ->. exists (p :: c :: before), m, after.
        split; [exact Hm|]. split; [reflexivity|]. split; [|exact Ha].
        assert (Hp : len m < len p) by (apply Hb; left; reflexivity).
        intros y [<-|[<-|Hy]]; [exact Hp|lia|apply Hb; right; exact Hy].
    + destruct (IH c) as (before & m & after & Hm & Hd & Hb & Ha).
      exists (p :: before), m, after.
      split; [exact Hm|]. split; [rewrite Hd; reflexivity|]. split; [|exact Ha].
      intros y [<-|Hy]; [|apply Hb, Hy].
      destruct before as [|x before].
      * injection Hd as ->. lia.
      * injection Hd as <-.
        assert (Hc : len m < len c) by (apply Hb; left; reflexivity). lia.
Qed.

Lemma str_eqb_refl (a : list N) : str_eqb a a = true.
Proof.
  induction a as [|x a IH]; [reflexivity|].
  cbn. unfold char_eqb. rewrite N.eqb_refl. exact IH.
Qed.

(** The scan stops at the end of the entry, at the end of the code, or
    at the first character that differs. *)
Lemma scan_match_stop (rest code : list N) (c : Z) :
  scan_match rest code c = c + len rest \/
  len code <= scan_match rest code c \/
  exists x, rest !! Z.to_nat (scan_match rest code c - c) = Some x /\
            char_at code (scan_match rest code c) <> Some x.
Proof.
  revert c. induction rest as [|x rest IH]; intros c; cbn [scan_match].
  - left. unfold len. cbn. lia.
  - destruct (Z.ltb_spec c (len code)) as [Hlt|Hge]; [|right; left; exact Hge].
    destruct (str_eqb [x] (charAt code c)) eqn:E; cbn [negb].
    + pose proof (proj1 (scan_match_spec rest code (c + 1))) as Hb.
      destruct (IH (c + 1)) as [H|[H|(y & Hy & Hc)]].
      * left. rewrite H. unfold len. cbn [length]. lia.
      * right. left. exact H.
      * right. right. exists y. split; [|exact Hc].
        replace (Z.to_nat (scan_match rest code (c + 1) - c))
          with (S (Z.to_nat (scan_match rest code (c + 1) - (c + 1)))) by lia.
        exact Hy.
    + right. right. exists x. rewrite Z.sub_diag. split; [reflexivity|].
      intros Hc. unfold charAt in E. rewrite Hc in E.
      rewrite str_eqb_refl in E. discriminate E.
Qed.

(** X6. The range a completion asks to replace, at the first
    delivery. With no match it is empty, at the cursor. With matches
    it starts at the first occurrence of the matched text in the code
    (at -1 when the matched text is not in the code), and it runs over
    the characters that the code shares, from there, with the first of
    the shortest entries of the list: it ends where that entry ends,
    where the code ends, or at the first character that differs. *)
Theorem completion_range (e : Expression) (code : list N) (cursorPos : Z)
    (names : list (list N)) :
  exists c : Completion,
    (completeOnSuccess e code cursorPos [] (Some names)).2 = Normal c /\
    (list_ c = [] -> cursorStart c = cursorPos /\ cursorEnd c = cursorPos) /\
    (list_ c <> [] ->
     cursorStart c = indexOf code (matchedText e) /\
     ((cursorStart c = -1 /\
       forall pre post, code <> pre ++ matchedText e ++ post) \/
      (exists pre post,
         code = pre ++ matchedText e ++ post /\ cursorStart c = len pre /\
         forall pre' post', code = pre' ++ matchedText e ++ post' ->
                            (length pre <= length pre')%nat)) /\
     exists (before : list (list N)) (shortest : list N)
            (after : list (list N)),
       list_ c = List.map Some (before ++ shortest :: after) /\
       (forall y, In y before -> len shortest < len y) /\
       (forall y, In y after -> len shortest <= len y) /\
       cursorStart c <= cursorEnd c <= cursorStart c + len shortest /\
       (forall j : nat, Z.of_nat j < cursorEnd c - cursorStart c ->
          char_at code (cursorStart c + Z.of_nat j) = shortest !! j) /\
       (cursorEnd c = cursorStart c + len shortest \/
        len code <= cursorEnd c \/
        exists x,
          shortest !! Z.to_nat (cursorEnd c - cursorStart c) = Some x /\
          char_at code (cursorEnd c) <> Some x)).
Proof.
  remember (completion_list e names) as target eqn:Et.
  assert (H : exists c : Completion,
            (completeOnSuccess e code cursorPos [] (Some names)).2 = Normal c /\
            list_ c = List.map Some target /\
            match target with
            | [] => cursorStart c = cursorPos /\ cursorEnd c = cursorPos
            | p :: l =>
                exists m, reduce_shortest (Some p) (List.map Some l)
                          = Normal (Some m) /\
                  cursorStart c = indexOf code (matchedText e) /\
                  cursorEnd c = scan_match m code (indexOf code (matchedText e))
            end).
  { unfold completeOnSuccess. unfold completion_list in Et.
    cbv zeta in *. cbn [concat_arg app].
    set (n0 := if negb (truthy (scope e)) then names ++ javascriptKeywords
               else names) in *.
    assert (E0 : (if negb (truthy (scope e))
                  then List.map Some names ++ List.map Some javascriptKeywords
                  else List.map Some names) = List.map Some n0).
    { subst n0. destruct (negb (truthy (scope e)));
        [rewrite List.map_app|]; reflexivity. }
    rewrite E0. clear E0.
    set (n1 := if truthy (selector e)
               then List.filter (starts_with (selector e)) n0 else n0) in *.
    assert (E1 : (if truthy (selector e)
                  then filter_selector (selector e) (List.map Some n0)
                  else Normal (List.map Some n0)) = Normal (List.map Some n1)).
    { subst n1. destruct (truthy (selector e));
        [apply filter_selector_strings|reflexivity]. }
    rewrite E1. clear E1.
    set (left := scope e ++ leftOp e) in *.
    set (right := rightOp e) in *.
    assert (E2 : (if truthy left || truthy right
                  then List.map (wrap left right) (List.map Some n1)
                  else List.map Some n1) = List.map Some target).
    { subst target. destruct (truthy left || truthy right);
        [apply wrap_strings|reflexivity]. }
    rewrite E2. clear E2 Et.
    destruct target as [|p l]; cbn [List.map snd cbind].
    - eexists. split; [reflexivity|]. cbn. auto.
    - destruct (reduce_shortest_spec p l) as (m & Hm & _). rewrite Hm.
      cbn [cbind]. eexists. split; [reflexivity|]. split; [reflexivity|].
      exists m. cbn. auto. }
  destruct H as (c & Hc & Hl & Hr). exists c. split; [exact Hc|].
  destruct target as [|p l].
  - split; [intros _; exact Hr|]. intros Hne. rewrite Hl in Hne.
    contradiction.
  - split; [rewrite Hl; discriminate|]. intros _.
    destruct Hr as (m & Hm & Hs & He).
    destruct (reduce_shortest_first p l)
      as (before & m' & after & Hm' & Hd & Hb & Ha).
    rewrite Hm in Hm'. injection Hm' as <-.
    split; [exact Hs|]. split.
    { rewrite Hs. unfold indexOf.
      destruct (indexOf_from_spec code (matchedText e) 0)
        as [[Hi Hn]|(pre & post & Hcode & Hi & Hmin)].
      - left. split; assumption.
      - right. exists pre, post. split; [exact Hcode|].
        split; [rewrite Hi; lia|exact Hmin]. }
    exists before, m, after. rewrite Hl, Hd.
    split; [reflexivity|]. split; [exact Hb|]. split; [exact Ha|].
    rewrite Hs, He.
    destruct (scan_match_spec m code (indexOf code (matchedText e)))
      as [H1 H2].
    split; [exact H1|]. split; [exact H2|]. apply scan_match_stop.
Qed.

(** ** After [kill] *)

Section Killed.

Variable doc : jsstring -> option Documentation.

Lemma run_dead (task : Task) (s : Session) :
  _killed s = true -> _run doc task s = (s, [], Normal tt).
Proof.
  intros H. unfold _run, run_with, bind, get. cbn. rewrite H. reflexivity.
Qed.

Ltac dead_final Hs :=
  split; [split; cbn; assumption|];
  split; [unfold same_schedule in *; cbn; exact Hs|];
  split; [rewrite ?Forall_app; repeat split;
          first [assumption | repeat constructor]|].

Lemma step_dead (op : Op) (s0 s : Session) (tr : list Event) :
  dead s -> same_schedule s0 s -> Forall quiet tr ->
  tpost (step doc op) s tr (fun s' tr' r =>
    dead s' /\ same_schedule s0 s' /\ Forall quiet tr' /\
    (is_execute_or_message op -> tr' = tr)).
Proof.
  intros [Hk Hl] Hs Hq.
  assert (Hrun : forall task s1 tr1,
            _killed s1 = true -> srv_on_message (_server s1) = false ->
            same_schedule s0 s1 -> Forall quiet tr1 ->
            tpost (_run doc task) s1 tr1 (fun s' tr' r =>
              dead s' /\ same_schedule s0 s' /\ Forall quiet tr' /\ tr' = tr1)).
  { intros task s1 tr1 H1 H2 H3 H4. unfold tpost, post.
    rewrite (run_dead task s1 H1). cbn. rewrite app_nil_r.
    split; [split; assumption|]. auto. }
  destruct op as [cd cbs|cd p cbs|cd p cbs|sg k|m]; cbn [step].
  - unfold execute. tstep. eapply tpost_mono; [apply Hrun; auto|].
    cbn beta. intros s' tr' r (H1 & H2 & H3 & H4). auto.
  - unfold complete. tstep. tstep. tstep.
    destruct (parseExpression cd p) as [[e|]|err|].
    + tstep. eapply tpost_mono; [apply Hrun; auto|].
      cbn beta. intros s' tr' r (H1 & H2 & H3 & H4).
      split; [exact H1|]. split; [exact H2|]. split; [exact H3|]. intros [].
    + tstep. tstep. tstep. dead_final Hs. intros [].
    + dead_final Hs. intros [].
    + dead_final Hs. intros [].
  - unfold inspect. tstep.
    destruct (parseExpression cd p) as [[e|]|err|].
    + tstep. tstep. eapply tpost_mono; [apply Hrun; auto|].
      cbn beta. intros s' tr' r (H1 & H2 & H3 & H4).
      split; [exact H1|]. split; [exact H2|]. split; [exact H3|]. intros [].
    + tstep. tstep. tstep. dead_final Hs. intros [].
    + dead_final Hs. intros [].
    + dead_final Hs. intros [].
  - unfold kill. repeat tstep. split; [split; reflexivity|].
    split; [unfold same_schedule in *; cbn; exact Hs|].
    split; [rewrite Forall_app; split; [exact Hq|repeat constructor]|].
    intros [].
  - unfold server_message. tstep. rewrite Hl. tstep.
    split; [split; assumption|]. auto.
Qed.

Lemma run_ops_dead (ops : list Op) (s0 s : Session) (tr : list Event) :
  dead s -> same_schedule s0 s -> Forall quiet tr ->
  dead (run_ops doc ops s).1 /\
  same_schedule s0 (run_ops doc ops s).1 /\
  Forall quiet (tr ++ (run_ops doc ops s).2) /\
  (Forall is_execute_or_message ops -> (run_ops doc ops s).2 = []).
Proof.
  revert s tr. induction ops as [|op ops IH]; intros s tr Hd Hs Hq;
    cbn [run_ops].
  - cbn. rewrite app_nil_r. auto.
  - pose proof (step_dead op s0 s tr Hd Hs Hq) as H. unfold tpost, post in H.
    destruct (step doc op s) as [[s1 ev1] r1]. cbn in H.
    destruct H as (H1 & H2 & H3 & H4).
    destruct (IH s1 (tr ++ ev1) H1 H2 H3) as (H5 & H6 & H7 & H8).
    destruct (run_ops doc ops s1) as [s2 ev2]. cbn in *.
    rewrite app_assoc. split; [exact H5|]. split; [exact H6|].
    split; [exact H7|]. intros Hall. apply Forall_cons in Hall. destruct Hall as [Ha Hb].
    rewrite (H8 Hb), app_nil_r.
    apply (app_inv_head tr). rewrite app_nil_r. apply H4, Ha.
Qed.

(** X7. After a call of [kill] made between the operations of the
    session (not from a callback that the session is calling in the
    middle of one), and as long as the callbacks make no calls to the
    session: whatever calls and messages follow, no task is submitted,
    dispatched or sent to the server, and the queue, the current task,
    the context table and the context counter stay as [kill] found
    them. Calls of [execute] and messages of the server leave no trace
    at all, so no callback of theirs is called. *)
Theorem killed_session_runs_nothing (s : Session) (signal : option jsstring)
    (killCB : option KillCB) (ops : list Op) :
  let s1 := (kill signal killCB s).1.1 in
  let s2 := (run_ops doc ops s1).1 in
  let tr := (run_ops doc ops s1).2 in
  submitted tr = [] /\ dispatched tr = [] /\ sent_ids tr = [] /\
  same_schedule s s2 /\
  (Forall is_execute_or_message ops -> tr = []).
Proof.
  cbv zeta.
  assert (Hd : dead (kill signal killCB s).1.1) by (split; reflexivity).
  assert (Hs : same_schedule s (kill signal killCB s).1.1)
    by (repeat split; reflexivity).
  destruct (run_ops_dead ops s _ [] Hd Hs (List.Forall_nil _))
    as (_ & H2 & H3 & H4).
  cbn [app] in H3. destruct (quiet_trace _ H3) as (Q1 & Q2 & Q3).
  split; [exact Q2|]. split; [exact Q1|]. split; [exact Q3|].
  split; [exact H2|exact H4].
Qed.

End Killed.

(** X8. [kill] signals the server, with [SIGTERM] when no signal is
    given. When the server then exits, the callback of the last [kill]
    is called, once, with the exit code and the signal; the callback of
    an earlier [kill] is never called. *)
Theorem kill_calls_back_on_exit (debug : bool) (s : Session)
    (signal1 signal2 : option jsstring) (f g : UserFn)
    (code : option Z) (exitSignal : option jsstring) :
  let k1 := kill signal1 (Some (KillCB_user f)) s in
  let k2 := kill signal2 (Some (KillCB_user g)) k1.1.1 in
  k1.1.2 = [Signalled (signal_or_SIGTERM signal1)] /\
  signal_or_SIGTERM None = js "SIGTERM" /\
  (server_exit debug code exitSignal k1.1.1).1.2
    = [Called killCB_ f (Arg_exit code exitSignal)] /\
  (server_exit debug code exitSignal k2.1.1).1.2
    = [Called killCB_ g (Arg_exit code exitSignal)].
Proof. cbn. repeat split; reflexivity. Qed.

(** X9. [restart], from whatever state: once the old server has
    exited the session is as new. The queue, the current task and the
    context table are empty, so the tasks that waited or ran are
    dropped; the session is no longer killed and listens to the new
    server, forked with the old working directory; and the next
    [execute] gets context id 1 and is sent as it is. *)
Theorem restart_starts_afresh (doc : jsstring -> option Documentation)
    (debug : bool) (s : Session) (signal : option jsstring)
    (restartCB : option UserFn) (code : option Z) (exitSignal : option jsstring)
    (text : jsstring) (callbacks : option Callbacks) :
  let s1 := (restart signal restartCB s).1.1 in
  let s2 := (server_exit debug code exitSignal s1).1.1 in
  _tasks s2 = [] /\ _currentTask s2 = None /\ _contextTable s2 = ∅ /\
  _lastContextId s2 = 0 /\ _lastTask s2 = None /\ _killed s2 = false /\
  _server s2 = forked {| cwd := cwd (_config s); stdio_debug := debug |} /\
  transpile s2 = None /\
  (execute doc text callbacks s2).1.2 =
    [Submitted (heap_next s); Dispatched 1 (heap_next s)] ++
    match cb callbacks cb_beforeRun with
    | Some b => [Called beforeRun_ b Arg_none]
    | None => []
    end ++ [Sent Action_run text 1].
Proof.
  destruct restartCB as [f|]; cbn; repeat split; try reflexivity;
    destruct (cb callbacks cb_beforeRun); reflexivity.
Qed.

(** ** A server that answers every task *)

Section Answers.

Variable doc : jsstring -> option Documentation.

(** Dispatch on a session without transpiler: the context id is the
    next one, and the task's action and code go to the server. *)
Lemma runNow_plain (n : nat) (t : Task) (s : Session) :
  transpile s = None ->
  runNow_fuel doc (S n) t s =
  (dispatched_state t s, dispatch_events (_lastContextId s + 1) t, Normal tt).
Proof.
  intros H. cbn [runNow_fuel].
  unfold runNow_with, send_task, bind, modify, get, emit, call_if_present, ret.
  cbn. rewrite H. unfold dispatch_events, dispatched_state.
  destruct (beforeRun t); reflexivity.
Qed.

Lemma _runNow_plain (t : Task) (s : Session) :
  transpile s = None ->
  _runNow doc t s =
  (dispatched_state t s, dispatch_events (_lastContextId s + 1) t, Normal tt).
Proof. intros H. unfold _runNow, fuel_for. apply runNow_plain, H. Qed.

Lemma execute_at_rest (k : Z) (code : list N) (callbacks : option Callbacks)
    (s : Session) :
  at_rest k s ->
  let t := execute_task (heap_next s) code callbacks in
  let r := step doc (Op_execute code callbacks) s in
  r.1.2 = Submitted (heap_next s) :: dispatch_events (k + 1) t /\
  serving t [] (k + 1) r.1.1 /\
  heap_next r.1.1 = S (heap_next s).
Proof.
  intros (H1 & H2 & H3 & H4 & H5 & H6 & H7). cbv zeta.
  cbn [step]. unfold execute, _run, run_with, fresh, bind, modify, get, emit, ret.
  cbn. rewrite H7, H1.
  rewrite _runNow_plain by exact H5. cbn. rewrite H4.
  split; [reflexivity|]. split; [|reflexivity].
  unfold serving, dispatched_state, execute_task. cbn.
  rewrite H2, H3, H4, insert_empty. repeat split; auto.
Qed.

Lemma execute_serving (t : Task) (q : list Task) (k : Z) (code : list N)
    (callbacks : option Callbacks) (s : Session) :
  serving t q k s ->
  let r := step doc (Op_execute code callbacks) s in
  r.1.2 = [Submitted (heap_next s)] /\
  serving t (q ++ [execute_task (heap_next s) code callbacks]) k r.1.1 /\
  heap_next r.1.1 = S (heap_next s).
Proof.
  intros (H1 & H2 & H3 & H4 & H5 & H6 & H7 & H8). cbv zeta.
  cbn [step].
  unfold execute, _run, run_with, _runLater, fresh, bind, modify, get, emit, ret.
  cbn. rewrite H8, H1. cbn. rewrite H2. repeat split; auto.
Qed.

Lemma post__runNow (t : Task) (s : Session)
    (Q : Session -> list Event -> completion unit -> Prop) :
  post (runNow_fuel doc (fuel_for s) t) s Q -> post (_runNow doc t) s Q.
Proof. unfold post, _runNow. exact (fun H => H). Qed.

Lemma is_current_same (t : Task) : is_current t (Some t) = true.
Proof. unfold is_current, same_task. apply Nat.eqb_refl. Qed.

(** The final result for the current task of an [execute]: its
    callbacks are called, its context is ended, and the head of the
    queue is dispatched. *)
Lemma result_serving (r : nat) (code : list N) (callbacks : option Callbacks)
    (q : list Task) (k : Z) (s : Session) :
  serving (execute_task r code callbacks) q k s ->
  post (step doc (Op_message (mime_message k true))) s (fun s' ev res =>
    ev = result_events k (execute_task r code callbacks) ++
         match q with
         | [] => []
         | t' :: _ => dispatch_events (k + 1) t'
         end /\
    match q with
    | [] => at_rest k s'
    | t' :: q' => serving t' q' (k + 1) s'
    end /\
    heap_next s' = heap_next s).
Proof.
  intros (H1 & H2 & H3 & H4 & H5 & H6 & H7 & H8).
  cbn [step]. unfold server_message. mstep. rewrite H7.
  apply post__onMessage. unfold onMessage_with.
  cbn [mime_message delete_id_end msg_log msg_stdout msg_stderr msg_id msg_end
       truthy_opt].
  mstep. unfold message_task, lookup_context. rewrite H3, lookup_singleton_eq.
  unfold route_result, handle_result, handle_end, run_next.
  cbn [msg_error].
  assert (Hrest : forall (pre : list Event) (s1 : Session),
            s1 = s ->
            post (bind (bind (emit (Ended (Some k)))
                          (fun _ => bind (modify (delete_context (Some k)))
                             (fun _ => call_if_present afterRun_
                                (afterRun (execute_task r code callbacks))
                                Arg_none)))
                    (fun _ => bind get (fun s0 =>
                       if is_current (execute_task r code callbacks)
                            (_currentTask s0)
                       then bind (modify (set_currentTask None))
                              (fun _ => bind get (fun s2 =>
                                 match _tasks s2 with
                                 | [] => ret tt
                                 | next :: rest =>
                                     bind (modify (set_tasks rest))
                                       (fun _ => runNow_fuel doc (fuel_for s) next)
                                 end))
                       else ret tt))) s1
              (fun s' ev res =>
                 pre ++ ev =
                   pre ++ [Ended (Some k)] ++
                   match afterRun (execute_task r code callbacks) with
                   | Some a => [Called afterRun_ a Arg_none]
                   | None => []
                   end ++
                   match q with
                   | [] => []
                   | t' :: _ => dispatch_events (k + 1) t'
                   end /\
                 match q with
                 | [] => at_rest k s'
                 | t' :: q' => serving t' q' (k + 1) s'
                 end /\
                 heap_next s' = heap_next s)).
  { intros pre s1 ->. apply post_bind. mstep. mstep. mstep. cbn iota.
    mstep. cbn [_currentTask delete_context set_contextTable].
    rewrite H1, is_current_same. mstep. mstep.
    cbn [_tasks set_currentTask delete_context set_contextTable].
    rewrite H2. destruct q as [|t' q'].
    - mstep. split; [|split; [|reflexivity]].
      + rewrite !app_nil_r. reflexivity.
      + unfold at_rest. cbn. rewrite H3, H4, delete_singleton_eq.
        repeat split; auto.
    - mstep. unfold post, fuel_for. rewrite runNow_plain by (cbn; exact H6).
      cbn [fst snd]. split; [|split; [|reflexivity]].
      + cbn [_lastContextId set_tasks set_currentTask set_contextTable
             delete_context]. rewrite H4. reflexivity.
      + unfold serving, dispatched_state. cbn.
        rewrite H3, H4, delete_singleton_eq, insert_empty.
        repeat split; auto. }
  unfold result_events. cbn [onSuccess afterRun execute_task].
  destruct (cb callbacks cb_onSuccess) as [f|]; cbn [option_map call_onSuccess].
  - apply post_emit_bind.
    eapply post_mono;
      [apply (Hrest [Called onSuccess_ f
                       (Arg_message (delete_id_end (mime_message k true)))]
                s eq_refl)|].
    cbn beta. intros s' ev res (E & S & Hh).
    split; [exact E|]. split; assumption.
  - apply post_bind. apply post_ret. cbn iota.
    eapply post_mono; [apply (Hrest [] s eq_refl)|].
    cbn beta. intros s' ev res (E & S & Hh).
    split; [exact E|]. split; assumption.
Qed.

Lemma run_ops_app (a b : list Op) (s : Session) :
  run_ops doc (a ++ b) s =
  ((run_ops doc b (run_ops doc a s).1).1,
   (run_ops doc a s).2 ++ (run_ops doc b (run_ops doc a s).1).2).
Proof.
  revert s. induction a as [|op a IH]; intros s; cbn [run_ops app].
  - cbn. destruct (run_ops doc b s); reflexivity.
  - destruct (step doc op s) as [[s1 ev1] r1]. rewrite IH.
    destruct (run_ops doc a s1) as [s2 ev2]. cbn.
    destruct (run_ops doc b s2) as [s3 ev3]. cbn.
    rewrite app_assoc. reflexivity.
Qed.

Lemma onSuccess_calls_app (a b : list Event) :
  onSuccess_calls (a ++ b) = onSuccess_calls a ++ onSuccess_calls b.
Proof. apply omap_app. Qed.

Lemma sent_messages_app (a b : list Event) :
  sent_messages (a ++ b) = sent_messages a ++ sent_messages b.
Proof. apply omap_app. Qed.

Lemma calls_dispatch_events (k : Z) (t : Task) :
  onSuccess_calls (dispatch_events k t) = [].
Proof. unfold dispatch_events. destruct (beforeRun t); reflexivity. Qed.

Lemma sends_dispatch_events (k : Z) (t : Task) :
  sent_messages (dispatch_events k t) = [(action t, code t, k)].
Proof. unfold dispatch_events. destruct (beforeRun t); reflexivity. Qed.

Lemma calls_result_events (k : Z) (r : nat) (code : list N)
    (callbacks : option Callbacks) :
  onSuccess_calls (result_events k (execute_task r code callbacks)) =
  match cb callbacks cb_onSuccess with
  | Some f => [(f, Arg_message (delete_id_end (mime_message k true)))]
  | None => []
  end.
Proof.
  unfold result_events. cbn [onSuccess afterRun execute_task].
  destruct (cb callbacks cb_onSuccess), (cb callbacks cb_afterRun); reflexivity.
Qed.

Lemma sends_result_events (k : Z) (t : Task) :
  sent_messages (result_events k t) = [].
Proof.
  unfold result_events.
  destruct (onSuccess t) as [[]|], (afterRun t); reflexivity.
Qed.

(** Requests made while a task is served wait in order. *)
Lemma executes_serving (reqs : list (list N * option Callbacks)) (t : Task)
    (q : list Task) (k : Z) (s : Session) :
  serving t q k s ->
  let r := run_ops doc (executes reqs) s in
  serving t (q ++ tasks_from (heap_next s) reqs) k r.1 /\
  onSuccess_calls r.2 = [] /\ sent_messages r.2 = [].
Proof.
  revert q s. induction reqs as [|[code callbacks] reqs IH]; intros q s Hs;
    cbv zeta; cbn [executes List.map run_ops tasks_from fst snd].
  - rewrite app_nil_r. auto.
  - destruct (execute_serving t q k code callbacks s Hs) as (E & S1 & Hh).
    cbv zeta in E, S1, Hh. cbn [step] in E, S1, Hh |- *.
    destruct (execute doc code callbacks s) as [[s1 ev1] r1].
    cbn [fst snd] in E, S1, Hh.
    destruct (IH _ _ S1) as (S2 & C & D). cbv zeta in S2, C, D.
    fold (executes reqs).
    destruct (run_ops doc (executes reqs) s1) as [s2 ev2].
    cbn [fst snd] in *. rewrite Hh, <- app_assoc in S2.
    split; [exact S2|]. subst ev1.
    rewrite onSuccess_calls_app, sent_messages_app, C, D.
    split; reflexivity.
Qed.

(** The final results, in order, for the task served and the tasks
    that wait. *)
Lemma results_serving (reqs : list (list N * option Callbacks)) (r h : nat)
    (code : list N) (callbacks : option Callbacks) (k : Z) (s : Session) :
  serving (execute_task r code callbacks) (tasks_from h reqs) k s ->
  let res := run_ops doc (results k (S (length reqs))) s in
  at_rest (k + Z.of_nat (length reqs)) res.1 /\
  onSuccess_calls res.2 = expected_calls k ((code, callbacks) :: reqs) /\
  sent_messages res.2 = expected_sends (k + 1) reqs.
Proof.
  revert r h code callbacks k s.
  induction reqs as [|[code' callbacks'] reqs IH];
    intros r h code callbacks k s Hs; cbv zeta;
    pose proof (result_serving r code callbacks _ k s Hs) as H;
    unfold post in H; cbn [results run_ops length].
  - destruct (step doc (Op_message (mime_message k true)) s) as [[s1 ev1] r1].
    cbn [fst snd tasks_from] in *. destruct H as (E & S1 & _).
    subst ev1. rewrite Z.add_0_r, !app_nil_r. split; [exact S1|].
    cbn [expected_calls expected_sends fst snd].
    rewrite calls_result_events, sends_result_events, app_nil_r. auto.
  - destruct (step doc (Op_message (mime_message k true)) s) as [[s1 ev1] r1].
    cbn [fst snd tasks_from] in H. destruct H as (E & S1 & _).
    specialize (IH _ _ _ _ _ _ S1). cbv zeta in IH.
    cbn [results run_ops length] in IH.
    destruct (step doc (Op_message (mime_message (k + 1) true)) s1)
      as [[s2 ev2] r2].
    destruct (run_ops doc (results (k + 1 + 1) (length reqs)) s2) as [s3 ev3].
    cbn [fst snd] in *. destruct IH as (R & C & D).
    split; [|split].
    + replace (k + Z.of_nat (S (length reqs)))
        with (k + 1 + Z.of_nat (length reqs)) by lia. exact R.
    + subst ev1. rewrite onSuccess_calls_app in C.
      rewrite !onSuccess_calls_app, calls_result_events,
        calls_dispatch_events, app_nil_r, C.
      reflexivity.
    + subst ev1. rewrite sent_messages_app in D.
      rewrite !sent_messages_app, sends_result_events,
        sends_dispatch_events, D.
      reflexivity.
Qed.

(** X10. Requests made on a session at rest and then answered by the
    server one final result each, in order: every [onSuccess] is called
    once, in the order of the requests, with the result of its own
    context; the codes are sent in the order of the requests under
    consecutive context ids; and the session is at rest again. *)
Theorem requests_answered_in_order (reqs : list (list N * option Callbacks))
    (k : Z) (s : Session) :
  at_rest k s ->
  let r := run_ops doc (executes reqs ++ results (k + 1) (length reqs)) s in
  onSuccess_calls r.2 = expected_calls (k + 1) reqs /\
  sent_messages r.2 = expected_sends (k + 1) reqs /\
  at_rest (k + Z.of_nat (length reqs)) r.1.
Proof.
  intros Hs. cbv zeta. destruct reqs as [|[code callbacks] reqs].
  - cbn. rewrite Z.add_0_r. auto.
  - cbn [executes List.map app run_ops length fst snd].
    destruct (execute_at_rest k code callbacks s Hs) as (E & S1 & Hh).
    cbv zeta in E, S1, Hh.
    destruct (step doc (Op_execute code callbacks) s) as [[s1 ev1] r1].
    cbn [fst snd] in E, S1, Hh.
    fold (executes reqs). rewrite run_ops_app.
    destruct (executes_serving reqs _ _ _ _ S1) as (S2 & C & D).
    cbv zeta in S2, C, D. cbn [app] in S2.
    destruct (run_ops doc (executes reqs) s1) as [s2 ev2].
    cbn [fst snd] in *.
    destruct (results_serving reqs _ _ _ _ _ _ S2) as (R & C' & D').
    cbv zeta in R, C', D'.
    change (Op_message (mime_message (k + 1) true)
              :: results (k + 1 + 1) (length reqs))
      with (results (k + 1) (S (length reqs))).
    destruct (run_ops doc (results (k + 1) (S (length reqs))) s2) as [s3 ev3].
    cbn [fst snd] in *. subst ev1.
    split; [|split].
    + change (Submitted (heap_next s) :: dispatch_events (k + 1)
                (execute_task (heap_next s) code callbacks))
        with ([Submitted (heap_next s)] ++ dispatch_events (k + 1)
                (execute_task (heap_next s) code callbacks)).
      rewrite !onSuccess_calls_app, calls_dispatch_events, C, C'.
      reflexivity.
    + change (Submitted (heap_next s) :: dispatch_events (k + 1)
                (execute_task (heap_next s) code callbacks))
        with ([Submitted (heap_next s)] ++ dispatch_events (k + 1)
                (execute_task (heap_next s) code callbacks)).
      rewrite !sent_messages_app, sends_dispatch_events, D, D'.
      reflexivity.
    + replace (k + Z.of_nat (S (length reqs)))
        with (k + 1 + Z.of_nat (length reqs)) by lia. exact R.
Qed.

End Answers.

Lemma requests_answered_in_order_witness :
  let reqs := [(js "a", Some (only_onSuccess 1%nat));
               (js "b", Some (only_onSuccess 2%nat))] in
  at_rest 0 plain_session /\
  let r := run_ops no_doc (executes reqs ++ results (0 + 1) (length reqs))
             plain_session in
  onSuccess_calls r.2 = expected_calls (0 + 1) reqs /\
  sent_messages r.2 = expected_sends (0 + 1) reqs /\
  at_rest (0 + Z.of_nat (length reqs)) r.1.
Proof.
  cbv zeta. split; [repeat split|].
  apply (requests_answered_in_order no_doc
           [(js "a", Some (only_onSuccess 1%nat));
            (js "b", Some (only_onSuccess 2%nat))] 0 plain_session).
  repeat split.
Defined.

(** X12. Whatever the user and the server have done with a session, no
    task waits in the queue while no task is current. *)
Theorem idle_session_has_empty_queue (doc : jsstring -> option Documentation)
    (debug : bool) (nelConfig : NelConfig) (ops : list Op) :
  let s := (run_ops doc ops (new_Session debug nelConfig)).1 in
  _currentTask s = None -> _tasks s = [].
Proof.
  cbv zeta.
  pose proof (run_ops_inv doc ops _ [] (Inv_new_Session debug nelConfig)) as HI.
  exact (proj2 HI).
Qed.

Lemma idle_session_has_empty_queue_witness :
  let s := (run_ops no_doc
              [Op_execute (js "a") None; Op_message (mime_message 1 true)]
              (new_Session false {| nel_cwd := None; nel_transpile := None |})).1 in
  _currentTask s = None /\ _tasks s = [].
Proof.
  cbv zeta. split; [vm_compute; reflexivity|].
  apply (idle_session_has_empty_queue no_doc false
           {| nel_cwd := None; nel_transpile := None |}
           [Op_execute (js "a") None; Op_message (mime_message 1 true)]).
  vm_compute. reflexivity.
Defined.

(** ** Code that [parseExpression] does not support *)

Section Unsupported.

Variable doc : jsstring -> option Documentation.

(** X13. [complete] on code that [parseExpression] does not support
    answers at once, whatever the state of the session, killed or busy:
    [beforeRun], [onSuccess] with an empty list and an empty range at
    the cursor, and [afterRun] are called in this order, nothing is
    submitted or sent, and the schedule is left as it was. *)
Theorem complete_unsupported_answers_at_once (code : list N) (cursorPos : Z)
    (callbacks : option Callbacks) (s : Session) :
  parseExpression code cursorPos = Normal None ->
  let r := complete doc code cursorPos callbacks s in
  r.2 = Normal tt /\
  r.1.2 = call_events beforeRun_ (cb callbacks cb_beforeRun) Arg_none ++
          call_events onSuccess_ (cb callbacks cb_onSuccess)
            (Arg_completion (no_completion code cursorPos)) ++
          call_events afterRun_ (cb callbacks cb_afterRun) Arg_none /\
  same_schedule s r.1.1 /\ _killed r.1.1 = _killed s.
Proof.
  intros H. cbv zeta.
  unfold complete, fresh, bind, modify, get, lift, call_if_present, emit, ret.
  cbn. rewrite H. cbn. unfold no_completion, same_schedule.
  destruct (cb callbacks cb_beforeRun), (cb callbacks cb_onSuccess),
    (cb callbacks cb_afterRun); cbn; repeat split; reflexivity.
Qed.

(** X14. [inspect] on code that [parseExpression] does not support
    answers at once, whatever the state of the session: [beforeRun],
    [onSuccess] with an inspection that has the code, the cursor and
    empty matched text, string and type, and [afterRun] are called in
    this order, nothing is submitted or sent, and the session is left
    as it was. *)
Theorem inspect_unsupported_answers_at_once (code : list N) (cursorPos : Z)
    (callbacks : option Callbacks) (s : Session) :
  parseExpression code cursorPos = Normal None ->
  let r := inspect doc code cursorPos callbacks s in
  r.2 = Normal tt /\
  r.1.2 = call_events beforeRun_ (cb callbacks cb_beforeRun) Arg_none ++
          call_events onSuccess_ (cb callbacks cb_onSuccess)
            (Arg_message (no_inspection code cursorPos)) ++
          call_events afterRun_ (cb callbacks cb_afterRun) Arg_none /\
  r.1.1 = s.
Proof.
  intros H. cbv zeta.
  unfold inspect, fresh, bind, modify, get, lift, call_if_present, emit, ret.
  cbn. rewrite H. cbn. unfold no_inspection.
  destruct (cb callbacks cb_beforeRun), (cb callbacks cb_onSuccess),
    (cb callbacks cb_afterRun); cbn; repeat split; reflexivity.
Qed.

End Unsupported.

Lemma complete_unsupported_answers_at_once_witness :
  parseExpression (js ".x") 2 = Normal None /\
  let r := complete no_doc (js ".x") 2 (Some all_callbacks) busy_session in
  r.2 = Normal tt /\
  r.1.2 = call_events beforeRun_ (cb (Some all_callbacks) cb_beforeRun) Arg_none ++
          call_events onSuccess_ (cb (Some all_callbacks) cb_onSuccess)
            (Arg_completion (no_completion (js ".x") 2)) ++
          call_events afterRun_ (cb (Some all_callbacks) cb_afterRun) Arg_none /\
  same_schedule busy_session r.1.1 /\ _killed r.1.1 = _killed busy_session.
Proof.
  split; [vm_compute; reflexivity|].
  apply (complete_unsupported_answers_at_once no_doc (js ".x") 2
           (Some all_callbacks) busy_session).
  vm_compute. reflexivity.
Defined.

Lemma inspect_unsupported_answers_at_once_witness :
  parseExpression (js "(1).x") 5 = Normal None /\
  let r := inspect no_doc (js "(1).x") 5 (Some all_callbacks) busy_session in
  r.2 = Normal tt /\
  r.1.2 = call_events beforeRun_ (cb (Some all_callbacks) cb_beforeRun) Arg_none ++
          call_events onSuccess_ (cb (Some all_callbacks) cb_onSuccess)
            (Arg_message (no_inspection (js "(1).x") 5)) ++
          call_events afterRun_ (cb (Some all_callbacks) cb_afterRun) Arg_none /\
  r.1.1 = busy_session.
Proof.
  split; [vm_compute; reflexivity|].
  apply (inspect_unsupported_answers_at_once no_doc (js "(1).x") 5
           (Some all_callbacks) busy_session).
  vm_compute. reflexivity.
Defined.

(** ** The transpiler *)

Section Transpile.

Variable doc : jsstring -> option Documentation.

Lemma _runNow_transpiled (t : Task) (s : Session) (f : Transpiler)
    (code' : list N) :
  transpile s = Some f -> action t = Action_run -> f (code t) = Returns code' ->
  _runNow doc t s =
  (set_task_code code' (dispatched_state t s),
   [Dispatched (_lastContextId s + 1) (task_ref t)] ++
   call_events beforeRun_ (beforeRun t) Arg_none ++
   [Sent Action_run code' (_lastContextId s + 1)],
   Normal tt).
Proof.
  intros Ht Ha Hf. unfold _runNow, fuel_for. cbn [runNow_fuel].
  unfold runNow_with, send_task, bind, modify, get, emit, call_if_present, ret.
  cbn. unfold dispatched_state.
  destruct (beforeRun t); cbn; rewrite Ht, Ha; cbn; rewrite Hf; cbn;
    rewrite Ha; reflexivity.
Qed.

(** X15. [execute] on an idle session with a transpiler that returns:
    [beforeRun] is called first, the transpiled code is what the server
    is sent, and the task kept as current task, as last task and in
    the context table has the transpiled code in place of the code
    given to [execute]. *)
Theorem execute_sends_transpiled_code (code code' : list N)
    (callbacks : option Callbacks) (f : Transpiler) (s : Session) :
  _killed s = false -> _currentTask s = None ->
  transpile s = Some f -> f code = Returns code' ->
  let r := execute doc code callbacks s in
  let k := _lastContextId s + 1 in
  let t := execute_task (heap_next s) code' callbacks in
  r.2 = Normal tt /\
  r.1.2 = [Submitted (heap_next s); Dispatched k (heap_next s)] ++
          call_events beforeRun_ (cb callbacks cb_beforeRun) Arg_none ++
          [Sent Action_run code' k] /\
  _currentTask r.1.1 = Some t /\ _lastTask r.1.1 = Some t /\
  _contextTable r.1.1 !! k = Some t /\ _lastContextId r.1.1 = k.
Proof.
  intros Hk Hc Ht Hf. cbv zeta.
  unfold execute, _run, run_with, fresh, bind, modify, get, emit, ret.
  cbn. rewrite Hk, Hc.
  rewrite (_runNow_transpiled _ _ f code') by (try exact Ht; try exact Hf; reflexivity).
  cbn. rewrite lookup_alter_eq, lookup_insert_eq. repeat split; reflexivity.
Qed.

(** X16. Only [execute] requests go through the transpiler: a task
    whose action is not ["run"] is dispatched as on a session without
    transpiler, its code sent as it is. *)
Theorem transpiler_is_for_run_only (t : Task) (s : Session) :
  action t <> Action_run ->
  _runNow doc t s =
  (dispatched_state t s, dispatch_events (_lastContextId s + 1) t, Normal tt).
Proof.
  intros H. unfold _runNow, fuel_for. cbn [runNow_fuel].
  unfold runNow_with, send_task, bind, modify, get, emit, call_if_present, ret.
  cbn. unfold dispatch_events, dispatched_state.
  destruct (action t) eqn:E; [contradiction| |];
    destruct (transpile s), (beforeRun t); cbn; rewrite ?E; reflexivity.
Qed.

End Transpile.

Lemma execute_sends_transpiled_code_witness :
  let s := new_Session false
             {| nel_cwd := None; nel_transpile := Some parenthesise |} in
  let r := execute no_doc (js "{}") None s in
  let t := execute_task (heap_next s) (js "({})") None in
  _killed s = false /\ _currentTask s = None /\
  transpile s = Some parenthesise /\ parenthesise (js "{}") = Returns (js "({})") /\
  r.2 = Normal tt /\
  r.1.2 = [Submitted (heap_next s); Dispatched (_lastContextId s + 1) (heap_next s)] ++
          call_events beforeRun_ (cb None cb_beforeRun) Arg_none ++
          [Sent Action_run (js "({})") (_lastContextId s + 1)] /\
  _currentTask r.1.1 = Some t /\ _lastTask r.1.1 = Some t /\
  _contextTable r.1.1 !! (_lastContextId s + 1) = Some t /\
  _lastContextId r.1.1 = _lastContextId s + 1.
Proof.
  cbv zeta. do 4 (split; [reflexivity|]).
  apply (execute_sends_transpiled_code no_doc (js "{}") (js "({})") None
           parenthesise
           (new_Session false
              {| nel_cwd := None; nel_transpile := Some parenthesise |}));
    reflexivity.
Defined.

Lemma transpiler_is_for_run_only_witness :
  let t := {| task_ref := 7; action := Action_inspect; code := js "x";
              onSuccess := None; onError := None; beforeRun := None;
              afterRun := None; onStdout := None; onStderr := None |} in
  let s := new_Session false
             {| nel_cwd := None; nel_transpile := Some parenthesise |} in
  action t <> Action_run /\
  _runNow no_doc t s =
  (dispatched_state t s, dispatch_events (_lastContextId s + 1) t, Normal tt).
Proof.
  cbv zeta. split; [discriminate|].
  apply (transpiler_is_for_run_only no_doc); discriminate.
Defined.

(** ** Results and errors for the task served *)

Section Results.

Variable doc : jsstring -> option Documentation.

(** The end of the context of the task served, and the dispatch of the
    next task. *)
Lemma finish_serving (n : nat) (t : Task) (q : list Task) (k : Z) (s : Session) :
  serving t q k s ->
  post (bind (handle_end true (Some k) t)
          (fun _ => run_next (runNow_fuel doc (S n)) t)) s
    (fun s' ev res =>
       ev = [Ended (Some k)] ++ call_events afterRun_ (afterRun t) Arg_none ++
            next_dispatch (k + 1) q /\
       moved_on q k s' /\ res = Normal tt /\
       heap_next s' = heap_next s /\
       heap_matchList s' = heap_matchList s /\
       heap_inspectionResult s' = heap_inspectionResult s).
Proof.
  intros (H1 & H2 & H3 & H4 & H5 & H6 & H7 & H8).
  unfold handle_end, run_next. apply post_bind. mstep. mstep. mstep.
  cbn iota. mstep. cbn [_currentTask delete_context set_contextTable].
  rewrite H1, is_current_same. mstep. mstep.
  cbn [_tasks set_currentTask delete_context set_contextTable].
  rewrite H2. destruct q as [|t' q'].
  - mstep. split; [|split; [|repeat split]].
    + cbn [next_dispatch]. rewrite !app_nil_r. reflexivity.
    + unfold moved_on, at_rest. cbn. rewrite H3, H4, delete_singleton_eq.
      repeat split; auto.
  - mstep. unfold post. rewrite runNow_plain by (cbn; exact H6).
    cbn [fst snd]. split; [|split; [|repeat split]].
    + cbn [_lastContextId set_tasks set_currentTask set_contextTable
           delete_context next_dispatch]. rewrite H4. reflexivity.
    + unfold moved_on, serving, dispatched_state. cbn.
      rewrite H3, H4, delete_singleton_eq, insert_empty.
      repeat split; auto.
Qed.

(** The router finds the task served for a message of its context. *)
Lemma route_serving (t : Task) (q : list Task) (k : Z) (s : Session)
    (m : Message) (Q : Session -> list Event -> completion unit -> Prop) :
  serving t q k s -> final_for k m ->
  post (route_result doc (runNow_fuel doc (fuel_for s)) t (Some k) true
          (delete_id_end m)) s Q ->
  post (step doc (Op_message m)) s Q.
Proof.
  intros (H1 & H2 & H3 & H4 & H5 & H6 & H7 & H8) (M1 & M2 & M3 & M4 & M5) H.
  cbn [step]. unfold server_message. mstep. rewrite H7.
  apply post__onMessage. unfold onMessage_with.
  cbn [delete_id_end msg_log msg_stdout msg_stderr msg_id msg_end].
  rewrite M1, M2, M3, M4, M5.
  mstep. unfold message_task, lookup_context. rewrite H3, lookup_singleton_eq.
  exact H.
Qed.

(** X17. An error that ends the context of the task served: [onError]
    is called with the message, without its [id] and [end], and
    [onSuccess] is not called; then the context is removed, [afterRun]
    is called, and the next task of the queue, if any, is dispatched
    under the next context id. *)
Theorem error_ends_task (t : Task) (q : list Task) (k : Z) (s : Session)
    (m : Message) :
  serving t q k s -> final_for k m -> msg_error m <> None ->
  post (step doc (Op_message m)) s (fun s' ev res =>
    res = Normal tt /\
    ev = call_events onError_ (onError t) (Arg_message (delete_id_end m)) ++
         [Ended (Some k)] ++
         call_events afterRun_ (afterRun t) Arg_none ++
         next_dispatch (k + 1) q /\
    moved_on q k s').
Proof.
  intros Hs Hm He. apply (route_serving t q k s m _ Hs Hm).
  unfold route_result, handle_result. cbn [delete_id_end msg_error].
  destruct (msg_error m) as [e|]; [|contradiction].
  unfold fuel_for. apply post_call_bind.
  eapply post_mono; [apply (finish_serving _ t q k s Hs)|].
  cbn beta. intros s' ev res (E & S & R & _).
  split; [exact R|]. split; [|exact S]. rewrite E. reflexivity.
Qed.

End Results.

Lemma error_ends_task_witness :
  serving (execute_task 0 (js "x") (Some all_callbacks)) [] 1 busy_session /\
  final_for 1 (error_message 1) /\ msg_error (error_message 1) <> None /\
  post (step no_doc (Op_message (error_message 1))) busy_session
    (fun s' ev res =>
       res = Normal tt /\
       ev = call_events onError_
              (onError (execute_task 0 (js "x") (Some all_callbacks)))
              (Arg_message (delete_id_end (error_message 1))) ++
            [Ended (Some 1)] ++
            call_events afterRun_
              (afterRun (execute_task 0 (js "x") (Some all_callbacks)))
              Arg_none ++
            next_dispatch (1 + 1) [] /\
       moved_on [] 1 s').
Proof.
  split; [repeat split|]. split; [repeat split|]. split; [discriminate|].
  apply (error_ends_task no_doc (execute_task 0 (js "x") (Some all_callbacks))
           [] 1 busy_session (error_message 1)).
  - repeat split.
  - repeat split.
  - discriminate.
Defined.

(** ** Messages that belong to no open context *)

Section Late.

Variable doc : jsstring -> option Documentation.

(** A final result for a task of [execute] that is no longer current,
    when the context of the message is not in the context table. *)
Lemma late_result_calls_again (t : Task) (f : option UserFn)
    (s : Session) (m : Message) :
  srv_on_message (_server s) = true ->
  lookup_context s (msg_id m) = None -> _lastTask s = Some t ->
  is_current t (_currentTask s) = false ->
  onSuccess t = option_map OnSuccess_user f ->
  truthy_opt (msg_log m) = false -> truthy_opt (msg_stdout m) = false ->
  truthy_opt (msg_stderr m) = false -> msg_end m = true ->
  msg_error m = None ->
  post (step doc (Op_message m)) s (fun s' ev res =>
    res = Normal tt /\
    ev = call_events onSuccess_ f (Arg_message (delete_id_end m)) ++
         [Ended (msg_id m)] ++
         call_events afterRun_ (afterRun t) Arg_none /\
    same_schedule s s').
Proof.
  intros Hsrv Hctx Hlast Hcur Hf M1 M2 M3 M4 M5.
  cbn [step]. unfold server_message. mstep. rewrite Hsrv.
  apply post__onMessage. unfold onMessage_with.
  cbn [delete_id_end msg_log msg_stdout msg_stderr msg_id msg_end].
  rewrite M1, M2, M3, M4. mstep. unfold message_task. rewrite Hctx, Hlast.
  unfold route_result, handle_result, handle_end, run_next.
  cbn [delete_id_end msg_error]. rewrite M5, Hf.
  assert (Hdel : _contextTable (delete_context (msg_id m) s) = _contextTable s).
  { unfold delete_context, lookup_context in *.
    destruct (msg_id m) as [i|]; [|reflexivity].
    cbn. apply delete_id, Hctx. }
  assert (Hrest : post
            (bind (bind (emit (Ended (msg_id m)))
                     (fun _ => bind (modify (delete_context (msg_id m)))
                        (fun _ => call_if_present afterRun_ (afterRun t) Arg_none)))
               (fun _ => bind get (fun s0 =>
                  if is_current t (_currentTask s0)
                  then bind (modify (set_currentTask None))
                         (fun _ => bind get (fun s2 =>
                            match _tasks s2 with
                            | [] => ret tt
                            | next :: rest =>
                                bind (modify (set_tasks rest))
                                  (fun _ => runNow_fuel doc (fuel_for s) next)
                            end))
                  else ret tt))) s
            (fun s' ev res =>
               res = Normal tt /\
               ev = [Ended (msg_id m)] ++
                    call_events afterRun_ (afterRun t) Arg_none /\
               same_schedule s s')).
  { apply post_bind. mstep. mstep. mstep. cbn iota. mstep.
    replace (_currentTask (delete_context (msg_id m) s)) with (_currentTask s)
      by (destruct (msg_id m); reflexivity).
    rewrite Hcur. mstep. split; [reflexivity|]. split.
    - rewrite app_nil_r. reflexivity.
    - unfold same_schedule. rewrite Hdel.
      destruct (msg_id m); repeat split; reflexivity. }
  destruct f as [g|]; cbn [option_map call_onSuccess call_events].
  - apply post_emit_bind. eapply post_mono; [exact Hrest|].
    cbn beta. intros s' ev res (R & E & S). rewrite E. auto.
  - apply post_bind. apply post_ret. cbn iota.
    eapply post_mono; [exact Hrest|].
    cbn beta. intros s' ev res (R & E & S). rewrite E. auto.
Qed.

(** X18. A message that is neither a log nor output, and whose context
    is not, or no longer, in the context table, is routed as a result
    for the last task dispatched, whatever the kind of that task. When
    that task is one of [execute] (its [onSuccess] is the callback of
    the user, or is missing) and is not the current task, a final
    success message makes its [onSuccess] and [afterRun] be called
    (again, when the task has been answered before), nothing is
    dispatched and the schedule stays as it is. *)
Theorem late_result_goes_to_last_task (t : Task) (s : Session) (m : Message) :
  srv_on_message (_server s) = true ->
  lookup_context s (msg_id m) = None -> _lastTask s = Some t ->
  truthy_opt (msg_log m) = false -> truthy_opt (msg_stdout m) = false ->
  truthy_opt (msg_stderr m) = false ->
  step doc (Op_message m) s =
    route_result doc (runNow_fuel doc (fuel_for s)) t
      (msg_id m) (msg_end m) (delete_id_end m) s /\
  forall f : option UserFn,
    is_current t (_currentTask s) = false ->
    onSuccess t = option_map OnSuccess_user f ->
    msg_end m = true -> msg_error m = None ->
    post (step doc (Op_message m)) s (fun s' ev res =>
      res = Normal tt /\
      ev = call_events onSuccess_ f (Arg_message (delete_id_end m)) ++
           [Ended (msg_id m)] ++
           call_events afterRun_ (afterRun t) Arg_none /\
      same_schedule s s').
Proof.
  intros Hsrv Hctx Hlast M1 M2 M3. split.
  - cbn [step]. unfold server_message. unfold bind at 1, get.
    cbn beta iota. rewrite Hsrv.
    unfold _onMessage, onMessage_with.
    cbn [delete_id_end msg_log msg_stdout msg_stderr].
    rewrite M1, M2, M3.
    unfold bind at 1, get. cbn beta iota.
    unfold message_task. rewrite Hctx, Hlast.
    destruct (route_result _ _ _ _ _ _ s) as [[s2 ev2] r2].
    reflexivity.
  - intros f Hcur Hf M4 M5.
    apply (late_result_calls_again t f s m); assumption.
Qed.

(** X19. A message that arrives when its context is not in the
    context table and no task has been dispatched yet is dropped: no
    callback is called and the session is as it was. *)
Theorem message_without_task_is_dropped (s : Session) (m : Message) :
  lookup_context s (msg_id m) = None -> _lastTask s = None ->
  step doc (Op_message m) s = (s, [], Normal tt).
Proof.
  intros Hctx Hlast. cbn [step].
  unfold server_message, _onMessage, onMessage_with, bind, get, ret.
  cbn [delete_id_end msg_log msg_id].
  destruct (srv_on_message (_server s)); [|reflexivity].
  destruct (truthy_opt (msg_log m)); [reflexivity|].
  unfold message_task. rewrite Hctx, Hlast. reflexivity.
Qed.

End Late.

Lemma late_result_goes_to_last_task_witness :
  let t := execute_task 0 (js "x") (Some all_callbacks) in
  let s := answered_session in
  let m := mime_message 1 true in
  srv_on_message (_server s) = true /\
  lookup_context s (msg_id m) = None /\ _lastTask s = Some t /\
  truthy_opt (msg_log m) = false /\ truthy_opt (msg_stdout m) = false /\
  truthy_opt (msg_stderr m) = false /\
  is_current t (_currentTask s) = false /\
  onSuccess t = option_map OnSuccess_user (Some 1%nat) /\
  msg_end m = true /\ msg_error m = None /\
  step no_doc (Op_message m) s =
    route_result no_doc (runNow_fuel no_doc (fuel_for s)) t
      (msg_id m) (msg_end m) (delete_id_end m) s /\
  forall f : option UserFn,
    is_current t (_currentTask s) = false ->
    onSuccess t = option_map OnSuccess_user f ->
    msg_end m = true -> msg_error m = None ->
    post (step no_doc (Op_message m)) s (fun s' ev res =>
      res = Normal tt /\
      ev = call_events onSuccess_ f (Arg_message (delete_id_end m)) ++
           [Ended (msg_id m)] ++
           call_events afterRun_ (afterRun t) Arg_none /\
      same_schedule s s').
Proof.
  cbv zeta. do 10 (split; [reflexivity|]).
  apply (late_result_goes_to_last_task no_doc
           (execute_task 0 (js "x") (Some all_callbacks))
           answered_session (mime_message 1 true)); reflexivity.
Defined.

Lemma message_without_task_is_dropped_witness :
  lookup_context plain_session (msg_id (mime_message 1 true)) = None /\
  _lastTask plain_session = None /\
  step no_doc (Op_message (mime_message 1 true)) plain_session
  = (plain_session, [], Normal tt).
Proof.
  split; [reflexivity|]. split; [reflexivity|].
  apply (message_without_task_is_dropped no_doc plain_session
           (mime_message 1 true)); reflexivity.
Defined.

(** ** Documentation lookup *)

Lemma count_letters_app (p x : list N) :
  forallb letter p = true ->
  count_letters (p ++ x) = (length p + count_letters x)%nat.
Proof.
  induction p as [|c p IH]; cbn [forallb app count_letters length];
    [reflexivity|].
  intros H. apply andb_true_iff in H. destruct H as [Hc Hp].
  rewrite Hc, (IH Hp). reflexivity.
Qed.

(** The engine gives letters back until the family follows: the
    longest run of letters that the family follows is taken. *)
Lemma give_back_found (family name : list N) (k n : nat) :
  (1 <= k)%nat ->
  family_follows family (drop k name) = true ->
  (forall j, (1 <= j <= n)%nat ->
     family_follows family (drop (k + j) name) = false) ->
  give_back (k + n) family name = Some k.
Proof.
  intros Hk Hat. induction n as [|n IH]; intros Hno.
  - rewrite Nat.add_0_r. destruct k as [|k]; [lia|].
    cbn [give_back]. rewrite Hat. reflexivity.
  - pose proof (Hno (S n) ltac:(lia)) as H1.
    rewrite Nat.add_succ_r in H1 |- *. cbn [give_back].
    rewrite H1. apply IH. intros j Hj. apply Hno. lia.
Qed.

Lemma replace_family_Error (p rest : list N) (c : N) :
  p <> [] -> forallb letter p = true -> letter c = false -> dot c = true ->
  replace_family (js "Error") (js "Error.") (p ++ js "Error" ++ c :: rest)
  = js "Error." ++ rest.
Proof.
  intros Hp Hl Hc Hd. unfold replace_family.
  rewrite (count_letters_app p _ Hl).
  change (js "Error") with [69; 114; 114; 111; 114]%N.
  cbn [app count_letters]. rewrite Hc.
  change (letter 69 && true) with true.
  replace (if letter 69 then _ else _) with 5%nat by reflexivity.
  rewrite (give_back_found _ _ (length p) 5).
  - rewrite <- Nat.add_assoc, drop_app_add. reflexivity.
  - destruct p; [contradiction|cbn; lia].
  - rewrite drop_app_length. unfold family_follows. cbn. exact Hd.
  - intros j Hj. rewrite drop_app_add. unfold family_follows.
    assert (Hc' : char_eqb 69 c = false).
    { unfold char_eqb. destruct (N.eqb_spec 69 c) as [<-|]; [|reflexivity].
      discriminate Hc. }
    destruct j as [|[|[|[|[|[|j]]]]]]; try lia;
      cbn [drop app starts_with]; rewrite ?Hc'; reflexivity.
Qed.

Section Documentation.

Variable doc : jsstring -> option Documentation.

(** X20. The documentation of a member of an error constructor falls
    back on that of [Error]: for a name made of letters, then [Error],
    then one character that is no letter (the [.] of the pattern stands
    for any character but a line terminator), a name without entry of
    its own gets the entry of [Error.] followed by the rest. *)
Theorem error_documentation_falls_back (p rest : list N) (c : N)
    (d : Documentation) :
  p <> [] -> forallb letter p = true -> letter c = false -> dot c = true ->
  doc (p ++ js "Error" ++ c :: rest) = None ->
  doc (js "Error." ++ rest) = Some d ->
  getDocumentation doc (p ++ js "Error" ++ c :: rest) = Some d.
Proof.
  intros Hp Hl Hc Hd Hown Hfam. unfold getDocumentation.
  rewrite Hown, (replace_family_Error p rest c Hp Hl Hc Hd), Hfam.
  reflexivity.
Qed.

(** X21. The fallback on [TypedArray] applies to none of the typed
    array constructors: their names have a digit between the letters
    and [Array], which the pattern does not allow. A member of a typed
    array has the documentation of its own entry, or none. *)
Theorem typed_array_documentation_has_no_fallback :
  Forall (fun constructorName =>
            forall rest : list N,
              getDocumentation doc (constructorName ++ rest)
              = doc (constructorName ++ rest))
         typed_arrays.
Proof.
  unfold typed_arrays. cbn [List.map].
  repeat (apply List.Forall_cons;
          [intros rest; unfold getDocumentation;
           match goal with
           | |- context [replace_family ?a ?b ?n] =>
               replace (replace_family a b n) with n by (vm_compute; reflexivity)
           end;
           match goal with
           | |- context [replace_family ?a ?b ?n] =>
               replace (replace_family a b n) with n by (vm_compute; reflexivity)
           end;
           destruct (doc _); reflexivity|]).
  apply List.Forall_nil.
Qed.

(** X22. The search along the chain of constructors: the
    documentation found is that of the first constructor of the list
    with documentation for the member, and none is found exactly when
    no constructor has any. *)
Theorem find_member_doc_first (constructorList : list (list N))
    (selector : list N) :
  match find_member_doc doc constructorList selector with
  | Some d =>
      exists before constructorName after,
        constructorList = before ++ constructorName :: after /\
        getDocumentation doc (constructorName ++ js ".prototype." ++ selector)
        = Some d /\
        Forall (fun c => getDocumentation doc (c ++ js ".prototype." ++ selector)
                         = None) before
  | None =>
      Forall (fun c => getDocumentation doc (c ++ js ".prototype." ++ selector)
                       = None) constructorList
  end.
Proof.
  induction constructorList as [|c l IH]; cbn [find_member_doc].
  - apply List.Forall_nil.
  - destruct (getDocumentation doc (c ++ js ".prototype." ++ selector))
      as [d|] eqn:E.
    + exists [], c, l. split; [reflexivity|]. split; [exact E|].
      apply List.Forall_nil.
    + destruct (find_member_doc doc l selector) as [d|].
      * destruct IH as (before & c' & after & -> & Hd & Hb).
        exists (c :: before), c', after. split; [reflexivity|].
        split; [exact Hd|]. apply List.Forall_cons; assumption.
      * apply List.Forall_cons; assumption.
Qed.

End Documentation.

Lemma error_documentation_falls_back_witness :
  js "Range" <> [] /\ forallb letter (js "Range") = true /\
  letter 46 = false /\ dot 46 = true /\
  only_Error_message (js "Range" ++ js "Error" ++ 46%N :: js "prototype.message")
  = None /\
  only_Error_message (js "Error." ++ js "prototype.message")
  = Some error_message_doc /\
  getDocumentation only_Error_message
    (js "Range" ++ js "Error" ++ 46%N :: js "prototype.message")
  = Some error_message_doc.
Proof.
  split; [discriminate|]. do 5 (split; [reflexivity|]).
  apply (error_documentation_falls_back only_Error_message (js "Range")
           (js "prototype.message") 46%N error_message_doc);
    first [discriminate | reflexivity].
Defined.

(** ** [complete] and [inspect] with their answers *)

Section Conversations.

Variable doc : jsstring -> option Documentation.

Lemma complete_at_rest (k : Z) (code : list N) (cursorPos : Z)
    (callbacks : option Callbacks) (e : Expression) (s : Session) :
  at_rest k s -> parseExpression code cursorPos = Normal (Some e) ->
  let t := complete_task (S (heap_next s)) (heap_next s) e code cursorPos
             callbacks in
  let r := step doc (Op_complete code cursorPos callbacks) s in
  r.1.2 = Submitted (S (heap_next s)) :: dispatch_events (k + 1) t /\
  serving t [] (k + 1) r.1.1 /\
  heap_matchList r.1.1 !! heap_next s = Some [].
Proof.
  intros (H1 & H2 & H3 & H4 & H5 & H6 & H7) Hp. cbv zeta.
  cbn [step].
  unfold complete, _run, run_with, fresh, lift, bind, modify, get, emit, ret.
  rewrite Hp. cbn. rewrite H7, H1.
  rewrite _runNow_plain by exact H5. cbn. rewrite H4.
  split; [reflexivity|]. split.
  - unfold serving, dispatched_state, complete_task. cbn.
    rewrite H2, H3, H4, insert_empty. repeat split; auto.
  - apply lookup_insert_eq.
Qed.

(** X23. [complete] on an idle session, for code that
    [parseExpression] supports, and the answer of the server: the
    session asks for the property names of the scope, or of [global]
    when the expression has no scope; on the answer [onSuccess] gets
    the completion computed from the names, then the context is ended
    and [afterRun] is called; the session is idle again. *)
Theorem complete_and_answer (k : Z) (code : list N) (cursorPos : Z)
    (callbacks : option Callbacks) (e : Expression) (names : list (list N))
    (s : Session) :
  at_rest k s -> parseExpression code cursorPos = Normal (Some e) ->
  let r := run_ops doc [Op_complete code cursorPos callbacks;
                        Op_message (names_message (k + 1) names)] s in
  exists c : Completion,
    (completeOnSuccess e code cursorPos [] (Some names)).2 = Normal c /\
    r.2 = [Submitted (S (heap_next s)); Dispatched (k + 1) (S (heap_next s))] ++
          call_events beforeRun_ (cb callbacks cb_beforeRun) Arg_none ++
          [Sent Action_getAllPropertyNames
             (if negb (truthy (scope e)) then js "global" else scope e)
             (k + 1)] ++
          call_events onSuccess_ (cb callbacks cb_onSuccess) (Arg_completion c) ++
          [Ended (Some (k + 1))] ++
          call_events afterRun_ (cb callbacks cb_afterRun) Arg_none /\
    at_rest (k + 1) r.1.
Proof.
  intros Hs Hp. cbv zeta.
  destruct (complete_at_rest k code cursorPos callbacks e s Hs Hp)
    as (E1 & S1 & Hcell).
  cbv zeta in E1, S1, Hcell. cbn [run_ops].
  destruct (step doc (Op_complete code cursorPos callbacks) s)
    as [[s1 ev1] r1]. cbn [fst snd] in E1, S1, Hcell.
  destruct (completeOnSuccess_first e code cursorPos names)
    as (c & Hc & _). exists c. rewrite Hc. split; [reflexivity|].
  assert (Hm : post (step doc (Op_message (names_message (k + 1) names))) s1
                 (fun s' ev res =>
                    ev = call_events onSuccess_ (cb callbacks cb_onSuccess)
                           (Arg_completion c) ++
                         [Ended (Some (k + 1))] ++
                         call_events afterRun_ (cb callbacks cb_afterRun)
                           Arg_none /\
                    at_rest (k + 1) s')).
  { apply (route_serving doc _ [] (k + 1) s1 _ _ S1); [repeat split|].
    unfold route_result, handle_result.
    cbn [delete_id_end names_message msg_error complete_task onSuccess
         call_onSuccess msg_names].
    apply post_bind. mstep. rewrite Hcell. cbn [default from_option id].
    rewrite Hc.
    mstep. mstep. apply post_call. cbn iota.
    unfold fuel_for.
    eapply post_mono;
      [apply (finish_serving doc _ _ [] (k + 1)); destruct S1 as
         (A1 & A2 & A3 & A4 & A5 & A6 & A7 & A8); repeat split; assumption|].
    cbn beta. intros s' ev res (E & S & _).
    split; [|exact S]. rewrite E. cbn [next_dispatch complete_task afterRun].
    rewrite !app_nil_r. reflexivity. }
  unfold post in Hm.
  destruct (step doc (Op_message (names_message (k + 1) names)) s1)
    as [[s2 ev2] r2]. cbn [fst snd] in *. destruct Hm as (E2 & S2).
  split; [|exact S2]. rewrite E1, E2, app_nil_r.
  unfold dispatch_events. cbn [complete_task task_ref beforeRun action].
  destruct (cb callbacks cb_beforeRun); reflexivity.
Qed.

Lemma inspect_at_rest (k : Z) (code : list N) (cursorPos : Z)
    (callbacks : option Callbacks) (e : Expression) (s : Session) :
  at_rest k s -> parseExpression code cursorPos = Normal (Some e) ->
  let t := inspect_task (S (heap_next s)) (heap_next s) e code cursorPos
             callbacks in
  let r := step doc (Op_inspect code cursorPos callbacks) s in
  r.1.2 = Submitted (S (heap_next s)) :: dispatch_events (k + 1) t /\
  serving t [] (k + 1) r.1.1 /\
  heap_next r.1.1 = S (S (heap_next s)).
Proof.
  intros (H1 & H2 & H3 & H4 & H5 & H6 & H7) Hp. cbv zeta.
  cbn [step].
  unfold inspect, _run, run_with, fresh, lift, bind, modify, get, emit, ret.
  rewrite Hp. cbn. rewrite H7, H1.
  rewrite _runNow_plain by exact H5. cbn. rewrite H4.
  split; [reflexivity|]. split; [|reflexivity].
  unfold serving, dispatched_state, inspect_task. cbn.
  rewrite H2, H3, H4, insert_empty. repeat split; auto.
Qed.

Lemma serving_heap (t : Task) (q : list Task) (k : Z) (s s' : Session) :
  serving t q k s ->
  _currentTask s' = _currentTask s -> _tasks s' = _tasks s ->
  _contextTable s' = _contextTable s -> _lastContextId s' = _lastContextId s ->
  _lastTask s' = _lastTask s -> transpile s' = transpile s ->
  _server s' = _server s -> _killed s' = _killed s ->
  serving t q k s'.
Proof.
  intros (H1 & H2 & H3 & H4 & H5 & H6 & H7 & H8) E1 E2 E3 E4 E5 E6 E7 E8.
  unfold serving. rewrite E1, E2, E3, E4, E5, E6, E7, E8.
  repeat split; assumption.
Qed.

(** X24. [inspect] on an idle session, for an expression without
    scope, and the answer of the server: the session asks for the
    inspection of the matched text; on the answer [onSuccess] gets the
    inspection of the server with the code, the cursor and the matched
    text added, and with the documentation of the matched text when
    there is one; [afterRun] is called next, before the context is
    ended; the session is idle again. *)
Theorem inspect_and_answer (k : Z) (code : list N) (cursorPos : Z)
    (callbacks : option Callbacks) (e : Expression) (m : Message)
    (i : Inspection) (s : Session) :
  at_rest k s -> parseExpression code cursorPos = Normal (Some e) ->
  truthy (scope e) = false ->
  final_for (k + 1) m -> msg_error m = None -> msg_inspection m = Some i ->
  let r := run_ops doc [Op_inspect code cursorPos callbacks; Op_message m] s in
  r.2 = [Submitted (S (heap_next s)); Dispatched (k + 1) (S (heap_next s))] ++
        call_events beforeRun_ (cb callbacks cb_beforeRun) Arg_none ++
        [Sent Action_inspect (matchedText e) (k + 1)] ++
        call_events onSuccess_ (cb callbacks cb_onSuccess)
          (Arg_message (with_doc (getDocumentation doc (matchedText e))
                          (inspection_of code cursorPos e m i))) ++
        call_events afterRun_ (cb callbacks cb_afterRun) Arg_none ++
        [Ended (Some (k + 1))] /\
  at_rest (k + 1) r.1.
Proof.
  intros Hs Hp Hscope Hm Herr Hi. cbv zeta.
  destruct (inspect_at_rest k code cursorPos callbacks e s Hs Hp)
    as (E1 & S1 & _).
  cbv zeta in E1, S1. cbn [run_ops].
  destruct (step doc (Op_inspect code cursorPos callbacks) s)
    as [[s1 ev1] r1]. cbn [fst snd] in E1, S1.
  assert (Hpost : post (step doc (Op_message m)) s1
                 (fun s' ev res =>
                    ev = call_events onSuccess_ (cb callbacks cb_onSuccess)
                           (Arg_message
                              (with_doc (getDocumentation doc (matchedText e))
                                 (inspection_of code cursorPos e m i))) ++
                         call_events afterRun_ (cb callbacks cb_afterRun)
                           Arg_none ++
                         [Ended (Some (k + 1))] /\
                    at_rest (k + 1) s')).
  { apply (route_serving doc _ [] (k + 1) s1 _ _ S1 Hm).
    unfold route_result, handle_result.
    cbn [delete_id_end msg_error inspect_task onSuccess call_onSuccess
         msg_inspection].
    rewrite Herr, Hi. apply post_bind. mstep. mstep.
    unfold getDocumentationAndInvokeCallbacks. rewrite Hscope.
    cbn [negb]. mstep. mstep. apply post_call. cbn iota.
    unfold fuel_for.
    eapply post_mono;
      [apply (finish_serving doc _ _ [] (k + 1));
       apply (serving_heap _ _ _ s1 _ S1); reflexivity|].
    cbn beta. intros s' ev res (E & S & _).
    split; [|exact S]. rewrite E. cbn [next_dispatch inspect_task afterRun].
    unfold inspection_of, with_doc, set_inspection, call_events.
    cbn [delete_id_end msg_id msg_end msg_log msg_stdout msg_stderr msg_error
         msg_mime msg_names msg_inspection msg_doc].
    rewrite !app_nil_r, <- !app_assoc. reflexivity. }
  unfold post in Hpost.
  destruct (step doc (Op_message m) s1) as [[s2 ev2] r2].
  cbn [fst snd] in *. destruct Hpost as (E2 & S2).
  split; [|exact S2]. rewrite E1, E2, app_nil_r.
  unfold dispatch_events. cbn [inspect_task task_ref beforeRun action].
  destruct (cb callbacks cb_beforeRun); reflexivity.
Qed.

Lemma post_fresh_bind {B} (k : nat -> M B) (s : Session)
    (Q : Session -> list Event -> completion B -> Prop) :
  post (k (heap_next s)) (set_heap_next (S (heap_next s)) s) Q ->
  post (bind fresh k) s Q.
Proof.
  unfold post, bind, fresh, get, modify, ret. cbn.
  destruct (k (heap_next s) (set_heap_next (S (heap_next s)) s))
    as [[s2 ev2] r2]; cbn; auto.
Qed.

(** The first answer to [inspect] for an expression with a scope: the
    inspection is kept, and the inspection of the scope is asked for. *)
Lemma inspect_scope_first_answer (k : Z) (r cell : nat) (code : list N)
    (cursorPos : Z) (callbacks : option Callbacks) (e : Expression)
    (m : Message) (i : Inspection) (s : Session) :
  serving (inspect_task r cell e code cursorPos callbacks) [] k s ->
  truthy (scope e) = true ->
  final_for k m -> msg_error m = None -> msg_inspection m = Some i ->
  post (step doc (Op_message m)) s (fun s' ev res =>
    ev = [Submitted (heap_next s); Ended (Some k);
          Dispatched (k + 1) (heap_next s);
          Sent Action_inspect (scope e) (k + 1)] /\
    serving (inspect_scope_task (heap_next s) cell e callbacks) [] (k + 1) s' /\
    heap_inspectionResult s' !! cell = Some (inspection_of code cursorPos e m i)).
Proof.
  intros S1 Hscope Hm Herr Hi.
  apply (route_serving doc _ [] k s _ _ S1 Hm).
  unfold route_result, handle_result.
  cbn [delete_id_end msg_error inspect_task onSuccess call_onSuccess
       msg_inspection].
  rewrite Herr, Hi. apply post_bind. mstep. mstep.
  unfold getDocumentationAndInvokeCallbacks. rewrite Hscope. cbn [negb].
  apply post_fresh_bind. unfold run_with.
  apply post_get_bind. cbn beta.
  replace (_killed _) with false
    by (destruct S1 as (_ & _ & _ & _ & _ & _ & _ & <-); reflexivity).
  apply post_emit_bind.
  replace (_currentTask _) with
    (Some (inspect_task r cell e code cursorPos callbacks))
    by (destruct S1 as (<- & _); reflexivity).
  unfold _runLater. apply post_get_bind. apply post_modify. cbn iota.
  replace (_tasks _) with (@nil Task)
    by (destruct S1 as (_ & <- & _); reflexivity).
  cbn [app]. unfold fuel_for.
  eapply post_mono;
    [apply (finish_serving doc _ _
              [inspect_scope_task (heap_next s) cell e callbacks] k);
     destruct S1 as (A1 & A2 & A3 & A4 & A5 & A6 & A7 & A8);
     repeat split; assumption|].
  cbn beta. intros s' ev res (E & S & _ & _ & _ & Hh).
  split; [|split; [exact S|]].
  - rewrite E. reflexivity.
  - rewrite Hh. cbn. apply lookup_insert_eq.
Qed.

(** The second answer: the documentation of the member is looked for
    along the constructors of the scope. *)
Lemma inspect_scope_second_answer (k : Z) (r cell : nat)
    (callbacks : option Callbacks) (e : Expression) (kept m : Message)
    (i : Inspection) (s : Session) :
  serving (inspect_scope_task r cell e callbacks) [] k s ->
  heap_inspectionResult s !! cell = Some kept ->
  final_for k m -> msg_error m = None -> msg_inspection m = Some i ->
  post (step doc (Op_message m)) s (fun s' ev res =>
    ev = call_events onSuccess_ (cb callbacks cb_onSuccess)
           (Arg_message
              (with_doc match constructorList i with
                        | Some l => find_member_doc doc l (selector e)
                        | None => None
                        end kept)) ++
         [Ended (Some k)] ++
         call_events afterRun_ (cb callbacks cb_afterRun) Arg_none /\
    at_rest k s').
Proof.
  intros S1 Hkept Hm Herr Hi.
  apply (route_serving doc _ [] k s _ _ S1 Hm).
  unfold route_result, handle_result.
  cbn [delete_id_end msg_error inspect_scope_task onSuccess call_onSuccess
       msg_inspection].
  rewrite Herr, Hi. apply post_bind. mstep. rewrite Hkept.
  mstep. apply post_call. cbn iota. unfold fuel_for.
  eapply post_mono;
    [apply (finish_serving doc _ _ [] k);
     apply (serving_heap _ _ _ s _ S1); reflexivity|].
  cbn beta. intros s' ev res (E & S & _).
  split; [|exact S]. rewrite E.
  cbn [next_dispatch inspect_scope_task afterRun]. unfold with_doc.
  rewrite !app_nil_r. reflexivity.
Qed.

(** X25. [inspect] on an idle session, for an expression with a scope,
    takes two answers of the server. On the inspection of the matched
    text the session keeps the result and asks for the inspection of
    the scope, as a second task. On that one [onSuccess] gets the
    first inspection, with the code, the cursor and the matched text
    added, and with the documentation of the selector found along the
    constructors of the scope; the context is ended and [afterRun] is
    called. [beforeRun] is called once, for the first task. *)
Theorem inspect_member_and_answers (k : Z) (code : list N) (cursorPos : Z)
    (callbacks : option Callbacks) (e : Expression) (m1 m2 : Message)
    (i1 i2 : Inspection) (s : Session) :
  at_rest k s -> parseExpression code cursorPos = Normal (Some e) ->
  truthy (scope e) = true ->
  final_for (k + 1) m1 -> msg_error m1 = None -> msg_inspection m1 = Some i1 ->
  final_for (k + 1 + 1) m2 -> msg_error m2 = None ->
  msg_inspection m2 = Some i2 ->
  let r := run_ops doc [Op_inspect code cursorPos callbacks;
                        Op_message m1; Op_message m2] s in
  r.2 = [Submitted (S (heap_next s)); Dispatched (k + 1) (S (heap_next s))] ++
        call_events beforeRun_ (cb callbacks cb_beforeRun) Arg_none ++
        [Sent Action_inspect (matchedText e) (k + 1);
         Submitted (S (S (heap_next s))); Ended (Some (k + 1));
         Dispatched (k + 1 + 1) (S (S (heap_next s)));
         Sent Action_inspect (scope e) (k + 1 + 1)] ++
        call_events onSuccess_ (cb callbacks cb_onSuccess)
          (Arg_message
             (with_doc match constructorList i2 with
                       | Some l => find_member_doc doc l (selector e)
                       | None => None
                       end (inspection_of code cursorPos e m1 i1))) ++
        [Ended (Some (k + 1 + 1))] ++
        call_events afterRun_ (cb callbacks cb_afterRun) Arg_none /\
  at_rest (k + 1 + 1) r.1.
Proof.
  intros Hs Hp Hscope Hm1 Herr1 Hi1 Hm2 Herr2 Hi2. cbv zeta.
  destruct (inspect_at_rest k code cursorPos callbacks e s Hs Hp)
    as (E1 & S1 & Hh1).
  cbv zeta in E1, S1, Hh1. cbn [run_ops].
  destruct (step doc (Op_inspect code cursorPos callbacks) s)
    as [[s1 ev1] r1]. cbn [fst snd] in E1, S1, Hh1.
  pose proof (inspect_scope_first_answer (k + 1) _ _ code cursorPos callbacks
                e m1 i1 s1 S1 Hscope Hm1 Herr1 Hi1) as H1.
  unfold post in H1.
  destruct (step doc (Op_message m1) s1) as [[s2 ev2] r2].
  cbn [fst snd] in H1. destruct H1 as (E2 & S2 & Hkept).
  rewrite Hh1 in E2, S2.
  pose proof (inspect_scope_second_answer (k + 1 + 1) _ _ callbacks e _ m2 i2
                s2 S2 Hkept Hm2 Herr2 Hi2) as H2.
  unfold post in H2.
  destruct (step doc (Op_message m2) s2) as [[s3 ev3] r3].
  cbn [fst snd] in *. destruct H2 as (E3 & S3).
  split; [|exact S3]. rewrite E1, E2, E3, app_nil_r.
  unfold dispatch_events. cbn [inspect_task task_ref beforeRun action].
  destruct (cb callbacks cb_beforeRun); reflexivity.
Qed.

End Conversations.

Lemma complete_and_answer_witness :
  let e := {| matchedText := js "foo.b"; scope := js "foo";
              leftOp := js "."; selector := js "b"; rightOp := [] |} in
  let names := [js "bar"; js "baz"; js "qux"] in
  let callbacks := Some all_callbacks in
  let s := plain_session in
  at_rest 0 s /\ parseExpression (js "foo.b") 5 = Normal (Some e) /\
  let r := run_ops no_doc [Op_complete (js "foo.b") 5 callbacks;
                           Op_message (names_message (0 + 1) names)] s in
  exists c : Completion,
    (completeOnSuccess e (js "foo.b") 5 [] (Some names)).2 = Normal c /\
    r.2 = [Submitted (S (heap_next s)); Dispatched (0 + 1) (S (heap_next s))] ++
          call_events beforeRun_ (cb callbacks cb_beforeRun) Arg_none ++
          [Sent Action_getAllPropertyNames
             (if negb (truthy (scope e)) then js "global" else scope e)
             (0 + 1)] ++
          call_events onSuccess_ (cb callbacks cb_onSuccess) (Arg_completion c) ++
          [Ended (Some (0 + 1))] ++
          call_events afterRun_ (cb callbacks cb_afterRun) Arg_none /\
    at_rest (0 + 1) r.1.
Proof.
  cbv zeta. split; [repeat split|]. split; [vm_compute; reflexivity|].
  apply (complete_and_answer no_doc 0 (js "foo.b") 5 (Some all_callbacks)
           {| matchedText := js "foo.b"; scope := js "foo";
              leftOp := js "."; selector := js "b"; rightOp := [] |}
           [js "bar"; js "baz"; js "qux"] plain_session).
  - repeat split.
  - vm_compute. reflexivity.
Defined.

Lemma inspect_and_answer_witness :
  let e := {| matchedText := js "x"; scope := []; leftOp := [];
              selector := js "x"; rightOp := [] |} in
  let callbacks := Some all_callbacks in
  let m := inspection_message (0 + 1) a_number in
  let s := plain_session in
  at_rest 0 s /\ parseExpression (js "x") 1 = Normal (Some e) /\
  truthy (scope e) = false /\
  final_for (0 + 1) m /\ msg_error m = None /\ msg_inspection m = Some a_number /\
  let r := run_ops no_doc [Op_inspect (js "x") 1 callbacks; Op_message m] s in
  r.2 = [Submitted (S (heap_next s)); Dispatched (0 + 1) (S (heap_next s))] ++
        call_events beforeRun_ (cb callbacks cb_beforeRun) Arg_none ++
        [Sent Action_inspect (matchedText e) (0 + 1)] ++
        call_events onSuccess_ (cb callbacks cb_onSuccess)
          (Arg_message (with_doc (getDocumentation no_doc (matchedText e))
                          (inspection_of (js "x") 1 e m a_number))) ++
        call_events afterRun_ (cb callbacks cb_afterRun) Arg_none ++
        [Ended (Some (0 + 1))] /\
  at_rest (0 + 1) r.1.
Proof.
  cbv zeta. split; [repeat split|]. split; [vm_compute; reflexivity|].
  split; [reflexivity|]. split; [repeat split|]. do 2 (split; [reflexivity|]).
  apply (inspect_and_answer no_doc 0 (js "x") 1 (Some all_callbacks)
           {| matchedText := js "x"; scope := []; leftOp := [];
              selector := js "x"; rightOp := [] |}
           (inspection_message (0 + 1) a_number) a_number plain_session).
  - repeat split.
  - vm_compute. reflexivity.
  - reflexivity.
  - repeat split.
  - reflexivity.
  - reflexivity.
Defined.

Lemma inspect_member_and_answers_witness :
  let e := {| matchedText := js "s.length"; scope := js "s"; leftOp := js ".";
              selector := js "length"; rightOp := [] |} in
  let callbacks := Some all_callbacks in
  let m1 := inspection_message (0 + 1) a_number in
  let m2 := inspection_message (0 + 1 + 1) a_string in
  let s := plain_session in
  at_rest 0 s /\ parseExpression (js "s.length") 8 = Normal (Some e) /\
  truthy (scope e) = true /\
  final_for (0 + 1) m1 /\ msg_error m1 = None /\
  msg_inspection m1 = Some a_number /\
  final_for (0 + 1 + 1) m2 /\ msg_error m2 = None /\
  msg_inspection m2 = Some a_string /\
  let r := run_ops no_doc [Op_inspect (js "s.length") 8 callbacks;
                           Op_message m1; Op_message m2] s in
  r.2 = [Submitted (S (heap_next s)); Dispatched (0 + 1) (S (heap_next s))] ++
        call_events beforeRun_ (cb callbacks cb_beforeRun) Arg_none ++
        [Sent Action_inspect (matchedText e) (0 + 1);
         Submitted (S (S (heap_next s))); Ended (Some (0 + 1));
         Dispatched (0 + 1 + 1) (S (S (heap_next s)));
         Sent Action_inspect (scope e) (0 + 1 + 1)] ++
        call_events onSuccess_ (cb callbacks cb_onSuccess)
          (Arg_message
             (with_doc match constructorList a_string with
                       | Some l => find_member_doc no_doc l (selector e)
                       | None => None
                       end (inspection_of (js "s.length") 8 e m1 a_number))) ++
        [Ended (Some (0 + 1 + 1))] ++
        call_events afterRun_ (cb callbacks cb_afterRun) Arg_none /\
  at_rest (0 + 1 + 1) r.1.
Proof.
  cbv zeta. split; [repeat split|]. split; [vm_compute; reflexivity|].
  split; [reflexivity|]. split; [repeat split|]. do 2 (split; [reflexivity|]).
  split; [repeat split|]. do 2 (split; [reflexivity|]).
  apply (inspect_member_and_answers no_doc 0 (js "s.length") 8
           (Some all_callbacks)
           {| matchedText := js "s.length"; scope := js "s"; leftOp := js ".";
              selector := js "length"; rightOp := [] |}
           (inspection_message (0 + 1) a_number)
           (inspection_message (0 + 1 + 1) a_string)
           a_number a_string plain_session).
  - repeat split.
  - vm_compute. reflexivity.
  - reflexivity.
  - repeat split.
  - reflexivity.
  - reflexivity.
  - repeat split.
  - reflexivity.
  - reflexivity.
Defined.

(** ** A transpiler that throws an error with a message *)

Lemma error_of_thrown_reported (name stack : option (list N)) (message : list N) :
  truthy message = true ->
  error_of_thrown (Thrown_object name (Some message) stack)
  = Normal (reported name message stack).
Proof.
  intros H. unfold error_of_thrown, reported, truthy_property, typeof.
  rewrite H. cbn [cbind].
  destruct name as [n|]; [destruct (truthy n)|];
    (destruct stack as [st|]; [destruct (truthy st)|]); reflexivity.
Qed.

Section Reported.

Variable doc : jsstring -> option Documentation.

(** X26. [execute] on an idle session whose transpiler throws an
    object with a message: the error is reported by one call of
    [onError], with the name of the object (["object"] for want of
    one), its message and the lines of its stack; nothing is sent to
    the server; no context is ended and [afterRun] is not called; the
    task is no longer current, and its entry stays in the context
    table. *)
Theorem transpile_error_is_reported (code : list N)
    (callbacks : option Callbacks) (f : Transpiler)
    (name stack : option (list N)) (message : list N) (s : Session) :
  _killed s = false -> _currentTask s = None -> _tasks s = [] ->
  transpile s = Some f ->
  f code = Throws (Thrown_object name (Some message) stack) ->
  truthy message = true ->
  let r := execute doc code callbacks s in
  let k := _lastContextId s + 1 in
  r.2 = Normal tt /\
  r.1.2 = [Submitted (heap_next s); Dispatched k (heap_next s)] ++
          call_events beforeRun_ (cb callbacks cb_beforeRun) Arg_none ++
          call_events onError_ (cb callbacks cb_onError)
            (Arg_message (error_only (reported name message stack))) /\
  _currentTask r.1.1 = None /\ _tasks r.1.1 = [] /\
  _contextTable r.1.1 !! k = Some (execute_task (heap_next s) code callbacks).
Proof.
  intros Hk Hc Hq Ht Hf Hm. cbv zeta.
  unfold execute, _run, run_with, fresh, bind, modify, get, emit, ret.
  cbn. rewrite Hk, Hc.
  unfold _runNow, fuel_for. cbn [runNow_fuel].
  unfold runNow_with, onMessage_with, message_task, lookup_context,
    route_result, handle_result, handle_end, run_next, call_if_present, lift,
    bind, modify, get, emit, ret.
  cbn -[error_of_thrown]. rewrite Ht. unfold execute_task.
  destruct (cb callbacks cb_beforeRun), (cb callbacks cb_onError);
    cbn -[error_of_thrown];
    rewrite Hf, (error_of_thrown_reported name stack message Hm);
    cbn -[reported]; unfold is_current, same_task; cbn -[reported];
    rewrite Nat.eqb_refl; cbn -[reported]; rewrite Hq;
    cbn -[reported]; rewrite lookup_insert_eq; repeat split;
    first [reflexivity | exact Hq].
Qed.

End Reported.

Lemma transpile_error_is_reported_witness :
  let s := session_with (throwing bad) in
  let callbacks := Some all_callbacks in
  _killed s = false /\ _currentTask s = None /\ _tasks s = [] /\
  transpile s = Some (throwing bad) /\
  throwing bad (js "1") =
    Throws (Thrown_object (Some (js "Error")) (Some (js "bad"))
              (Some (js "Error: bad"))) /\
  truthy (js "bad") = true /\
  let r := execute no_doc (js "1") callbacks s in
  let k := _lastContextId s + 1 in
  r.2 = Normal tt /\
  r.1.2 = [Submitted (heap_next s); Dispatched k (heap_next s)] ++
          call_events beforeRun_ (cb callbacks cb_beforeRun) Arg_none ++
          call_events onError_ (cb callbacks cb_onError)
            (Arg_message
               (error_only (reported (Some (js "Error")) (js "bad")
                              (Some (js "Error: bad"))))) /\
  _currentTask r.1.1 = None /\ _tasks r.1.1 = [] /\
  _contextTable r.1.1 !! k = Some (execute_task (heap_next s) (js "1") callbacks).
Proof.
  cbv zeta. do 6 (split; [reflexivity|]).
  apply (transpile_error_is_reported no_doc (js "1") (Some all_callbacks)
           (throwing bad) (Some (js "Error")) (Some (js "Error: bad"))
           (js "bad") (session_with (throwing bad))); reflexivity.
Defined.

(** ** The lines of a stack *)

Lemma join_lines_cons (l : list N) (rest : list (list N)) :
  rest <> [] -> join_lines (l :: rest) = l ++ 10%N :: join_lines rest.
Proof. destruct rest; [contradiction|reflexivity]. Qed.

Lemma split_lines_acc_nonempty (s cur : list N) : split_lines_acc s cur <> [].
Proof.
  revert cur. induction s as [|c s IH]; intros cur; cbn [split_lines_acc].
  - discriminate.
  - destruct (char_eqb c 10); [discriminate|apply IH].
Qed.

Lemma forallb_rev {A} (f : A -> bool) (l : list A) :
  forallb f (rev l) = forallb f l.
Proof.
  induction l as [|x l IH]; [reflexivity|].
  cbn [rev forallb]. rewrite forallb_app, IH. cbn [forallb].
  rewrite andb_true_r. apply andb_comm.
Qed.

Lemma split_lines_acc_spec (s cur : list N) :
  forallb (fun c => negb (char_eqb c 10)) cur = true ->
  join_lines (split_lines_acc s cur) = rev cur ++ s /\
  Forall (fun l => forallb (fun c => negb (char_eqb c 10)) l = true)
    (split_lines_acc s cur).
Proof.
  revert cur. induction s as [|c s IH]; intros cur Hcur; cbn [split_lines_acc].
  - split; [cbn; rewrite app_nil_r; reflexivity|].
    apply List.Forall_cons; [|apply List.Forall_nil].
    rewrite forallb_rev. exact Hcur.
  - destruct (char_eqb c 10) eqn:E.
    + destruct (IH [] eq_refl) as [J F]. split.
      * rewrite join_lines_cons by apply split_lines_acc_nonempty.
        rewrite J. cbn [rev app].
        unfold char_eqb in E. apply N.eqb_eq in E. subst c. reflexivity.
      * apply List.Forall_cons; [|exact F]. rewrite forallb_rev. exact Hcur.
    + destruct (IH (c :: cur)) as [J F].
      { cbn [forallb]. rewrite E, Hcur. reflexivity. }
      split; [|exact F]. rewrite J. cbn [rev]. rewrite <- app_assoc.
      reflexivity.
Qed.

(** X27. The traceback of a reported error is the stack cut at its
    line feeds: there is at least one line, no line holds a line feed,
    and the lines joined by line feeds are the stack again. *)
Theorem split_lines_join (stack : list N) :
  split_lines stack <> [] /\
  Forall (fun l => forallb (fun c => negb (char_eqb c 10)) l = true)
    (split_lines stack) /\
  join_lines (split_lines stack) = stack.
Proof.
  unfold split_lines. split; [apply split_lines_acc_nonempty|].
  destruct (split_lines_acc_spec stack [] eq_refl) as [J F].
  split; [exact F|exact J].
Qed.

(** ** Answers of the server that lack what was asked for *)

Section Malformed.

Variable doc : jsstring -> option Documentation.

(** X28. An answer without [names] to the request of [complete], for
    an expression with a selector: the filter of the names throws a
    [TypeError] out of the message handler. No callback is called, the
    context is not ended, and the task stays the current one, so the
    tasks of the queue keep waiting. *)
Theorem complete_answer_without_names (r cell : nat) (code : list N)
    (cursorPos : Z) (callbacks : option Callbacks) (e : Expression)
    (q : list Task) (k : Z) (m : Message) (s : Session) :
  serving (complete_task r cell e code cursorPos callbacks) q k s ->
  heap_matchList s !! cell = Some [] ->
  truthy (selector e) = true ->
  final_for k m -> msg_error m = None -> msg_names m = None ->
  post (step doc (Op_message m)) s (fun s' ev res =>
    res = Throw TypeError /\ ev = [] /\
    serving (complete_task r cell e code cursorPos callbacks) q k s').
Proof.
  intros S1 Hcell Hsel Hm Herr Hn.
  apply (route_serving doc _ q k s _ _ S1 Hm).
  unfold route_result, handle_result.
  cbn [delete_id_end msg_error complete_task onSuccess call_onSuccess
       msg_names].
  rewrite Herr, Hn. apply post_bind. mstep. rewrite Hcell.
  cbn [default from_option id]. unfold completeOnSuccess.
  cbn [concat_arg app]. rewrite Hsel.
  assert (Hf : forall l, filter_selector (selector e) (None :: l)
                         = Throw TypeError) by reflexivity.
  destruct (negb (truthy (scope e))); cbn [app]; rewrite Hf;
    (apply post_modify_bind; apply post_lift_bind;
     split; [reflexivity|]; split; [reflexivity|];
     apply (serving_heap _ _ _ s _ S1); reflexivity).
Qed.

(** X29. An answer without [inspection] to the request of [inspect]:
    writing the code into the missing inspection throws a [TypeError]
    out of the message handler. No callback is called, the context is
    not ended, and the task stays the current one. *)
Theorem inspect_answer_without_inspection (r cell : nat) (code : list N)
    (cursorPos : Z) (callbacks : option Callbacks) (e : Expression)
    (q : list Task) (k : Z) (m : Message) (s : Session) :
  serving (inspect_task r cell e code cursorPos callbacks) q k s ->
  final_for k m -> msg_error m = None -> msg_inspection m = None ->
  post (step doc (Op_message m)) s (fun s' ev res =>
    res = Throw TypeError /\ ev = [] /\
    serving (inspect_task r cell e code cursorPos callbacks) q k s').
Proof.
  intros S1 Hm Herr Hi.
  apply (route_serving doc _ q k s _ _ S1 Hm).
  unfold route_result, handle_result.
  cbn [delete_id_end msg_error inspect_task onSuccess call_onSuccess
       msg_inspection].
  rewrite Herr, Hi. apply post_bind. apply post_modify_bind.
  apply post_throw. split; [reflexivity|]. split; [reflexivity|].
  apply (serving_heap _ _ _ s _ S1); reflexivity.
Qed.

End Malformed.

Lemma complete_answer_without_names_witness :
  let e := {| matchedText := js "foo.b"; scope := js "foo";
              leftOp := js "."; selector := js "b"; rightOp := [] |} in
  let t := complete_task 1 0 e (js "foo.b") 5 (Some all_callbacks) in
  serving t [] 1 completing_session /\
  heap_matchList completing_session !! 0%nat = Some [] /\
  truthy (selector e) = true /\
  final_for 1 (bare_message 1) /\ msg_error (bare_message 1) = None /\
  msg_names (bare_message 1) = None /\
  post (step no_doc (Op_message (bare_message 1))) completing_session
    (fun s' ev res =>
       res = Throw TypeError /\ ev = [] /\ serving t [] 1 s').
Proof.
  cbv zeta. split; [repeat split|]. do 2 (split; [reflexivity|]).
  split; [repeat split|]. do 2 (split; [reflexivity|]).
  apply (complete_answer_without_names no_doc 1 0 (js "foo.b") 5
           (Some all_callbacks)
           {| matchedText := js "foo.b"; scope := js "foo";
              leftOp := js "."; selector := js "b"; rightOp := [] |}
           [] 1 (bare_message 1) completing_session);
    first [reflexivity | repeat split].
Defined.

Lemma inspect_answer_without_inspection_witness :
  let e := {| matchedText := js "x"; scope := []; leftOp := [];
              selector := js "x"; rightOp := [] |} in
  let t := inspect_task 1 0 e (js "x") 1 (Some all_callbacks) in
  serving t [] 1 inspecting_session /\
  final_for 1 (bare_message 1) /\ msg_error (bare_message 1) = None /\
  msg_inspection (bare_message 1) = None /\
  post (step no_doc (Op_message (bare_message 1))) inspecting_session
    (fun s' ev res =>
       res = Throw TypeError /\ ev = [] /\ serving t [] 1 s').
Proof.
  cbv zeta. split; [repeat split|]. split; [repeat split|].
  do 2 (split; [reflexivity|]).
  apply (inspect_answer_without_inspection no_doc 1 0 (js "x") 1
           (Some all_callbacks)
           {| matchedText := js "x"; scope := []; leftOp := [];
              selector := js "x"; rightOp := [] |}
           [] 1 (bare_message 1) inspecting_session);
    first [reflexivity | repeat split].
Defined.
